(** * teams.py: the chat downloader, its archive writer and its download loop

    A shallow embedding of [src/teams.py].  Python text is a list of Unicode
    code points, dictionaries are finite maps, the closure variables of
    [download_chat] are the fields of a state record, and the effects of the
    program (HTTP requests, the temp file, the chats folder, the console) are
    threaded through that record.  Text files are read and written as
    CPython does on a POSIX system: reading turns every line end into a line
    feed, writing puts the text down as it is ([os.linesep] is a line
    feed).  A file of the chats folder is kept as the text its bytes decode
    to, so the folder holds UTF-8 files only.  The file system and the
    console do not fail of their own: the only exceptions are those of the
    requests, of the end of standard input, and of [save_msg] on a message
    it cannot write. *)

From Stdlib Require Import ZArith NArith List Bool Lia Ascii String.
From stdpp Require Import base option list gmap.
Import ListNotations.

Set Default Proof Using "Type".

(** ** Python text *)

Module PyStr.

(** A Python [str] is a sequence of code points. *)
Abbreviation char := N (only parsing).
Abbreviation str := (list N) (only parsing).

(** A literal of the source, written as a Rocq string of ASCII characters. *)
Definition lit (s : string) : str :=
  map N_of_ascii (list_ascii_of_string s).

Definition nl : char := 10%N.
Definition cr : char := 13%N.
Definition space : char := 32%N.

(** [str.isspace] on one character: the code points CPython classifies as
    whitespace, which are also what [strip] and [rstrip] remove. *)
Definition isspace (c : char) : bool :=
  ((9 <=? c) && (c <=? 13) || (28 <=? c) && (c <=? 32)
   || (c =? 133) || (c =? 160) || (c =? 5760)
   || (8192 <=? c) && (c <=? 8202)
   || (c =? 8232) || (c =? 8233) || (c =? 8239) || (c =? 8287)
   || (c =? 12288))%N.

Fixpoint lstrip (s : str) : str :=
  match s with
  | [] => []
  | c :: s' => if isspace c then lstrip s' else s
  end.

Definition rstrip (s : str) : str := rev (lstrip (rev s)).

Definition strip (s : str) : str := lstrip (rstrip s).

(** [sep.join(parts)] *)
Fixpoint join (sep : str) (parts : list str) : str :=
  match parts with
  | [] => []
  | p :: rest =>
      match rest with
      | [] => p
      | _ :: _ => p ++ sep ++ join sep rest
      end
  end.

(** [s.startswith(c)] for a one-character prefix. *)
Definition startswith (c : char) (s : str) : bool :=
  match s with
  | [] => false
  | d :: _ => (d =? c)%N
  end.

(** [s.replace(c, "")] for a one-character pattern. *)
Definition remove_char (c : char) (s : str) : str :=
  List.filter (fun d => negb (d =? c)%N) s.

(** [s.split(c)[0]]: the text before the first occurrence of [c]. *)
Fixpoint before_first (c : char) (s : str) : str :=
  match s with
  | [] => []
  | d :: s' => if (d =? c)%N then [] else d :: before_first c s'
  end.

(** Truth value of a string or of a list: non-empty. *)
Definition nonempty {A} (l : list A) : bool :=
  match l with [] => false | _ :: _ => true end.

(** [str(l)] for a list whose elements print as the given texts. *)
Definition str_of_list (reprs : list str) : str :=
  lit "[" ++ join (lit ", ") reprs ++ lit "]".

Definition ends_with (c : char) (s : str) : Prop := last s = Some c.

(** What reading a text file gives for the text stored in it (the default
    [newline=None] of [open] and [Path.read_text]): a carriage return with
    the line feed after it, and a carriage return alone, come back as one
    line feed. *)
Fixpoint universal_newlines (s : str) : str :=
  match s with
  | [] => []
  | c :: s' =>
      if (c =? cr)%N then
        nl :: match s' with
              | [] => []
              | d :: s'' =>
                  if (d =? nl)%N then universal_newlines s''
                  else universal_newlines s'
              end
      else c :: universal_newlines s'
  end.

(** The code points UTF-8 has no encoding for: the surrogates. *)
Definition is_surrogate (c : char) : bool :=
  ((55296 <=? c) && (c <=? 57343))%N.

(** [s.encode("utf-8")] does not raise. *)
Definition encodable (s : str) : bool :=
  forallb (fun c => negb (is_surrogate c)) s.

End PyStr.
Import PyStr.

(** ** The parts of the Python runtime the program calls

    The Unicode tables behind [str.isalpha], [str.isdigit] and [str.lower],
    and the ISO 8601 parsers of [datetime], are not part of the program: the
    development is parametric in them. *)

Record date := mk_date { year : Z; month : Z; day : Z }.

(** [a > b] on dates: the order of the triples (year, month, day). *)
Definition date_gt (a b : date) : bool :=
  ((year b <? year a)
   || (year a =? year b) && ((month b <? month a)
       || (month a =? month b) && (day b <? day a)))%Z.

Record datetime := mk_datetime { dt_date : date; dt_micros : Z }.

Class PythonLib := {
  isalpha : char -> bool;
  isdigit : char -> bool;
  lower : str -> str;
  (** [None] stands for [ValueError]. *)
  datetime_fromisoformat : str -> option datetime;
  date_fromisoformat : str -> option date
}.

(** ** Messages and the archive writer *)

(** A value decoded from the JSON of a response, as far as the program tells
    values apart: [None] (JSON null), a string, a list (its elements kept as
    the texts Python prints for them), or any other value (a number, a
    boolean, an object), kept as its truth value and the text [str()] gives
    for it. *)
Inductive pyval :=
| PNone
| PStr (s : str)
| PList (items : list str)
| POther (truth : bool) (shown : str).

#[global] Instance pyval_eq_dec : EqDecision pyval.
Proof. solve_decision. Defined.

(** [str(v)], which is also what an f-string puts for [{v}]. *)
Definition to_str (v : pyval) : str :=
  match v with
  | PNone => lit "None"
  | PStr s => s
  | PList items => str_of_list items
  | POther _ shown => shown
  end.

(** The truth value of [v], as [if v] and [not v] take it. *)
Definition truthy (v : pyval) : bool :=
  match v with
  | PNone => false
  | PStr s => nonempty s
  | PList items => nonempty items
  | POther truth _ => truth
  end.

(** The dictionary [loop] builds for an accepted message: four values copied
    from the record as they are. *)
Record message := mk_message {
  msg_from : pyval;
  msg_body : pyval;
  msg_attachments : pyval;
  msg_time : pyval
}.

Inductive exn :=
| HTTPError (status_code : Z)
| EOFError
| AttributeError
| UnicodeEncodeError
| OtherError.

(** How a call of [save_msg] ends, with the chats folder it leaves. *)
Inductive saved :=
| Saved (folder : gmap str str)
| SaveRaised (e : exn) (folder : gmap str str).

Definition folder_after (r : saved) : gmap str str :=
  match r with
  | Saved folder => folder
  | SaveRaised _ folder => folder
  end.

Section Writer.
Context `{PythonLib}.

Definition _to_filename (title : str) : str :=
  let name :=
    rstrip (List.filter (fun c => isalpha c || isdigit c || (c =? space)%N) title) in
  name ++ lit ".md".

(** [msg["body"].strip()] can be called: the body is a string.  On any
    other value the call raises [AttributeError]. *)
Definition has_text_body (m : message) : bool :=
  match msg_body m with
  | PStr _ => true
  | _ => false
  end.

(** The test that makes [save_msg] pass over a message (line 239), for a
    message whose body is a string. *)
Definition skipped (m : message) : bool :=
  match msg_body m with
  | PStr body => negb (nonempty (strip body)) && negb (truthy (msg_attachments m))
  | _ => false
  end.

(** The text of one entry. *)
Definition entry (m : message) : str :=
  let line :=
    lit "##### " ++ to_str (msg_from m) ++ lit " - " ++ to_str (msg_time m)
    ++ [nl] ++ to_str (msg_body m) in
  if truthy (msg_attachments m)
  then line ++ [nl] ++ lit "attachments:" ++ [nl] ++ lit "```"
            ++ to_str (msg_attachments m) ++ lit "```"
  else line.

(** The body of the [for] statement of [save_msg], over the messages in the
    order the statement visits them.  [None]: the statement raises
    [AttributeError], at a message whose body is not a string. *)
Fixpoint append_entries (msgs : list message) (lines : list str)
  : option (list str) :=
  match msgs with
  | [] => Some lines
  | m :: rest =>
      match msg_body m with
      | PStr body =>
          if negb (nonempty (strip body)) && negb (truthy (msg_attachments m))
          then append_entries rest lines
          else append_entries rest (lines ++ [entry m])
      | _ => None
      end
  end.

Definition heading (title : str) : str := lit "## " ++ title.

(** The list [lines] of [save_msg] when the file read as [existing]; [None]
    when building it raises. *)
Definition save_msg_lines (messages : list message) (title existing : str)
  : option (list str) :=
  let lines := if nonempty existing then [] else [heading title] in
  append_entries (rev messages) lines.

(** [save_msg(messages, title)] on the chats folder, a map from file name
    to the text stored in the file.  A file that does not exist reads as the
    empty text.  The lines are built before the file is opened, so an
    [AttributeError] leaves the folder as it was.  [open(f, "w")] empties
    the file, and each [out.write] encodes its text before anything of it
    goes to the file: a text that cannot be encoded raises
    [UnicodeEncodeError] with the file holding what was written before.
    (The text of a file that was decoded can always be encoded again; the
    case of a stored text that cannot is that of the third [out.write]
    raising.) *)
Definition save_msg (messages : list message) (title : str)
    (folder : gmap str str) : saved :=
  let f := _to_filename title in
  let existing := universal_newlines (default [] (folder !! f)) in
  match save_msg_lines messages title existing with
  | None => SaveRaised AttributeError folder
  | Some lines =>
      let content := join [nl; nl] lines in
      if encodable content then
        if encodable existing
        then Saved (<[f := content ++ [nl; nl] ++ existing]> folder)
        else SaveRaised UnicodeEncodeError (<[f := content ++ [nl; nl]]> folder)
      else SaveRaised UnicodeEncodeError (<[f := []]> folder)
  end.

(** The archive file of a title: the text stored in it, the empty text when
    there is none. *)
Definition archive (title : str) (folder : gmap str str) : str :=
  default [] (folder !! _to_filename title).

(** The first line of a text, as reading the file gives it. *)
Definition first_line (s : str) : str := before_first nl (universal_newlines s).

(** The entries [save_msg] writes for a batch, in the order it writes them:
    those of the messages it does not pass over, last message first. *)
Definition entries_of (batch : list message) : list str :=
  rev (map entry (List.filter (fun m => negb (skipped m)) batch)).

(** The text of the archive after a flush of [batch] that completes, [old]
    being the text stored before. *)
Definition flushed (title old : str) (batch : list message) : str :=
  join [nl; nl] ((if nonempty old then [] else [heading title]) ++ entries_of batch)
  ++ [nl; nl] ++ universal_newlines old.

(** The text of the archive after the batches were flushed one after the
    other, each flush completing. *)
Definition archive_after (title old : str) (batches : list (list message)) : str :=
  foldl (flushed title) old batches.

(** The block a flush onto a file that is not empty puts on top of it. *)
Definition block (batch : list message) : str :=
  join [nl; nl] (entries_of batch) ++ [nl; nl].

(** [save_msg] on each batch in turn, up to the first call that raises. *)
Fixpoint save_all (batches : list (list message)) (title : str)
    (folder : gmap str str) : saved :=
  match batches with
  | [] => Saved folder
  | batch :: rest =>
      match save_msg batch title folder with
      | Saved folder' => save_all rest title folder'
      | SaveRaised e folder' => SaveRaised e folder'
      end
  end.

(** [save_msg] can deal with the message: its body is a string and, unless
    the message is passed over, its entry can be encoded. *)
Definition writable (m : message) : bool :=
  has_text_body m && (skipped m || encodable (entry m)).

(** The text [new] is [old] (nothing was written), or it ends with [old] as
    reading gives it, below a block that ends a line. *)
Definition grown (old new : str) : Prop :=
  new = old
  \/ exists above, ends_with nl above /\ new = above ++ universal_newlines old.

End Writer.

(** ** Pages, the temp file and the environment *)

(** One element of a page's ["value"] array, as the five reads of [loop]
    see it.  A field is [None] when reading it raises (the key is missing,
    or a value on the path to it is null or not an object); otherwise it is
    the value found there, whatever it is ([Some PNone] for a JSON null). *)
Record raw_record := mk_raw {
  messageType : option pyval;
  createdDateTime : option pyval;
  from_user_displayName : option pyval;
  body_content : option pyval;
  attachments : option pyval
}.

(** The decoded body of a response: ["value"] and ["@odata.nextLink"]. *)
Record page := mk_page {
  value : list raw_record;
  nextLink : option str
}.

(** What [requests.get] gives back: a response with its status code and its
    body ([None] when the body does not decode to a page), or no response at
    all (an exception of [requests] that is not an [HTTPError]). *)
Inductive response :=
| Response (status_code : Z) (json : option page)
| NoResponse.

(** [res.raise_for_status()] raises for the client and server error codes. *)
Definition raise_for_status (status_code : Z) : bool :=
  ((400 <=? status_code) && (status_code <? 600))%Z.

Record chat := mk_chat {
  chat_id : str;
  chat_name : str
}.

(** An entry of ["chat_progress"]. *)
Record progress := mk_progress {
  next_url : option str;
  num : Z
}.

(** The JSON document of the temp file. *)
Record temp := mk_temp {
  chat_progress : gmap str progress;
  chat_list : list chat
}.

(** What the program prints, one constructor per [print] and [log] call. *)
Inductive printed :=
| PFoundPrevious (n : Z)
| PDownloading (name : str)
| PErrorOn (r : raw_record)
| PStopOldest (oldest : option date)
| PStopMax (limit : option Z)
| PComplete
| PAskContinue (requests tot : Z)
| PProgress (tot : Z)
| PCannotDownload (name : str)
| PDone (tot requests : Z)
| PPrompt (text : str).

(** The effects of the program on its environment, in the order they
    happen.  A call of [save_msg] is an [EvSave] when it completes and an
    [EvSaveFailed] when it raises. *)
Inductive event :=
| EvGet (u : str) (with_params : bool)
| EvSave (batch : list message) (title : str)
| EvSaveFailed (batch : list message) (title : str) (e : exn)
| EvCheckpoint (id : str) (next : option str) (n : Z)
| EvPrint (p : printed).

(** The environment: the temp file ([None]: it does not exist), the chats
    folder, the lines waiting on standard input, and the effects so far. *)
Record world := mk_world {
  temp_file : option temp;
  folder : gmap str str;
  stdin : list str;
  events : list event
}.

(** The variables of [download_chat] that [loop] declares [nonlocal], the
    buffer [messages], and the environment. *)
Record state := mk_state {
  messages : list message;
  num_requests : Z;
  since_confirm : Z;
  tot_msg : Z;
  url : str;
  params : bool;
  env : world
}.

Inductive stop := StopOldest | StopMax | StopComplete | StopDeclined.

(** How [loop] ends: at one of its four [return] statements, or raising. *)
Inductive outcome :=
| Returned (why : stop)
| Raised (e : exn).

(** One turn of the [while] statement either goes round again or ends. *)
Inductive step :=
| Next (st : state)
| Done (o : outcome) (st : state).

(** What the [try] block does with one record. *)
Inductive verdict :=
| NotAMessage
| TooOld
| Accepted (m : message)
| Failed.

(** What the first part of [download_chat] decides. *)
Inductive start :=
| Leave (w : world)
| Fail (e : exn) (w : world)
| Go (u : str) (with_params : bool) (w : world).

(** How [download_chat] ends. *)
Inductive completion :=
| Normal
| Exception (e : exn).

(** The parameters of [download_chat]. *)
Record args := mk_args {
  the_chat : chat;
  max_messages : option Z;
  oldest_date : option date;
  ask_continue : Z;
  skip_downloaded : bool
}.

Definition SAVE_EVERY : Z := 250.
Definition GRAPH_URL : str := lit "https://graph.microsoft.com/v1.0/chats".
Definition MESSAGES_PATH : str := lit "messages".

Definition read_temp_file (w : world) : temp :=
  match temp_file w with
  | Some t => t
  | None => {| chat_progress := ∅; chat_list := [] |}
  end.

Definition emit (e : event) (w : world) : world :=
  {| temp_file := temp_file w; folder := folder w; stdin := stdin w;
     events := events w ++ [e] |}.

Definition print (p : printed) (w : world) : world := emit (EvPrint p) w.

Definition with_env (f : world -> world) (st : state) : state :=
  {| messages := messages st; num_requests := num_requests st;
     since_confirm := since_confirm st; tot_msg := tot_msg st;
     url := url st; params := params st; env := f (env st) |}.

Definition with_messages (ms : list message) (st : state) : state :=
  {| messages := ms; num_requests := num_requests st;
     since_confirm := since_confirm st; tot_msg := tot_msg st;
     url := url st; params := params st; env := env st |}.

(** [messages.append(m); tot_msg += 1] *)
Definition accept (m : message) (st : state) : state :=
  {| messages := messages st ++ [m]; num_requests := num_requests st;
     since_confirm := since_confirm st; tot_msg := (tot_msg st + 1)%Z;
     url := url st; params := params st; env := env st |}.

(** [input()]: the next line of standard input, [None] at its end. *)
Definition input (w : world) : option (str * world) :=
  match stdin w with
  | [] => None
  | line :: rest =>
      Some (line, {| temp_file := temp_file w; folder := folder w;
                     stdin := rest; events := events w |})
  end.

Section Download.
Context `{PythonLib}.

Definition load_date (iso : str) : option date :=
  let load (v : str) := datetime_fromisoformat v in
  let dt := load iso in
  let dt := match dt with None => load (remove_char 90%N iso) | Some _ => dt end in
  match dt with
  | None => let iso_date := before_first 84%N iso in date_fromisoformat iso_date
  | Some d => Some (dt_date d)
  end.

(** [input(...).strip().lower().startswith(c)] on a line read. *)
Definition answers (c : char) (line : str) : bool :=
  startswith c (lower (strip line)).

(** The environment with the chats folder replaced. *)
Definition with_folder (f : gmap str str) (w : world) : world :=
  {| temp_file := temp_file w; folder := f; stdin := stdin w; events := events w |}.

(** [save_msg] as a call: the call is recorded, the folder is as the call
    leaves it, and the exception is given back when the call raises. *)
Definition call_save_msg (batch : list message) (title : str) (w : world)
  : option exn * world :=
  match save_msg batch title (folder w) with
  | Saved f => (None, emit (EvSave batch title) (with_folder f w))
  | SaveRaised e f => (Some e, emit (EvSaveFailed batch title e) (with_folder f w))
  end.

Variable a : args.

Definition _update_temp_file (next : option str) (st : state) : state :=
  with_env (fun w =>
    let current := read_temp_file w in
    let entry' := {| next_url := next; num := num_requests st |} in
    let current' :=
      {| chat_progress := <[chat_id (the_chat a) := entry']> (chat_progress current);
         chat_list := chat_list current |} in
    emit (EvCheckpoint (chat_id (the_chat a)) next (num_requests st))
      {| temp_file := Some current'; folder := folder w; stdin := stdin w;
         events := events w |}) st.

(** The dictionary appended for a record; [None] when building it raises. *)
Definition to_message (r : raw_record) : option message :=
  match from_user_displayName r, body_content r, attachments r, createdDateTime r with
  | Some f, Some b, Some att, Some t =>
      Some {| msg_from := f; msg_body := b; msg_attachments := att; msg_time := t |}
  | _, _, _, _ => None
  end.

Definition build (r : raw_record) : verdict :=
  match to_message r with
  | Some m => Accepted m
  | None => Failed
  end.

(** The [try] block on one record.  [load_date] on a value that is not a
    string raises [TypeError], which the block catches like any other. *)
Definition try_record (r : raw_record) : verdict :=
  match messageType r with
  | None => Failed
  | Some ty =>
      if bool_decide (ty = PStr (lit "message")) then
        match oldest_date a with
        | None => build r
        | Some oldest =>
            match createdDateTime r with
            | Some (PStr iso) =>
                match load_date iso with
                | None => Failed
                | Some d => if date_gt oldest d then TooOld else build r
                end
            | _ => Failed
            end
        end
      else NotAMessage
  end.

(** [max_messages and tot_msg >= max_messages] *)
Definition max_reached (tot : Z) : bool :=
  match max_messages a with
  | None => false
  | Some n => negb (n =? 0)%Z && (n <=? tot)%Z
  end.

(** The [for] statement over the records of a page: [Some why] when it
    leaves [loop] through a [return], [None] when it runs to its end. *)
Fixpoint for_records (rs : list raw_record) (st : state) : option stop * state :=
  match rs with
  | [] => (None, st)
  | r :: rs' =>
      match try_record r with
      | NotAMessage => for_records rs' st
      | TooOld =>
          (Some StopOldest, with_env (print (PStopOldest (oldest_date a))) st)
      | Failed => for_records rs' (with_env (print (PErrorOn r)) st)
      | Accepted m =>
          let st' := accept m st in
          if max_reached (tot_msg st')
          then (Some StopMax, with_env (print (PStopMax (max_messages a))) st')
          else for_records rs' st'
      end
  end.

(** [if len(messages) > SAVE_EVERY: save_msg(...); messages.clear()].  When
    [save_msg] raises, the exception comes with the state it leaves, the
    buffer not cleared. *)
Definition flush_if_large (st : state) : option exn * state :=
  if (SAVE_EVERY <? Z.of_nat (length (messages st)))%Z
  then
    match call_save_msg (messages st) (chat_name (the_chat a)) (env st) with
    | (None, w) => (None, with_messages [] (with_env (fun _ => w) st))
    | (Some e, w) => (Some e, with_env (fun _ => w) st)
    end
  else (None, st).

(** The end of a turn: the counters move on and the next request is set. *)
Definition advance (u : str) (st : state) : state :=
  let w := print (PProgress (tot_msg st)) (env st) in
  {| messages := messages st; num_requests := (num_requests st + 1)%Z;
     since_confirm := (since_confirm st + 1)%Z; tot_msg := tot_msg st;
     url := u; params := false; env := w |}.

Definition reset_since_confirm (st : state) : state :=
  {| messages := messages st; num_requests := num_requests st;
     since_confirm := 0%Z; tot_msg := tot_msg st;
     url := url st; params := params st; env := env st |}.

(** The turn from the test [if not next_url] on, the checkpoint written. *)
Definition after_checkpoint (next : option str) (st : state) : step :=
  match next with
  | Some u =>
      if nonempty u then
        if (0 <? ask_continue a)%Z && (since_confirm st =? ask_continue a)%Z then
          let st1 :=
            with_env (print (PAskContinue (num_requests st) (tot_msg st))) st in
          match input (env st1) with
          | None => Done (Raised EOFError) st1
          | Some (line, w) =>
              let st2 := with_env (fun _ => w) st1 in
              if answers 110%N line then Done (Returned StopDeclined) st2
              else Next (advance u (reset_since_confirm st2))
          end
        else Next (advance u st)
      else Done (Returned StopComplete) (with_env (print PComplete) st)
  | None => Done (Returned StopComplete) (with_env (print PComplete) st)
  end.

(** One turn of [while True]. *)
Definition loop_body (res : response) (st : state) : step :=
  let st0 := with_env (emit (EvGet (url st) (params st))) st in
  match res with
  | NoResponse => Done (Raised OtherError) st0
  | Response code body =>
      if raise_for_status code then Done (Raised (HTTPError code)) st0
      else
        match body with
        | None => Done (Raised OtherError) st0
        | Some data =>
            match for_records (value data) st0 with
            | (Some why, st1) => Done (Returned why) st1
            | (None, st1) =>
                match flush_if_large st1 with
                | (Some e, st2) => Done (Raised e) st2
                | (None, st2) =>
                    let next := nextLink data in
                    let st3 := _update_temp_file next st2 in
                    after_checkpoint next st3
                end
            end
        end
  end.

(** [loop()] against the responses the server gives, one for each request
    in the order the requests are made (the request itself is recorded as an
    [EvGet]).  [None]: the responses ran out while the loop was still
    asking; that happens only when every response was a page with a next
    link. *)
Fixpoint loop (trace : list response) (st : state) : option (outcome * state) :=
  match trace with
  | [] => None
  | res :: trace' =>
      match loop_body res st with
      | Done o st' => Some (o, st')
      | Next st' => loop trace' st'
      end
  end.

(** [download_chat] from the call of [loop] to its end.  Only an
    [HTTPError] is caught; an exception of the last [save_msg] leaves
    [download_chat] like any other. *)
Definition run_loop (trace : list response) (st : state)
  : option (completion * world) :=
  match loop trace st with
  | None => None
  | Some (Raised (HTTPError code), st') =>
      if (code =? 403)%Z
      then Some (Normal, print (PCannotDownload (chat_name (the_chat a))) (env st'))
      else Some (Exception (HTTPError code), env st')
  | Some (Raised e, st') => Some (Exception e, env st')
  | Some (Returned _, st') =>
      let w := print (PDone (tot_msg st') (num_requests st')) (env st') in
      if nonempty (messages st')
      then
        match call_save_msg (messages st') (chat_name (the_chat a)) w with
        | (None, w') => Some (Normal, w')
        | (Some e, w') => Some (Exception e, w')
        end
      else Some (Normal, w)
  end.

Definition first_url : str :=
  GRAPH_URL ++ lit "/" ++ chat_id (the_chat a) ++ lit "/" ++ MESSAGES_PATH.

Definition resume (w : world) : start :=
  let temp := read_temp_file w in
  match chat_progress temp !! chat_id (the_chat a) with
  | None => Go first_url true w
  | Some existing =>
      let next := default [] (next_url existing) in
      if nonempty next then
        let w1 := print (PFoundPrevious (num existing)) w in
        let w2 := print (PPrompt (lit "Continue from it? Y/N")) w1 in
        match input w2 with
        | None => Fail EOFError w2
        | Some (line, w3) =>
            if answers 121%N line then Go next false w3 else Go first_url true w3
        end
      else if skip_downloaded a then Leave w
      else
        let w1 := print (PPrompt (lit "Chat already downloaded. Continue anyway? Y/N")) w in
        match input w1 with
        | None => Fail EOFError w1
        | Some (line, w2) =>
            if answers 110%N line then Leave w2 else Go first_url true w2
        end
  end.

Definition initial (u : str) (with_params : bool) (w : world) : state :=
  {| messages := []; num_requests := 1; since_confirm := 1; tot_msg := 0;
     url := u; params := with_params;
     env := print (PDownloading (chat_name (the_chat a))) w |}.

Definition download_chat (trace : list response) (w : world)
  : option (completion * world) :=
  match resume w with
  | Leave w' => Some (Normal, w')
  | Fail e w' => Some (Exception e, w')
  | Go u p w' => run_loop trace (initial u p w')
  end.

(** *** What the statements below speak of *)

(** The message the loop accepts for a record, if it accepts it. *)
Definition accepted (r : raw_record) : option message :=
  match try_record r with
  | Accepted m => Some m
  | _ => None
  end.

(** The records the server offers: those of each page answered without
    error, for as long as the pages carry a next link. *)
Fixpoint stream (trace : list response) : list raw_record :=
  match trace with
  | Response code (Some data) :: rest =>
      if raise_for_status code then []
      else value data
           ++ (if nonempty (default [] (nextLink data)) then stream rest else [])
  | _ => []
  end.

(** A response at which the loop ends whatever came before: anything but a
    page, answered without error, that carries a next link. *)
Definition last_response (res : response) : bool :=
  match res with
  | Response code (Some data) =>
      raise_for_status code || negb (nonempty (default [] (nextLink data)))
  | _ => true
  end.

(** The checkpoint of the chat in the temp file. *)
Definition checkpoint (w : world) : option progress :=
  match temp_file w with
  | Some t => chat_progress t !! chat_id (the_chat a)
  | None => None
  end.

End Download.

(** The batches handed to [save_msg] in calls that completed, in the order
    of the calls. *)
Fixpoint saved_batches (evs : list event) : list (list message) :=
  match evs with
  | [] => []
  | EvSave batch _ :: evs' => batch :: saved_batches evs'
  | _ :: evs' => saved_batches evs'
  end.

(** The messages handed to [save_msg] so far, in calls that completed. *)
Definition handed (w : world) : list message :=
  concat (saved_batches (events w)).

(** The messages accepted so far: handed over, or still in the buffer. *)
Definition collected (st : state) : list message :=
  handed (env st) ++ messages st.

(** What a part of the loop leaves alone: the counters of requests, the
    next request, the temp file, the folder and standard input. *)
Definition untouched (st st' : state) : Prop :=
  (num_requests st' = num_requests st)%Z
  /\ since_confirm st' = since_confirm st
  /\ url st' = url st
  /\ params st' = params st
  /\ temp_file (env st') = temp_file (env st)
  /\ folder (env st') = folder (env st)
  /\ stdin (env st') = stdin (env st)
  /\ handed (env st') = handed (env st).

(** The state a turn of the loop ends in. *)
Definition state_of (s : step) : state :=
  match s with
  | Next st => st
  | Done _ st => st
  end.

(** [a] is a day before [b]. *)
Definition date_lt (a b : date) : Prop :=
  (year a < year b
   \/ year a = year b
      /\ (month a < month b \/ month a = month b /\ day a < day b))%Z.

(** ** A Python runtime for ASCII text

    The functions of [PythonLib] on the ASCII letters and digits and on
    timestamps of the shapes [YYYY-MM-DD] and [YYYY-MM-DDTHH:MM:SS], where
    they agree with CPython; the examples below run on it. *)

Module Ascii_runtime.

Definition is_upper (c : char) : bool := ((65 <=? c) && (c <=? 90))%N.
Definition is_lower (c : char) : bool := ((97 <=? c) && (c <=? 122))%N.
Definition is_digit (c : char) : bool := ((48 <=? c) && (c <=? 57))%N.

Definition to_lower (s : str) : str :=
  map (fun c => if is_upper c then (c + 32)%N else c) s.

Fixpoint number (s : str) (acc : Z) : option Z :=
  match s with
  | [] => Some acc
  | c :: s' =>
      if is_digit c then number s' (10 * acc + (Z.of_N c - 48))%Z else None
  end.

(** Two numbers of fixed width with a separator between them and after. *)
Definition field (width : nat) (s : str) : option Z :=
  if (length s =? width)%nat then number s 0 else None.

Definition parse_date (s : str) : option date :=
  match field 4 (take 4 s), field 2 (take 2 (drop 5 s)), field 2 (drop 8 s) with
  | Some y, Some m, Some d =>
      if bool_decide (s !! 4%nat = Some 45%N) && bool_decide (s !! 7%nat = Some 45%N)
         && (1 <=? m)%Z && (m <=? 12)%Z && (1 <=? d)%Z && (d <=? 31)%Z
      then Some (mk_date y m d) else None
  | _, _, _ => None
  end.

Definition parse_time (s : str) : option Z :=
  match field 2 (take 2 s), field 2 (take 2 (drop 3 s)), field 2 (drop 6 s) with
  | Some h, Some m, Some sec =>
      if bool_decide (s !! 2%nat = Some 58%N) && bool_decide (s !! 5%nat = Some 58%N)
         && (h <? 24)%Z && (m <? 60)%Z && (sec <? 60)%Z
      then Some (((h * 60 + m) * 60 + sec) * 1000000)%Z else None
  | _, _, _ => None
  end.

Definition parse_datetime (s : str) : option datetime :=
  match parse_date (take 10 s), parse_time (drop 11 s) with
  | Some d, Some t =>
      if bool_decide (s !! 10%nat = Some 84%N) then Some (mk_datetime d t) else None
  | _, _ => None
  end.

#[export] Instance ascii_lib : PythonLib := {|
  isalpha c := is_upper c || is_lower c;
  isdigit := is_digit;
  lower := to_lower;
  datetime_fromisoformat := parse_datetime;
  date_fromisoformat := parse_date
|}.

End Ascii_runtime.
Import Ascii_runtime.

(** ** Sample data for the examples *)

Module Samples.

(** A message as [loop] builds it from a record whose four values are
    strings and a list. *)
Definition text_message (sender body time : string) (atts : list str) : message :=
  {| msg_from := PStr (lit sender); msg_body := PStr (lit body);
     msg_attachments := PList atts; msg_time := PStr (lit time) |}.

Definition alice_first : message :=
  text_message "alice" "first" "2023-05-02T10:00:00Z" [].

Definition bob_second : message :=
  text_message "bob" "second" "2023-05-01T09:00:00Z" [].

Definition title_T : str := lit "Team: Q&A!".

(** Two flushes onto a folder that starts empty. *)
Definition one_flush : gmap str str :=
  folder_after (save_msg [alice_first] title_T ∅).

Definition two_flushes : gmap str str :=
  folder_after (save_msg [bob_second] title_T one_flush).

Definition carol_old : message :=
  text_message "carol" "third" "2023-04-30T23:59:59Z" [].

Definition three_flushes : gmap str str :=
  folder_after (save_msg [carol_old] title_T two_flushes).

(** A message [save_msg] passes over: no text and no attachment. *)
Definition dave_blank : message :=
  text_message "dave" " " "2023-05-02T11:00:00Z" [].

(** A message whose body is the JSON null. *)
Definition erin_null : message :=
  {| msg_from := PStr (lit "erin"); msg_body := PNone;
     msg_attachments := PList []; msg_time := PStr (lit "2023-05-02T12:30:00Z") |}.

(** A message whose body holds half of a surrogate pair, as the JSON escape
    [\ud83d] on its own decodes. *)
Definition ivy_half : message :=
  {| msg_from := PStr (lit "ivy"); msg_body := PStr (lit "hi " ++ [55357%N]);
     msg_attachments := PList []; msg_time := PStr (lit "2023-05-02T13:00:00Z") |}.

(** A message whose body has a carriage return between two words. *)
Definition judy_cr : message :=
  {| msg_from := PStr (lit "judy"); msg_body := PStr (lit "one" ++ [cr] ++ lit "two");
     msg_attachments := PList []; msg_time := PStr (lit "2023-05-02T14:00:00Z") |}.

(** The folder after judy's message was flushed onto an empty one. *)
Definition judy_flushed : gmap str str :=
  folder_after (save_msg [judy_cr] title_T ∅).

(** The folder after a flush under another name with the same letters. *)
Definition shared_flush : gmap str str :=
  folder_after (save_msg [bob_second] (lit "Team QA?") one_flush).

(** The record of type [message] that carries these four values. *)
Definition record_of (m : message) : raw_record :=
  {| messageType := Some (PStr (lit "message"));
     createdDateTime := Some (msg_time m);
     from_user_displayName := Some (msg_from m);
     body_content := Some (msg_body m);
     attachments := Some (msg_attachments m) |}.

Definition next_page : str :=
  lit "https://graph.microsoft.com/v1.0/chats/19:team/messages?$skiptoken=2".

(** A page with two messages and a link to the next page. *)
Definition page_one : page :=
  {| value := [record_of alice_first; record_of bob_second];
     nextLink := Some next_page |}.

(** The last page: one message, no next link. *)
Definition page_two : page :=
  {| value := [record_of carol_old]; nextLink := None |}.

Definition page_blank : page :=
  {| value := [record_of dave_blank]; nextLink := Some next_page |}.

(** A last page whose only message has a null body. *)
Definition page_null : page :=
  {| value := [record_of erin_null]; nextLink := None |}.

Definition chat_T : chat := {| chat_id := lit "19:team"; chat_name := title_T |}.

(** A first run: no temp file, an empty chats folder, nothing typed. *)
Definition fresh : world :=
  {| temp_file := None; folder := ∅; stdin := []; events := [] |}.

(** The arguments of a bulk run ([--download-all]) with the given limits. *)
Definition bulk (limit : option Z) (oldest : option date) : args :=
  {| the_chat := chat_T; max_messages := limit; oldest_date := oldest;
     ask_continue := -1; skip_downloaded := true |}.

(** The server answers the two pages, one after the other. *)
Definition two_pages : list response :=
  [Response 200 (Some page_one); Response 200 (Some page_two)].

(** The state in which [download_chat] calls [loop] on a first run. *)
Definition first_call (a : args) : state := initial a (first_url a) true fresh.

Definition may_first : date := mk_date 2023 5 1.
Definition may_second : date := mk_date 2023 5 2.

(** A first run with [n] typed at the console. *)
Definition refusing : world :=
  {| temp_file := None; folder := ∅; stdin := [lit "n"]; events := [] |}.

(** An interactive run that asks after every request. *)
Definition asking (limit : option Z) : args :=
  {| the_chat := chat_T; max_messages := limit; oldest_date := None;
     ask_continue := 1; skip_downloaded := false |}.

(** A record of type [message] with no sender: [msg["from"]] is null. *)
Definition nameless : raw_record :=
  {| messageType := Some (PStr (lit "message"));
     createdDateTime := Some (PStr (lit "2023-05-02T12:00:00Z"));
     from_user_displayName := None;
     body_content := Some (PStr (lit "joined the chat"));
     attachments := Some (PList []) |}.

(** A record of type [message] with no sender, dated before May. *)
Definition nameless_old : raw_record :=
  {| messageType := Some (PStr (lit "message"));
     createdDateTime := Some (PStr (lit "2023-04-30T08:00:00Z"));
     from_user_displayName := None;
     body_content := None;
     attachments := Some (PList []) |}.

Definition page_nameless : page :=
  {| value := [nameless]; nextLink := None |}.

(** A record that is not of type [message]. *)
Definition member_added : raw_record :=
  {| messageType := Some (PStr (lit "systemEventMessage"));
     createdDateTime := Some (PStr (lit "2023-05-02T08:00:00Z"));
     from_user_displayName := None;
     body_content := Some (PStr (lit "<systemEventMessage/>"));
     attachments := Some (PList []) |}.

Definition chat_U : chat :=
  {| chat_id := lit "19:other"; chat_name := lit "Budget 2023" |}.

Definition chat_V : chat :=
  {| chat_id := lit "19:third"; chat_name := lit "Lunch" |}.

(** A temp file that holds the progress of another chat and a chat list. *)
Definition with_history : world :=
  {| temp_file :=
       Some {| chat_progress :=
                 {[ chat_id chat_U := {| next_url := None; num := 4%Z |} ]};
               chat_list := [chat_T; chat_U] |};
     folder := {[ _to_filename (chat_name chat_U) := lit "## Budget 2023" ]};
     stdin := [];
     events := [] |}.

(** A run interrupted at the gate left this behind; [y] is typed now. *)
Definition interrupted : world :=
  {| temp_file :=
       Some {| chat_progress :=
                 {[ chat_id chat_T := {| next_url := Some next_page; num := 1%Z |} ]};
               chat_list := [] |};
     folder := ∅;
     stdin := [lit " Yes"];
     events := [] |}.

End Samples.

(** ** The chat list: [find_chat] and the [--download-all] branch of [main] *)

(** [s.startswith(p)] for a text [p]. *)
Fixpoint starts_with (p s : str) : bool :=
  match p, s with
  | [], _ => true
  | _ :: _, [] => false
  | c :: p', d :: s' => (c =? d)%N && starts_with p' s'
  end.

(** [needle in hay] on texts: [needle] occurs somewhere in [hay]. *)
Fixpoint contains (needle hay : str) : bool :=
  starts_with needle hay
  || match hay with
     | [] => false
     | _ :: hay' => contains needle hay'
     end.

Section Listing.
Context `{PythonLib}.

(** The test of [find_chat] on one chat. *)
Definition name_matches (name : str) (c : chat) : bool :=
  contains (lower (strip name)) (lower (chat_name c)).

Fixpoint find_chat (chats : list chat) (name : str) : option chat :=
  match chats with
  | [] => None
  | c :: rest => if name_matches name c then Some c else find_chat rest name
  end.

(** The arguments [main] gives [download_chat] under [--download-all]. *)
Definition all_args (max_msg : option Z) (oldest : option date) (c : chat)
  : args :=
  {| the_chat := c; max_messages := max_msg; oldest_date := oldest;
     ask_continue := -1; skip_downloaded := true |}.

(** The [--download-all] branch of [main]: [download_chat] on every chat in
    turn, each against the responses the server gives during its download,
    a rule printed after each, then [bye] and [sys.exit()].  An exception of
    a [download_chat] ends the run there.  The two fixed texts printed are
    recorded as [PPrompt], the constructor for a text written as it is. *)
Fixpoint download_all (max_msg : option Z) (oldest : option date)
    (chats : list (chat * list response)) (w : world)
  : option (completion * world) :=
  match chats with
  | [] => Some (Normal, print (PPrompt (lit "bye")) w)
  | (c, trace) :: rest =>
      match download_chat (all_args max_msg oldest c) trace w with
      | None => None
      | Some (Exception e, w') => Some (Exception e, w')
      | Some (Normal, w') =>
          download_all max_msg oldest rest (print (PPrompt (lit "----")) w')
      end
  end.

End Listing.

(** *** What the further statements speak of *)

(** The number of requests among the effects. *)
Fixpoint gets (evs : list event) : Z :=
  match evs with
  | [] => 0
  | EvGet _ _ :: evs' => (1 + gets evs')%Z
  | _ :: evs' => gets evs'
  end.

(** The server answers every request with a page, without error, up to a
    page that has no next link. *)
Fixpoint served (trace : list response) : bool :=
  match trace with
  | Response code (Some data) :: rest =>
      negb (raise_for_status code)
      && (if nonempty (default [] (nextLink data)) then served rest else true)
  | _ => false
  end.

(** A link that [if not next_url] takes for no link. *)
Definition no_link (next : option str) : bool :=
  negb (nonempty (default [] next)).

(** The folder [f'] is [f] with, at most, text put in front of the archive
    of [title]: every other file is as it was. *)
Definition only_prepended (title : str) `{PythonLib} (f f' : gmap str str) : Prop :=
  (forall g, g <> _to_filename title -> f' !! g = f !! g)
  /\ grown (archive title f) (archive title f').

(** The temp file of [w'] agrees with that of [w] on the chat list and on
    the progress of every chat but [id]. *)
Definition other_progress_kept (id : str) (w w' : world) : Prop :=
  chat_list (read_temp_file w') = chat_list (read_temp_file w)
  /\ forall id', id' <> id ->
       chat_progress (read_temp_file w') !! id'
       = chat_progress (read_temp_file w) !! id'.

(** [since_confirm] is in step with [num_requests] for a gate every [n]
    requests: it is the number of requests since the last multiple of [n],
    counting from 1 to [n]. *)
Definition in_step (n : Z) (st : state) : Prop :=
  (1 <= since_confirm st <= n
   /\ (num_requests st - since_confirm st) mod n = 0)%Z.

(** The environment the first part of [download_chat] leaves. *)
Definition world_of (s : start) : world :=
  match s with
  | Leave w => w
  | Fail _ w => w
  | Go _ _ w => w
  end.

(** The records of the pages the loop reads among these responses: the
    bodies of the responses answered without an error status. *)
Fixpoint records_of (trace : list response) : list raw_record :=
  match trace with
  | [] => []
  | Response code (Some data) :: rest =>
      (if raise_for_status code then [] else value data) ++ records_of rest
  | _ :: rest => records_of rest
  end.

(** The responses to the requests made between the effects [before] and the
    effects [after]: as many of [trace], from its start, as there were
    requests. *)
Definition received (trace : list response) (before after : list event)
  : list response :=
  take (Z.to_nat (gets after - gets before)) trace.

(** The message is dated, and not before the day [cutoff]. *)
Definition not_before `{PythonLib} (cutoff : date) (m : message) : Prop :=
  exists iso d,
    msg_time m = PStr iso /\ load_date iso = Some d /\ date_gt cutoff d = false.

(** * Properties *)

(** ** Text *)

Lemma lstrip_split (s : str) :
  exists ws, s = ws ++ lstrip s /\ forallb isspace ws = true.
Proof.
  induction s as [|c s [ws [Hs Hws]]]; simpl.
  - exists []. split; reflexivity.
  - destruct (isspace c) eqn:Hc.
    + exists (c :: ws). simpl. rewrite Hc, Hws. split; [congruence | reflexivity].
    + exists []. split; reflexivity.
Qed.

Lemma lstrip_head (s : str) (c : char) :
  head (lstrip s) = Some c -> isspace c = false.
Proof.
  induction s as [|d s IH]; simpl; [discriminate|].
  destruct (isspace d) eqn:Hd; [exact IH|].
  simpl. intros [= <-]. exact Hd.
Qed.

Lemma last_rev {A} (l : list A) : last (rev l) = head l.
Proof. destruct l as [|a l]; [reflexivity|]. simpl. apply last_snoc. Qed.

Lemma forallb_rev {A} (f : A -> bool) (l : list A) :
  forallb f (rev l) = forallb f l.
Proof.
  induction l as [|a l IH]; [reflexivity|].
  simpl. rewrite forallb_app, IH. simpl. rewrite andb_true_r. apply andb_comm.
Qed.

(** [rstrip] removes a run of whitespace at the end, and all of it. *)
Lemma rstrip_split (s : str) :
  exists ws, s = rstrip s ++ ws /\ forallb isspace ws = true.
Proof.
  destruct (lstrip_split (rev s)) as [ws [Hs Hws]].
  exists (rev ws). split.
  - unfold rstrip. rewrite <- rev_app_distr, <- Hs. symmetry. apply rev_involutive.
  - rewrite forallb_rev. exact Hws.
Qed.

Lemma rstrip_last (s : str) (c : char) :
  last (rstrip s) = Some c -> isspace c = false.
Proof. unfold rstrip. rewrite last_rev. apply lstrip_head. Qed.

Lemma rstrip_nil : rstrip [] = [].
Proof. reflexivity. Qed.

Lemma before_first_app (c : char) (s t : str) :
  ~ In c s -> before_first c (s ++ c :: t) = s.
Proof.
  induction s as [|d s IH]; simpl; intros Hin.
  - rewrite N.eqb_refl. reflexivity.
  - destruct (N.eqb_spec d c) as [->|_]; [tauto|].
    f_equal. apply IH. tauto.
Qed.

Lemma join_cons (sep p : str) (rest : list str) :
  rest <> [] -> join sep (p :: rest) = p ++ sep ++ join sep rest.
Proof. destruct rest; [congruence | reflexivity]. Qed.

(** *** Line ends on reading *)

Lemma str_pair_ind (P : str -> Prop) :
  P [] -> (forall c, P [c]) ->
  (forall c d s, P s -> P (d :: s) -> P (c :: d :: s)) ->
  forall s, P s.
Proof.
  intros Hnil Hone Hstep s.
  assert (Hboth : P s /\ forall c, P (c :: s)).
  { induction s as [|d s [IH1 IH2]].
    - split; [exact Hnil | exact Hone].
    - split; [apply IH2|]. intros c. apply Hstep; [exact IH1 | apply IH2]. }
  exact (proj1 Hboth).
Qed.

Lemma universal_newlines_cons (c : char) (s : str) :
  c <> cr -> universal_newlines (c :: s) = c :: universal_newlines s.
Proof.
  intros Hc. simpl. destruct (N.eqb_spec c cr); [contradiction | reflexivity].
Qed.

Lemma universal_newlines_crlf (s : str) :
  universal_newlines (cr :: nl :: s) = nl :: universal_newlines s.
Proof. reflexivity. Qed.

Lemma universal_newlines_cr (d : char) (s : str) :
  d <> nl -> universal_newlines (cr :: d :: s) = nl :: universal_newlines (d :: s).
Proof.
  intros Hd. cbn [universal_newlines]. change (cr =? cr)%N with true. cbv iota.
  destruct (N.eqb_spec d nl); [contradiction | reflexivity].
Qed.

(** A text without carriage return reads as it is stored. *)
Lemma universal_newlines_id (s : str) :
  ~ In cr s -> universal_newlines s = s.
Proof.
  induction s as [|c s IH]; [reflexivity|].
  intros Hin. rewrite universal_newlines_cons by (intros ->; apply Hin; left; reflexivity).
  f_equal. apply IH. intros Hs. apply Hin. right. exact Hs.
Qed.

(** No carriage return is left in a text read. *)
Lemma universal_newlines_no_cr (s : str) : ~ In cr (universal_newlines s).
Proof.
  induction s as [| c | c d s IH1 IH2] using str_pair_ind.
  - simpl. tauto.
  - simpl. destruct (N.eqb_spec c cr) as [->|Hc]; simpl; [intuition discriminate|].
    intros [Heq|[]]. congruence.
  - destruct (N.eqb_spec c cr) as [->|Hc].
    + destruct (N.eqb_spec d nl) as [->|Hd].
      * rewrite universal_newlines_crlf. intros [Heq|Hin]; [discriminate | tauto].
      * rewrite universal_newlines_cr by exact Hd.
        intros [Heq|Hin]; [discriminate | tauto].
    + rewrite universal_newlines_cons by exact Hc.
      intros [Heq|Hin]; [congruence | tauto].
Qed.

(** Reading what was read changes nothing more. *)
Lemma universal_newlines_idem (s : str) :
  universal_newlines (universal_newlines s) = universal_newlines s.
Proof. apply universal_newlines_id, universal_newlines_no_cr. Qed.

Lemma universal_newlines_nonempty (s : str) :
  nonempty (universal_newlines s) = nonempty s.
Proof.
  destruct s as [|c s]; [reflexivity|].
  simpl. destruct (c =? cr)%N; reflexivity.
Qed.

Lemma universal_newlines_nil (s : str) :
  universal_newlines s = [] -> s = [].
Proof.
  intros Hs. pose proof (universal_newlines_nonempty s) as Hne.
  rewrite Hs in Hne. destruct s; [reflexivity | discriminate].
Qed.

(** Reading goes part by part, unless the first part ends in the carriage
    return of a line end that the second part completes. *)
Lemma universal_newlines_app (s t : str) :
  last s <> Some cr ->
  universal_newlines (s ++ t) = universal_newlines s ++ universal_newlines t.
Proof.
  induction s as [| c | c d s IH1 IH2] using str_pair_ind; intros Hlast.
  - reflexivity.
  - assert (Hc : c <> cr) by (intros ->; apply Hlast; reflexivity).
    change ([c] ++ t) with (c :: t).
    rewrite (universal_newlines_cons c t Hc), (universal_newlines_cons c [] Hc).
    reflexivity.
  - assert (Hlast' : last (d :: s) <> Some cr) by exact Hlast.
    assert (Hlast'' : d = nl -> last s <> Some cr).
    { intros -> Hs. destruct s as [|e s]; [discriminate|]. apply Hlast. exact Hs. }
    change ((c :: d :: s) ++ t) with (c :: d :: (s ++ t)).
    destruct (N.eqb_spec c cr) as [->|Hc].
    + destruct (N.eqb_spec d nl) as [->|Hd].
      * rewrite !universal_newlines_crlf.
        apply (f_equal (cons _)), IH1, Hlast''. reflexivity.
      * rewrite (universal_newlines_cr d (s ++ t) Hd), (universal_newlines_cr d s Hd).
        apply (f_equal (cons _)). exact (IH2 Hlast').
    + rewrite (universal_newlines_cons c (d :: s ++ t) Hc),
        (universal_newlines_cons c (d :: s) Hc).
      apply (f_equal (cons _)). exact (IH2 Hlast').
Qed.

Lemma ends_with_not_cr (s : str) : ends_with nl s -> last s <> Some cr.
Proof. unfold ends_with. intros ->. discriminate. Qed.

Lemma ends_with_app (c : char) (s t : str) :
  ends_with c t -> ends_with c (s ++ t).
Proof.
  unfold ends_with. intros Ht. destruct t as [|d t] using rev_ind.
  - discriminate.
  - rewrite app_assoc, last_snoc. rewrite last_snoc in Ht. exact Ht.
Qed.

(** A text that ends a line still does when read. *)
Lemma universal_newlines_ends (s : str) :
  ends_with nl s -> ends_with nl (universal_newlines s).
Proof.
  unfold ends_with.
  induction s as [| c | c d s IH1 IH2] using str_pair_ind; intros Hlast.
  - discriminate.
  - injection Hlast as ->. reflexivity.
  - assert (Hds : last (d :: s) = Some nl) by exact Hlast.
    destruct (N.eqb_spec c cr) as [->|Hc].
    + destruct (N.eqb_spec d nl) as [->|Hd].
      * rewrite universal_newlines_crlf.
        destruct s as [|e s]; [reflexivity|].
        assert (Hs : last (e :: s) = Some nl) by exact Hlast.
        specialize (IH1 Hs).
        destruct (universal_newlines (e :: s)) eqn:Hu; [discriminate | exact IH1].
      * rewrite universal_newlines_cr by exact Hd.
        specialize (IH2 Hds).
        destruct (universal_newlines (d :: s)) eqn:Hu; [discriminate | exact IH2].
    + rewrite universal_newlines_cons by exact Hc.
      specialize (IH2 Hds).
      destruct (universal_newlines (d :: s)) eqn:Hu; [discriminate | exact IH2].
Qed.

(** *** Encoding *)

Lemma encodable_app (s t : str) :
  encodable (s ++ t) = encodable s && encodable t.
Proof. apply forallb_app. Qed.

Lemma encodable_universal_newlines (s : str) :
  encodable s = true -> encodable (universal_newlines s) = true.
Proof.
  unfold encodable.
  induction s as [| c | c d s IH1 IH2] using str_pair_ind; intros Hs.
  - reflexivity.
  - simpl. destruct (c =? cr)%N; [reflexivity | exact Hs].
  - assert (Hc : negb (is_surrogate c) = true /\
                 forallb (fun c => negb (is_surrogate c)) (d :: s) = true).
    { apply andb_prop. exact Hs. }
    destruct Hc as [Hc Hds].
    assert (Hd : forallb (fun c => negb (is_surrogate c)) s = true).
    { simpl in Hds. apply andb_prop in Hds. tauto. }
    destruct (N.eqb_spec c cr) as [->|Hcr].
    + destruct (N.eqb_spec d nl) as [->|Hd'].
      * rewrite universal_newlines_crlf. simpl. apply IH1, Hd.
      * rewrite universal_newlines_cr by exact Hd'. simpl. apply IH2, Hds.
    + rewrite universal_newlines_cons by exact Hcr.
      simpl. rewrite Hc. apply IH2, Hds.
Qed.

(** Lines joined by blank lines can be encoded exactly when each can. *)
Lemma encodable_join (parts : list str) :
  encodable (join [nl; nl] parts) = forallb encodable parts.
Proof.
  induction parts as [|p rest IH]; [reflexivity|].
  destruct rest as [|q rest].
  - simpl. symmetry. apply andb_true_r.
  - rewrite join_cons by discriminate.
    rewrite !encodable_app, IH. reflexivity.
Qed.

Lemma encodable_lit_heading : encodable (lit "## ") = true.
Proof. reflexivity. Qed.

(** ** The archive writer *)

Section Writer_facts.
Context `{PythonLib}.

Lemma skipped_text_body (m : message) : skipped m = true -> has_text_body m = true.
Proof. unfold skipped, has_text_body. destruct (msg_body m); congruence. Qed.

(** The [for] statement of [save_msg] raises exactly when one of the
    messages has a body that is not a string; otherwise it appends the
    entries of the messages it does not pass over, in the order it visits
    them. *)
Lemma append_entries_filter (msgs : list message) (lines : list str) :
  append_entries msgs lines =
    if forallb has_text_body msgs
    then Some (lines ++ map entry (List.filter (fun m => negb (skipped m)) msgs))
    else None.
Proof.
  revert lines. induction msgs as [|m msgs IH]; intros lines; simpl.
  - rewrite app_nil_r. reflexivity.
  - unfold has_text_body at 1, skipped at 1.
    destruct (msg_body m) as [|body| |]; simpl; try reflexivity.
    destruct (negb (nonempty (strip body)) && negb (truthy (msg_attachments m)));
      simpl; rewrite IH; destruct (forallb has_text_body msgs); try reflexivity.
    rewrite <- app_assoc. reflexivity.
Qed.

Lemma filter_rev {A} (f : A -> bool) (l : list A) :
  List.filter f (rev l) = rev (List.filter f l).
Proof.
  induction l as [|a l IH]; [reflexivity|].
  simpl. rewrite List.filter_app, IH. simpl.
  destruct (f a); simpl; [reflexivity | apply app_nil_r].
Qed.

Lemma save_msg_lines_reversed (messages : list message) (title existing : str) :
  save_msg_lines messages title existing =
    if forallb has_text_body messages
    then Some ((if nonempty existing then [] else [heading title])
               ++ rev (map entry (List.filter (fun m => negb (skipped m)) messages)))
    else None.
Proof.
  unfold save_msg_lines.
  rewrite append_entries_filter, forallb_rev, filter_rev, map_rev.
  reflexivity.
Qed.

(** [save_msg] case by case, on the text [old] stored in the archive. *)
Lemma save_msg_cases (messages : list message) (title : str)
    (folder : gmap str str) :
  let f := _to_filename title in
  let old := archive title folder in
  let content :=
    join [nl; nl] ((if nonempty old then [] else [heading title])
                   ++ entries_of messages) in
  save_msg messages title folder =
    if forallb has_text_body messages then
      if encodable content then
        if encodable (universal_newlines old)
        then Saved (<[f := flushed title old messages]> folder)
        else SaveRaised UnicodeEncodeError (<[f := content ++ [nl; nl]]> folder)
      else SaveRaised UnicodeEncodeError (<[f := []]> folder)
    else SaveRaised AttributeError folder.
Proof.
  intros f old content. unfold save_msg.
  rewrite save_msg_lines_reversed, universal_newlines_nonempty.
  fold f. fold (archive title folder). fold old.
  destruct (forallb has_text_body messages); reflexivity.
Qed.

(** A call that completes: the messages could all be written, and the
    archive holds the text of a completed flush. *)
Lemma save_msg_saved (messages : list message) (title : str)
    (folder folder' : gmap str str) :
  save_msg messages title folder = Saved folder' ->
  folder' = <[_to_filename title := flushed title (archive title folder) messages]> folder
  /\ forallb has_text_body messages = true
  /\ encodable (flushed title (archive title folder) messages) = true.
Proof.
  rewrite save_msg_cases.
  destruct (forallb has_text_body messages); [|discriminate].
  destruct (encodable (join _ _)) eqn:Hcontent; [|discriminate].
  destruct (encodable (universal_newlines _)) eqn:Hold; [|discriminate].
  intros [= <-]. split; [reflexivity|]. split; [reflexivity|].
  unfold flushed. rewrite !encodable_app, Hcontent, Hold. reflexivity.
Qed.

(** A call that raises: with [AttributeError] before the file is opened,
    with [UnicodeEncodeError] after, the file holding less than the text
    meant for it. *)
Lemma save_msg_raised (messages : list message) (title : str)
    (folder folder' : gmap str str) (e : exn) :
  save_msg messages title folder = SaveRaised e folder' ->
  (e = AttributeError /\ folder' = folder
   /\ forallb has_text_body messages = false)
  \/ (e = UnicodeEncodeError
      /\ exists text, folder' = <[_to_filename title := text]> folder).
Proof.
  rewrite save_msg_cases.
  destruct (forallb has_text_body messages).
  - destruct (encodable (join _ _)).
    + destruct (encodable (universal_newlines _)); [discriminate|].
      intros [= <- <-]. right. split; [reflexivity|]. eexists. reflexivity.
    + intros [= <- <-]. right. split; [reflexivity|]. eexists. reflexivity.
  - intros [= <- <-]. left. repeat split.
Qed.

(** When [save_msg] completes: every body is a string, and the new lines
    and the text read can be encoded. *)
Lemma save_msg_completes (messages : list message) (title : str)
    (folder : gmap str str) :
  forallb writable messages = true ->
  encodable (archive title folder) = true ->
  (archive title folder = [] -> encodable title = true) ->
  save_msg messages title folder
    = Saved (<[_to_filename title := flushed title (archive title folder) messages]> folder).
Proof.
  intros Hall Hold Htitle. rewrite save_msg_cases.
  assert (Hbodies : forallb has_text_body messages = true).
  { clear -Hall. induction messages as [|m ms IH]; [reflexivity|].
    simpl in *. unfold writable in Hall at 1.
    apply andb_prop in Hall as [Hm Hms]. apply andb_prop in Hm as [Hm _].
    rewrite Hm. apply IH, Hms. }
  assert (Hentries : forallb encodable (entries_of messages) = true).
  { clear -Hall. unfold entries_of. rewrite forallb_rev.
    induction messages as [|m ms IH]; [reflexivity|].
    simpl in *. unfold writable in Hall at 1.
    apply andb_prop in Hall as [Hm Hms]. apply andb_prop in Hm as [_ Hm].
    destruct (skipped m); simpl; [apply IH, Hms|].
    simpl in Hm. rewrite Hm. apply IH, Hms. }
  rewrite Hbodies, encodable_join, forallb_app, Hentries, andb_true_r.
  rewrite (encodable_universal_newlines _ Hold).
  destruct (archive title folder) as [|c old] eqn:Hfile; simpl nonempty; cbv iota.
  - simpl forallb. rewrite Htitle by reflexivity. reflexivity.
  - reflexivity.
Qed.

Lemma save_msg_other (messages : list message) (title : str)
    (folder : gmap str str) (g : str) :
  g <> _to_filename title ->
  folder_after (save_msg messages title folder) !! g = folder !! g.
Proof.
  intros Hg. rewrite save_msg_cases.
  destruct (forallb has_text_body messages); [|reflexivity].
  destruct (encodable (join _ _)); [destruct (encodable (universal_newlines _))|];
    simpl; apply lookup_insert_ne; congruence.
Qed.

Lemma archive_insert (title text : str) (folder : gmap str str) :
  archive title (<[_to_filename title := text]> folder) = text.
Proof. unfold archive. rewrite lookup_insert_eq. reflexivity. Qed.

(** The archive after a call that completes. *)
Lemma archive_saved (messages : list message) (title : str)
    (folder folder' : gmap str str) :
  save_msg messages title folder = Saved folder' ->
  archive title folder' = flushed title (archive title folder) messages.
Proof.
  intros Hsave. apply save_msg_saved in Hsave as [-> _]. apply archive_insert.
Qed.

(** C2, as amended: the entries of a batch are written in the REVERSE of the
    order of the input sequence ([save_msg] iterates over
    [reversed(messages)]): the new lines are the title heading, when the file
    was empty or absent, followed by the entries of the messages that are not
    skipped, last message first (there are no lines at all when a body is
    not a string: the statement raises there); the text a call that
    completes writes is these lines joined by blank lines, a blank line, and
    the previous text as read. *)
Theorem save_msg_writes_batch_reversed (messages : list message)
    (title : str) (folder : gmap str str) :
  let f := _to_filename title in
  let existing := universal_newlines (default [] (folder !! f)) in
  let kept := List.filter (fun m => negb (skipped m)) messages in
  let lines := (if nonempty existing then [] else [heading title]) ++ rev (map entry kept) in
  save_msg_lines messages title existing =
    (if forallb has_text_body messages then Some lines else None)
  /\ forall folder',
       save_msg messages title folder = Saved folder' ->
       folder' !! f = Some (join [nl; nl] lines ++ [nl; nl] ++ existing).
Proof.
  intros f existing kept lines. split.
  - apply save_msg_lines_reversed.
  - intros folder' Hsave. apply save_msg_saved in Hsave as [-> _].
    rewrite lookup_insert_eq. unfold flushed, lines, existing, kept, f, archive.
    rewrite universal_newlines_nonempty. reflexivity.
Qed.

End Writer_facts.

Section Writer_claims.
Import Samples.

(** C2, the claim as stated fails: for the batch [alice_first; bob_second]
    the block written has bob's entry before alice's, not the input order. *)
Lemma save_msg_input_order_fails :
  save_msg_lines [alice_first; bob_second] title_T []
    = Some [heading title_T; entry bob_second; entry alice_first]
  /\ save_msg_lines [alice_first; bob_second] title_T []
    <> Some (heading title_T
             :: map entry (List.filter (fun m => negb (skipped m))
                             [alice_first; bob_second])).
Proof. split; [reflexivity | discriminate]. Qed.

(** C3, the claim as stated fails: after a second flush the first line of
    the file is the header of the entry just written; the title heading is
    further down, below that entry. *)
Lemma title_not_first_after_second_flush :
  save_msg [alice_first] title_T ∅ = Saved one_flush
  /\ save_msg [bob_second] title_T one_flush = Saved two_flushes
  /\ first_line (archive title_T two_flushes) = lit "##### bob - 2023-05-01T09:00:00Z"
  /\ first_line (archive title_T two_flushes) <> heading title_T
  /\ archive title_T two_flushes =
       entry bob_second ++ [nl; nl] ++ heading title_T ++ [nl; nl]
       ++ entry alice_first ++ [nl; nl].
Proof.
  split; [|split; [|split; [|split]]];
    [vm_compute; reflexivity | vm_compute; reflexivity | vm_compute; reflexivity
    | vm_compute; discriminate | vm_compute; reflexivity].
Qed.

(** C4, the claim as stated fails.  The archive holds judy's message, whose
    body has a carriage return; a flush of bob's message completes, and the
    end of the new text is not the previous text: the carriage return has
    become a line feed.  And onto the archive that holds alice's message a
    flush of ivy's message, whose body cannot be encoded, raises after the
    file was opened for writing: the file is left empty. *)
Lemma save_msg_changes_the_previous_text :
  (exists folder',
     save_msg [bob_second] title_T judy_flushed = Saved folder'
     /\ archive title_T folder'
        = entry bob_second ++ [nl; nl] ++ universal_newlines (archive title_T judy_flushed)
     /\ universal_newlines (archive title_T judy_flushed) <> archive title_T judy_flushed
     /\ drop (length (archive title_T folder') - length (archive title_T judy_flushed))
          (archive title_T folder')
        <> archive title_T judy_flushed)
  /\ (exists folder',
        save_msg [ivy_half] title_T one_flush = SaveRaised UnicodeEncodeError folder'
        /\ archive title_T one_flush <> []
        /\ folder' !! _to_filename title_T = Some []).
Proof.
  split.
  - eexists. split; [vm_compute; reflexivity|].
    split; [vm_compute; reflexivity|].
    split; vm_compute; discriminate.
  - eexists. split; [vm_compute; reflexivity|].
    split; [vm_compute; discriminate | vm_compute; reflexivity].
Qed.

End Writer_claims.

Section Writer_layout.
Context `{PythonLib}.

Lemma join_heading_first (title : str) (entries : list str) :
  exists rest, join [nl; nl] (heading title :: entries) ++ [nl; nl]
               = heading title ++ nl :: rest.
Proof.
  destruct entries as [|e entries].
  - exists [nl]. reflexivity.
  - exists (nl :: join [nl; nl] (e :: entries) ++ [nl; nl]).
    rewrite join_cons by discriminate.
    rewrite <- !app_assoc. reflexivity.
Qed.

Lemma heading_no_char (c : char) (title : str) :
  c = nl \/ c = cr -> ~ In c title -> ~ In c (heading title).
Proof.
  intros Hc Ht Hin. unfold heading in Hin. apply in_app_or in Hin.
  destruct Hin as [Hin|Hin]; [|tauto].
  destruct Hc as [-> | ->]; vm_compute in Hin; intuition discriminate.
Qed.

Lemma last_In {A} (l : list A) (x : A) : last l = Some x -> In x l.
Proof.
  destruct l as [|y l] using rev_ind; [discriminate|].
  rewrite last_snoc. intros [= ->]. apply in_or_app. right. left. reflexivity.
Qed.

Lemma first_line_heading (title rest : str) :
  ~ In nl title -> ~ In cr title ->
  first_line (heading title ++ nl :: rest) = heading title.
Proof.
  intros Hnl Hcr. unfold first_line.
  rewrite universal_newlines_app.
  - rewrite (universal_newlines_id (heading title))
      by (apply heading_no_char; [right; reflexivity | exact Hcr]).
    rewrite universal_newlines_cons by discriminate.
    apply before_first_app, heading_no_char; [left; reflexivity | exact Hnl].
  - intros Hlast. apply last_In in Hlast.
    revert Hlast. apply heading_no_char; [right; reflexivity | exact Hcr].
Qed.

(** C3, as amended: a flush that completes onto an absent or empty archive
    writes the title heading as the first line and the entries of the batch
    below it; a flush that completes onto a non-empty archive writes its
    block of entries at the top of the file, above everything written
    before, which is written back as it was read: with its line ends as line
    feeds, so unchanged when it holds no carriage return. *)
Theorem save_msg_layout (messages : list message) (title : str)
    (folder folder' : gmap str str) :
  save_msg messages title folder = Saved folder' ->
  let entries :=
    rev (map entry (List.filter (fun m => negb (skipped m)) messages)) in
  (archive title folder = [] ->
     archive title folder'
       = join [nl; nl] (heading title :: entries) ++ [nl; nl]
     /\ (~ In nl title -> ~ In cr title ->
         first_line (archive title folder') = heading title))
  /\ (archive title folder <> [] ->
     archive title folder'
       = join [nl; nl] entries ++ [nl; nl] ++ universal_newlines (archive title folder)
     /\ (~ In cr (archive title folder) ->
         archive title folder'
           = join [nl; nl] entries ++ [nl; nl] ++ archive title folder)).
Proof.
  intros Hsave entries. apply archive_saved in Hsave.
  unfold flushed in Hsave. fold entries in Hsave. unfold entries_of in Hsave.
  fold entries in Hsave.
  split; intros Hold.
  - rewrite Hsave, Hold. simpl nonempty. cbv iota.
    change ([heading title] ++ entries) with (heading title :: entries).
    simpl universal_newlines. rewrite app_nil_r.
    split; [reflexivity|]. intros Hnl Hcr.
    destruct (join_heading_first title entries) as [rest ->].
    apply first_line_heading; assumption.
  - assert (Hfile : archive title folder'
                    = join [nl; nl] entries ++ [nl; nl]
                      ++ universal_newlines (archive title folder)).
    { rewrite Hsave. destruct (archive title folder); [congruence | reflexivity]. }
    split; [exact Hfile|].
    intros Hcr. rewrite Hfile, (universal_newlines_id _ Hcr). reflexivity.
Qed.

(** C4, as amended: a flush that completes onto an existing, non-empty
    archive file puts a block in front of the previous text, whole and in
    its order, as reading the file gave it: with every carriage return, and
    every carriage return and line feed, turned into one line feed, so as it
    was when it holds no carriage return.  No other file is touched, however
    the call ends, and a call that raises [AttributeError] leaves the
    archive as it was. *)
Theorem save_msg_only_prepends (messages : list message) (title : str)
    (folder : gmap str str) (old : str) :
  folder !! _to_filename title = Some old ->
  old <> [] ->
  (forall folder',
     save_msg messages title folder = Saved folder' ->
     let above :=
       join [nl; nl]
         (rev (map entry (List.filter (fun m => negb (skipped m)) messages)))
       ++ [nl; nl] in
     folder' !! _to_filename title = Some (above ++ universal_newlines old)
     /\ (~ In cr old -> folder' !! _to_filename title = Some (above ++ old)))
  /\ (forall folder',
        save_msg messages title folder = SaveRaised AttributeError folder' ->
        folder' = folder)
  /\ forall g, g <> _to_filename title ->
       folder_after (save_msg messages title folder) !! g = folder !! g.
Proof.
  intros Hold Hne. split; [|split].
  - intros folder' Hsave above.
    apply save_msg_saved in Hsave as [-> _].
    rewrite lookup_insert_eq. unfold flushed, archive. rewrite Hold. simpl default.
    destruct old as [|c old]; [congruence|]. simpl nonempty. cbv iota.
    rewrite app_nil_l. unfold entries_of. fold above.
    assert (Hfile : (join [nl; nl]
                       (rev (map entry
                          (List.filter (fun m => negb (skipped m)) messages)))
                     ++ [nl; nl] ++ universal_newlines (c :: old))
                    = above ++ universal_newlines (c :: old)).
    { unfold above. rewrite <- app_assoc. reflexivity. }
    rewrite Hfile. split; [reflexivity|].
    intros Hcr. rewrite (universal_newlines_id _ Hcr). reflexivity.
  - intros folder' Hsave. apply save_msg_raised in Hsave.
    destruct Hsave as [[_ [-> _]]|[Habs _]]; [reflexivity | discriminate].
  - intros g Hg. apply save_msg_other, Hg.
Qed.

(** C10: the file name is the letters, digits and spaces of the display
    name, less the whitespace at their end, followed by [.md]; the stem does
    not end in a space (nor in any whitespace), and a display name with no
    letter, digit or space gives exactly [.md]. *)
Theorem to_filename_stem (title : str) :
  let keep := fun c => isalpha c || isdigit c || (c =? space)%N in
  (exists stem ws,
     List.filter keep title = stem ++ ws
     /\ forallb isspace ws = true
     /\ _to_filename title = stem ++ lit ".md"
     /\ (forall c, last stem = Some c -> isspace c = false)
     /\ ~ ends_with space stem)
  /\ (forallb (fun c => negb (keep c)) title = true ->
      _to_filename title = lit ".md").
Proof.
  intros keep. split.
  - destruct (rstrip_split (List.filter keep title)) as [ws [Hs Hws]].
    exists (rstrip (List.filter keep title)), ws.
    repeat split; try assumption.
    + apply rstrip_last.
    + unfold ends_with. intros Hlast. apply rstrip_last in Hlast. discriminate.
  - intros Hnone. unfold _to_filename. fold keep.
    replace (List.filter keep title) with (@nil char); [reflexivity|].
    clear -Hnone. induction title as [|c title IH]; [reflexivity|].
    simpl in *. apply andb_prop in Hnone as [Hc Hrest].
    destruct (keep c); [discriminate | apply IH, Hrest].
Qed.

End Writer_layout.

Section Writer_witnesses.
Import Samples.

Lemma save_msg_layout_witness :
  first_line (archive title_T one_flush) = heading title_T
  /\ archive title_T two_flushes
     = join [nl; nl] [entry bob_second] ++ [nl; nl] ++ archive title_T one_flush.
Proof.
  assert (Hone : save_msg [alice_first] title_T ∅ = Saved one_flush)
    by (vm_compute; reflexivity).
  assert (Htwo : save_msg [bob_second] title_T one_flush = Saved two_flushes)
    by (vm_compute; reflexivity).
  destruct (save_msg_layout [alice_first] title_T ∅ one_flush Hone) as [Hfresh _].
  destruct (save_msg_layout [bob_second] title_T one_flush two_flushes Htwo)
    as [_ Hlater].
  assert (Hempty : archive title_T ∅ = []) by (vm_compute; reflexivity).
  assert (Hfull : archive title_T one_flush <> []) by (vm_compute; discriminate).
  split.
  - refine (proj2 (Hfresh Hempty) _ _); clear; vm_compute; intuition discriminate.
  - refine (proj2 (Hlater Hfull) _); clear; vm_compute; intuition discriminate.
Defined.

Lemma save_msg_only_prepends_witness :
  two_flushes !! _to_filename title_T
    = Some ((join [nl; nl] [entry bob_second] ++ [nl; nl])
            ++ archive title_T one_flush).
Proof.
  assert (Hold : one_flush !! _to_filename title_T = Some (archive title_T one_flush))
    by (vm_compute; reflexivity).
  assert (Hne : archive title_T one_flush <> []) by (vm_compute; discriminate).
  assert (Htwo : save_msg [bob_second] title_T one_flush = Saved two_flushes)
    by (vm_compute; reflexivity).
  destruct (save_msg_only_prepends [bob_second] title_T one_flush
              (archive title_T one_flush) Hold Hne) as [Hsaved _].
  refine (proj2 (Hsaved two_flushes Htwo) _).
  clear. vm_compute. intuition discriminate.
Defined.

Lemma to_filename_stem_witness :
  _to_filename (lit "?!:&") = lit ".md".
Proof. apply (proj2 (to_filename_stem (lit "?!:&"))). reflexivity. Defined.

End Writer_witnesses.

(** ** The download loop *)

Section Loop_facts.
Context `{PythonLib}.
Variable a : args.
Local Open Scope Z_scope.

Lemma saved_batches_app (evs evs' : list event) :
  saved_batches (evs ++ evs') = saved_batches evs ++ saved_batches evs'.
Proof.
  induction evs as [|e evs IH]; [reflexivity|].
  destruct e; simpl; rewrite IH; reflexivity.
Qed.

Lemma handed_emit (e : event) (w : world) :
  handed (emit e w) =
    handed w ++ match e with EvSave batch _ => batch | _ => [] end.
Proof.
  unfold handed, emit. simpl. rewrite saved_batches_app, concat_app.
  destruct e; simpl; rewrite ?app_nil_r; reflexivity.
Qed.

Lemma handed_print (p : printed) (w : world) : handed (print p w) = handed w.
Proof. unfold print. rewrite handed_emit. apply app_nil_r. Qed.

(** A call of [save_msg]: the temp file and standard input are not touched;
    the call completes or raises as [save_msg] does on the folder, and is
    recorded so. *)
Lemma call_save_msg_cases (batch : list message) (title : str) (w : world)
    (r : option exn) (w' : world) :
  call_save_msg batch title w = (r, w') ->
  temp_file w' = temp_file w
  /\ stdin w' = stdin w
  /\ match r with
     | None =>
         save_msg batch title (folder w) = Saved (folder w')
         /\ events w' = events w ++ [EvSave batch title]
         /\ handed w' = handed w ++ batch
     | Some e =>
         save_msg batch title (folder w) = SaveRaised e (folder w')
         /\ events w' = events w ++ [EvSaveFailed batch title e]
         /\ handed w' = handed w
     end.
Proof.
  unfold call_save_msg.
  destruct (save_msg batch title (folder w)) as [f|e f]; intros [= <- <-].
  - repeat split. rewrite handed_emit. reflexivity.
  - repeat split. rewrite handed_emit. apply app_nil_r.
Qed.

Lemma untouched_refl (st : state) : untouched st st.
Proof. repeat split. Qed.

Lemma untouched_trans (st1 st2 st3 : state) :
  untouched st1 st2 -> untouched st2 st3 -> untouched st1 st3.
Proof. unfold untouched. intuition congruence. Qed.

Lemma untouched_print (p : printed) (st : state) :
  untouched st (with_env (print p) st).
Proof. repeat split. simpl. apply handed_print. Qed.

Lemma untouched_accept (m : message) (st : state) : untouched st (accept m st).
Proof. repeat split. Qed.

Lemma for_records_cons (r : raw_record) (rs : list raw_record) (st : state) :
  for_records a (r :: rs) st =
    match try_record a r with
    | NotAMessage => for_records a rs st
    | TooOld => (Some StopOldest, with_env (print (PStopOldest (oldest_date a))) st)
    | Failed => for_records a rs (with_env (print (PErrorOn r)) st)
    | Accepted m =>
        if max_reached a (tot_msg (accept m st))
        then (Some StopMax, with_env (print (PStopMax (max_messages a))) (accept m st))
        else for_records a rs (accept m st)
    end.
Proof. reflexivity. Qed.

(** The [for] statement only adds accepted messages to the buffer, counting
    each one, and prints. *)
Lemma for_records_effect (rs : list raw_record) (st : state)
    (r : option stop) (st' : state) :
  for_records a rs st = (r, st') ->
  untouched st st'
  /\ exists new, messages st' = messages st ++ new
                 /\ tot_msg st' = tot_msg st + Z.of_nat (length new).
Proof.
  revert st. induction rs as [|rec rs IH]; intros st Hrun.
  - injection Hrun as <- <-. split; [apply untouched_refl|].
    exists []. rewrite app_nil_r. simpl. split; [reflexivity | lia].
  - rewrite for_records_cons in Hrun.
    destruct (try_record a rec) as [| |m|].
    + apply IH, Hrun.
    + injection Hrun as <- <-. split; [apply untouched_print|].
      exists []. simpl. rewrite app_nil_r. split; [reflexivity | lia].
    + destruct (max_reached a (tot_msg (accept m st))).
      * injection Hrun as <- <-. split.
        { eapply untouched_trans; [apply untouched_accept | apply untouched_print]. }
        exists [m]. simpl. split; [reflexivity | lia].
      * apply IH in Hrun as [Hsame [new [Hms Htot]]]. split.
        { eapply untouched_trans; [apply untouched_accept | exact Hsame]. }
        exists (m :: new). simpl in Hms, Htot. rewrite Hms, Htot, <- app_assoc.
        split; [reflexivity | simpl length; lia].
    + apply IH in Hrun as [Hsame [new [Hms Htot]]]. split.
      { eapply untouched_trans; [apply untouched_print | exact Hsame]. }
      exists new. split; assumption.
Qed.

(** The [for] statement leaves the loop only for a date or a count. *)
Lemma for_records_stop (rs : list raw_record) (st : state) (why : stop)
    (st' : state) :
  for_records a rs st = (Some why, st') ->
  why = StopOldest
  \/ why = StopMax /\ max_reached a (tot_msg st') = true.
Proof.
  revert st. induction rs as [|rec rs IH]; intros st Hrun; [discriminate|].
  rewrite for_records_cons in Hrun.
  destruct (try_record a rec) as [| |m|]; try (apply IH in Hrun; exact Hrun).
  - injection Hrun as <- <-. left. reflexivity.
  - destruct (max_reached a (tot_msg (accept m st))) eqn:Hmax.
    + injection Hrun as <- <-. right. split; [reflexivity | exact Hmax].
    + apply IH in Hrun. exact Hrun.
Qed.

(** The flush of a large buffer, whether it completes or raises, leaves the
    counters, the next request, the temp file and standard input alone, and
    the messages collected are the same: handed over now, or still in the
    buffer. *)
Lemma flush_if_large_effect (st : state) (r : option exn) (st' : state) :
  flush_if_large a st = (r, st') ->
  num_requests st' = num_requests st
  /\ since_confirm st' = since_confirm st
  /\ tot_msg st' = tot_msg st
  /\ url st' = url st
  /\ params st' = params st
  /\ temp_file (env st') = temp_file (env st)
  /\ stdin (env st') = stdin (env st)
  /\ collected st' = collected st.
Proof.
  unfold flush_if_large.
  destruct (SAVE_EVERY <? Z.of_nat (length (messages st))).
  - destruct (call_save_msg _ _ _) as [[e|] w] eqn:Hcall;
      apply call_save_msg_cases in Hcall as (Htemp & Hin & _ & _ & Hhanded);
      intros [= <- <-]; repeat split; try assumption;
      unfold collected; simpl; rewrite Hhanded; [reflexivity | apply app_nil_r].
  - intros [= <- <-]. repeat split.
Qed.

(** The flush case by case: nothing happens to a buffer within [SAVE_EVERY];
    a larger one goes to [save_msg], and is cleared when the call
    completes. *)
Lemma flush_if_large_cases (st : state) (r : option exn) (st' : state) :
  flush_if_large a st = (r, st') ->
  (Z.of_nat (length (messages st)) <= SAVE_EVERY /\ r = None /\ st' = st)
  \/ (SAVE_EVERY < Z.of_nat (length (messages st))
      /\ match r with
         | None =>
             save_msg (messages st) (chat_name (the_chat a)) (folder (env st))
               = Saved (folder (env st'))
             /\ messages st' = []
             /\ events (env st')
                = events (env st) ++ [EvSave (messages st) (chat_name (the_chat a))]
         | Some e =>
             save_msg (messages st) (chat_name (the_chat a)) (folder (env st))
               = SaveRaised e (folder (env st'))
             /\ messages st' = messages st
             /\ events (env st')
                = events (env st)
                  ++ [EvSaveFailed (messages st) (chat_name (the_chat a)) e]
         end).
Proof.
  unfold flush_if_large.
  destruct (Z.ltb_spec SAVE_EVERY (Z.of_nat (length (messages st)))) as [Hlarge|Hsmall].
  - destruct (call_save_msg _ _ _) as [[e|] w] eqn:Hcall;
      apply call_save_msg_cases in Hcall as (_ & _ & Hsave & Hev & _);
      intros [= <- <-]; right; (split; [exact Hlarge|]); repeat split; assumption.
  - intros [= <- <-]. left. repeat split. exact Hsmall.
Qed.

(** [save_msg] raises nothing but these two exceptions. *)
Lemma flush_if_large_raises (st : state) (e : exn) (st' : state) :
  flush_if_large a st = (Some e, st') ->
  e = AttributeError \/ e = UnicodeEncodeError.
Proof.
  intros Hflush. apply flush_if_large_cases in Hflush.
  destruct Hflush as [(_ & Habs & _)|[_ (Hsave & _)]]; [discriminate|].
  apply save_msg_raised in Hsave. destruct Hsave as [[-> _]|[-> _]]; tauto.
Qed.

Lemma update_temp_file_checkpoint (next : option str) (st : state) :
  checkpoint a (env (_update_temp_file a next st))
    = Some {| next_url := next; num := num_requests st |}
  /\ last (events (env (_update_temp_file a next st)))
    = Some (EvCheckpoint (chat_id (the_chat a)) next (num_requests st)).
Proof.
  split.
  - unfold checkpoint. simpl. apply lookup_insert_eq.
  - simpl. apply last_snoc.
Qed.

Lemma update_temp_file_effect (next : option str) (st : state) :
  tot_msg (_update_temp_file a next st) = tot_msg st
  /\ messages (_update_temp_file a next st) = messages st
  /\ collected (_update_temp_file a next st) = collected st.
Proof.
  repeat split. unfold collected. simpl. f_equal.
  unfold handed. simpl. rewrite saved_batches_app. simpl. rewrite app_nil_r.
  reflexivity.
Qed.

(** From the checkpoint to the end of the turn the temp file is not written,
    no message is accepted and none is handed to [save_msg]. *)
Lemma after_checkpoint_effect (next : option str) (st : state) :
  temp_file (env (state_of (after_checkpoint a next st))) = temp_file (env st)
  /\ tot_msg (state_of (after_checkpoint a next st)) = tot_msg st
  /\ messages (state_of (after_checkpoint a next st)) = messages st
  /\ collected (state_of (after_checkpoint a next st)) = collected st.
Proof.
  unfold after_checkpoint, collected.
  destruct next as [u|]; [destruct (nonempty u)|];
    [destruct ((0 <? ask_continue a) && (since_confirm st =? ask_continue a))| |].
  - unfold input. simpl. destruct (stdin (env st)) as [|line rest]; simpl.
    + rewrite handed_print. repeat split.
    + destruct (answers 110%N line); simpl;
        unfold handed; simpl; rewrite ?saved_batches_app; simpl;
        rewrite ?app_nil_r; repeat split.
  - simpl. rewrite handed_print. repeat split.
  - simpl. rewrite handed_print. repeat split.
  - simpl. rewrite handed_print. repeat split.
Qed.

(** [after_checkpoint] leaves the loop only for the end of the pages, the
    user's refusal, or the end of standard input. *)
Lemma after_checkpoint_done (next : option str) (st : state) (o : outcome)
    (st' : state) :
  after_checkpoint a next st = Done o st' ->
  o = Returned StopComplete \/ o = Returned StopDeclined \/ o = Raised EOFError.
Proof.
  unfold after_checkpoint.
  destruct next as [u|]; [destruct (nonempty u)|];
    [destruct ((0 <? ask_continue a) && (since_confirm st =? ask_continue a))| |];
    try (intros [= <- <-]; tauto); try discriminate.
  destruct (input _) as [[line w]|]; [destruct (answers 110%N line)|];
    try (intros [= <- <-]; tauto); discriminate.
Qed.

(** A turn on a page answered without error, part by part. *)
Lemma loop_body_page (code : Z) (data : page) (st : state) :
  raise_for_status code = false ->
  loop_body a (Response code (Some data)) st =
    match for_records a (value data)
            (with_env (emit (EvGet (url st) (params st))) st) with
    | (Some why, st1) => Done (Returned why) st1
    | (None, st1) =>
        match flush_if_large a st1 with
        | (Some e, st2) => Done (Raised e) st2
        | (None, st2) =>
            after_checkpoint a (nextLink data)
              (_update_temp_file a (nextLink data) st2)
        end
    end.
Proof. intros Hcode. unfold loop_body. rewrite Hcode. reflexivity. Qed.

Lemma loop_cons (res : response) (trace : list response) (st : state) :
  loop a (res :: trace) st =
    match loop_body a res st with
    | Done o st' => Some (o, st')
    | Next st' => loop a trace st'
    end.
Proof. reflexivity. Qed.

(** How a turn can end the loop. *)
Lemma loop_body_done (res : response) (st : state) (o : outcome) (st' : state) :
  loop_body a res st = Done o st' ->
  (exists why, o = Returned why)
  \/ o = Raised EOFError
  \/ o = Raised OtherError
  \/ o = Raised AttributeError
  \/ o = Raised UnicodeEncodeError
  \/ exists code body,
       o = Raised (HTTPError code) /\ res = Response code body
       /\ raise_for_status code = true
       /\ st' = with_env (emit (EvGet (url st) (params st))) st.
Proof.
  unfold loop_body. destruct res as [code body|].
  - destruct (raise_for_status code) eqn:Hcode.
    + intros [= <- <-]. do 5 right. exists code, body. repeat split. exact Hcode.
    + destruct body as [data|]; [|intros [= <- <-]; tauto].
      destruct (for_records a (value data) _) as [[why|] st1].
      * intros [= <- <-]. left. eexists. reflexivity.
      * destruct (flush_if_large a st1) as [[e|] st2] eqn:Hflush.
        { intros [= <- <-]. apply flush_if_large_raises in Hflush as [He|He]; rewrite He; tauto. }
        intros Hdone. apply after_checkpoint_done in Hdone as [Ho|[Ho|Ho]];
          rewrite Ho; [left; eexists; reflexivity | left; eexists; reflexivity | tauto].
  - intros [= <- <-]. tauto.
Qed.

(** C1, as amended: for every page whose records are all consumed without a
    cutoff, and whose flush of the buffer, when one is due, completes, the
    checkpoint (the page's next_url and the number of requests made) is in
    the temp file before the loop tests for the end of the pages or asks the
    user, and stays there to the end of the turn; when the oldest-date or
    the max-message cutoff fires inside a page, the loop returns at once and
    the temp file is as it was before the page; and so it is when the flush
    of a buffer larger than [SAVE_EVERY] raises, which ends the loop with
    that exception before the checkpoint. *)
Theorem checkpoint_after_complete_page (code : Z) (data : page) (st : state) :
  raise_for_status code = false ->
  let st0 := with_env (emit (EvGet (url st) (params st))) st in
  (forall st1 st2,
     for_records a (value data) st0 = (None, st1) ->
     flush_if_large a st1 = (None, st2) ->
     exists st3,
       loop_body a (Response code (Some data)) st
         = after_checkpoint a (nextLink data) st3
       /\ checkpoint a (env st3)
          = Some {| next_url := nextLink data; num := num_requests st |}
       /\ last (events (env st3))
          = Some (EvCheckpoint (chat_id (the_chat a)) (nextLink data)
                    (num_requests st))
       /\ temp_file (env (state_of (after_checkpoint a (nextLink data) st3)))
          = temp_file (env st3))
  /\ (forall why st1, for_records a (value data) st0 = (Some why, st1) ->
        loop_body a (Response code (Some data)) st = Done (Returned why) st1
        /\ (why = StopOldest \/ why = StopMax)
        /\ temp_file (env st1) = temp_file (env st))
  /\ (forall st1,
        for_records a (value data) st0 = (None, st1) ->
        (Z.of_nat (length (messages st1)) <= SAVE_EVERY ->
         flush_if_large a st1 = (None, st1))
        /\ forall e st2,
             flush_if_large a st1 = (Some e, st2) ->
             loop_body a (Response code (Some data)) st = Done (Raised e) st2
             /\ SAVE_EVERY < Z.of_nat (length (messages st1))
             /\ (e = AttributeError \/ e = UnicodeEncodeError)
             /\ temp_file (env st2) = temp_file (env st)).
Proof.
  intros Hcode st0. split; [|split].
  - intros st1 st2 Hrun Hflush. exists (_update_temp_file a (nextLink data) st2).
    rewrite (loop_body_page _ _ _ Hcode). fold st0. rewrite Hrun, Hflush.
    split; [reflexivity|].
    destruct (update_temp_file_checkpoint (nextLink data) st2) as [Hcp Hlast].
    apply for_records_effect in Hrun as [[Hnum _] _].
    apply flush_if_large_effect in Hflush as [Hnum' _].
    rewrite Hnum', Hnum in Hcp, Hlast.
    split; [exact Hcp|]. split; [exact Hlast|].
    apply after_checkpoint_effect.
  - intros why st1 Hrun. rewrite (loop_body_page _ _ _ Hcode). fold st0. rewrite Hrun.
    split; [reflexivity|]. split.
    + apply for_records_stop in Hrun. tauto.
    + apply for_records_effect in Hrun as [Hsame _].
      destruct Hsame as (_ & _ & _ & _ & Htemp & _). exact Htemp.
  - intros st1 Hrun. split.
    + intros Hsmall. unfold flush_if_large.
      destruct (Z.ltb_spec SAVE_EVERY (Z.of_nat (length (messages st1))));
        [lia | reflexivity].
    + intros e st2 Hflush.
      rewrite (loop_body_page _ _ _ Hcode). fold st0. rewrite Hrun, Hflush.
      split; [reflexivity|].
      pose proof (flush_if_large_raises _ _ _ Hflush) as He.
      pose proof (flush_if_large_effect _ _ _ Hflush) as (_ & _ & _ & _ & _ & Htemp & _).
      apply flush_if_large_cases in Hflush as [(_ & Habs & _)|[Hlarge _]];
        [discriminate|].
      split; [exact Hlarge|]. split; [exact He|].
      apply for_records_effect in Hrun as [Hsame _].
      destruct Hsame as (_ & _ & _ & _ & Htemp' & _).
      rewrite Htemp. exact Htemp'.
Qed.

Lemma collected_get (st : state) :
  collected (with_env (emit (EvGet (url st) (params st))) st) = collected st.
Proof. unfold collected. simpl. rewrite handed_emit, app_nil_r. reflexivity. Qed.

(** Every turn only adds accepted messages to the collected ones, and
    [tot_msg] counts them. *)
Lemma loop_body_collects (res : response) (st : state) :
  exists new,
    collected (state_of (loop_body a res st)) = collected st ++ new
    /\ tot_msg (state_of (loop_body a res st))
       = tot_msg st + Z.of_nat (length new).
Proof.
  assert (Hnone : forall st', collected st' = collected st ->
            tot_msg st' = tot_msg st ->
            exists new, collected st' = collected st ++ new
                        /\ tot_msg st' = tot_msg st + Z.of_nat (length new)).
  { intros st' Hc Ht. exists []. rewrite app_nil_r. simpl. split; [exact Hc | lia]. }
  pose proof (collected_get st) as Hget.
  destruct res as [code body|]; [|apply Hnone; [exact Hget | reflexivity]].
  destruct (raise_for_status code) eqn:Hcode.
  { unfold loop_body. rewrite Hcode. apply Hnone; [exact Hget | reflexivity]. }
  destruct body as [data|].
  2:{ unfold loop_body. rewrite Hcode. apply Hnone; [exact Hget | reflexivity]. }
  rewrite (loop_body_page _ _ _ Hcode).
  set (st0 := with_env (emit (EvGet (url st) (params st))) st) in *.
  destruct (for_records a (value data) st0) as [[why|] st1] eqn:Hrun;
    apply for_records_effect in Hrun as [Hsame [new [Hms Htot]]];
    destruct Hsame as (_ & _ & _ & _ & _ & _ & _ & Hhanded);
    exists new.
  - simpl state_of. unfold collected. rewrite Hhanded, Hms, app_assoc.
    fold (collected st0). rewrite Hget. split; [reflexivity | exact Htot].
  - assert (Hst1 : collected st1 = collected st ++ new).
    { unfold collected. rewrite Hhanded, Hms, app_assoc. fold (collected st0).
      rewrite Hget. reflexivity. }
    destruct (flush_if_large a st1) as [[e|] st2] eqn:Hflush;
      apply flush_if_large_effect in Hflush as (_ & _ & Ht3 & _ & _ & _ & _ & Hc3).
    + simpl state_of. rewrite Hc3, Ht3. split; [exact Hst1 | exact Htot].
    + destruct (after_checkpoint_effect (nextLink data)
                  (_update_temp_file a (nextLink data) st2))
        as (_ & Ht1 & _ & Hc1).
      destruct (update_temp_file_effect (nextLink data) st2) as (Ht2 & _ & Hc2).
      rewrite Hc1, Hc2, Hc3, Ht1, Ht2, Ht3. split; [exact Hst1 | exact Htot].
Qed.

Lemma loop_collects (trace : list response) (st : state) (o : outcome)
    (st' : state) :
  loop a trace st = Some (o, st') ->
  exists new,
    collected st' = collected st ++ new
    /\ tot_msg st' = tot_msg st + Z.of_nat (length new).
Proof.
  revert st. induction trace as [|res trace IH]; intros st Hrun; [discriminate|].
  simpl in Hrun. destruct (loop_body_collects res st) as [new [Hc Ht]].
  destruct (loop_body a res st) as [st1|o1 st1]; simpl in Hc, Ht.
  - apply IH in Hrun as [new' [Hc' Ht']]. exists (new ++ new').
    rewrite Hc', Hc, Ht', Ht, length_app, <- app_assoc. split; [reflexivity | lia].
  - injection Hrun as <- <-. exists new. split; assumption.
Qed.

(** After a [return] of the loop, [download_chat] hands the buffer, if it
    holds anything, to [save_msg], and ends as that call does. *)
Lemma run_loop_returned (trace : list response) (st : state) (why : stop)
    (st' : state) :
  loop a trace st = Some (Returned why, st') ->
  exists c w,
    run_loop a trace st = Some (c, w)
    /\ temp_file w = temp_file (env st')
    /\ stdin w = stdin (env st')
    /\ gets (events w) = gets (events (env st'))
    /\ ((messages st' = [] /\ c = Normal
         /\ folder w = folder (env st') /\ handed w = collected st'
         /\ saved_batches (events w) = saved_batches (events (env st')))
        \/ (messages st' <> [] /\ c = Normal
            /\ save_msg (messages st') (chat_name (the_chat a)) (folder (env st'))
               = Saved (folder w)
            /\ handed w = collected st'
            /\ saved_batches (events w)
               = saved_batches (events (env st')) ++ [messages st'])
        \/ (messages st' <> []
            /\ exists e,
                 c = Exception e
                 /\ save_msg (messages st') (chat_name (the_chat a)) (folder (env st'))
                    = SaveRaised e (folder w)
                 /\ handed w = handed (env st')
                 /\ saved_batches (events w) = saved_batches (events (env st')))).
Proof.
  intros Hrun. unfold run_loop. rewrite Hrun. unfold collected.
  destruct (messages st') as [|m ms] eqn:Hms; simpl nonempty; cbv iota.
  - eexists _, _. split; [reflexivity|]. repeat split.
    + simpl. clear. induction (events (env st')) as [|e evs IH]; [reflexivity|].
      destruct e; simpl; rewrite ?IH; reflexivity.
    + left. repeat split.
      * rewrite handed_print, app_nil_r. reflexivity.
      * simpl. rewrite saved_batches_app. apply app_nil_r.
  - assert (Hgets : forall evs e,
              (forall u p, e <> EvGet u p) -> gets (evs ++ [e]) = gets evs).
    { clear. intros evs e He. induction evs as [|e' evs IH].
      - destruct e; try reflexivity. exfalso. eapply He. reflexivity.
      - destruct e'; simpl; rewrite ?IH; reflexivity. }
    destruct (call_save_msg _ _ _) as [[e|] w] eqn:Hcall;
      apply call_save_msg_cases in Hcall as (Htemp & Hin & Hsave & Hev & Hhanded);
      eexists _, _; (split; [reflexivity|]);
      (split; [exact Htemp|]); (split; [exact Hin|]).
    + split.
      { rewrite Hev. simpl. rewrite !Hgets by (intros; discriminate). reflexivity. }
      right. right. split; [discriminate|]. exists e. split; [reflexivity|].
      split; [exact Hsave|]. split.
      * rewrite Hhanded. apply handed_print.
      * rewrite Hev. simpl. rewrite !saved_batches_app. simpl.
        rewrite !app_nil_r. reflexivity.
    + split.
      { rewrite Hev. simpl. rewrite !Hgets by (intros; discriminate). reflexivity. }
      right. left. split; [discriminate|]. split; [reflexivity|].
      split; [exact Hsave|]. split.
      * rewrite Hhanded, handed_print. reflexivity.
      * rewrite Hev. simpl. rewrite !saved_batches_app. simpl.
        rewrite !app_nil_r. reflexivity.
Qed.


(** The loop raises [HTTPError] only for a response with an error status. *)
Lemma loop_http_error (trace : list response) (st : state) (code : Z)
    (st' : state) :
  loop a trace st = Some (Raised (HTTPError code), st') ->
  raise_for_status code = true /\ exists body, In (Response code body) trace.
Proof.
  revert st. induction trace as [|res trace IH]; intros st Hrun; [discriminate|].
  simpl in Hrun.
  destruct (loop_body a res st) as [st1|o1 st1] eqn:Hbody.
  - apply IH in Hrun as [Hcode [body Hin]]. split; [exact Hcode|].
    exists body. right. exact Hin.
  - injection Hrun as -> ->.
    apply loop_body_done in Hbody
      as [[why Habs]|[Habs|[Habs|[Habs|[Habs|(code' & body & Ho & -> & Hcode & _)]]]]];
      try discriminate.
    injection Ho as <-. split; [exact Hcode|]. exists body. left. reflexivity.
Qed.

(** The loop returns or raises at the first response that is not a page
    with a next link, if not before: it runs out of responses only when
    every one of them was such a page. *)
Lemma loop_ends (trace : list response) (st : state) :
  Exists (fun res => last_response res = true) trace ->
  exists o st', loop a trace st = Some (o, st').
Proof.
  intros Hlast. revert st.
  induction Hlast as [res trace Hres | res trace _ IH]; intros st; simpl.
  - destruct (loop_body a res st) as [st1|o1 st1] eqn:Hbody; [|eauto].
    exfalso. unfold loop_body in Hbody. revert Hres Hbody.
    destruct res as [code body|]; [|discriminate].
    destruct body as [data|]; simpl last_response;
      destruct (raise_for_status code); try discriminate.
    destruct (for_records a (value data) _) as [[why|] st2]; [discriminate|].
    destruct (flush_if_large a st2) as [[e|] st3]; [discriminate|].
    unfold after_checkpoint.
    destruct (nextLink data) as [u|]; [|discriminate].
    simpl. destruct (nonempty u); discriminate.
  - destruct (loop_body a res st) as [st1|o1 st1]; [apply IH | eauto].
Qed.

(** C8: when [loop] raises [HTTPError] it is for a request answered with an
    error status, and a response with that status makes it raise at
    whichever turn it comes; when the status is 403 [download_chat] prints
    that it skips the chat and returns normally, and for any other status
    the exception leaves [download_chat]. *)
Theorem forbidden_skips_the_chat (trace : list response) (w : world)
    (u : str) (p : bool) (w0 : world) (code : Z) (st' : state) :
  resume a w = Go u p w0 ->
  loop a trace (initial a u p w0) = Some (Raised (HTTPError code), st') ->
  (raise_for_status code = true /\ exists body, In (Response code body) trace)
  /\ (forall body rest st,
       loop a (Response code body :: rest) st
         = Some (Raised (HTTPError code),
                 with_env (emit (EvGet (url st) (params st))) st))
  /\ (code = 403 ->
      download_chat a trace w
        = Some (Normal, print (PCannotDownload (chat_name (the_chat a))) (env st')))
  /\ (code <> 403 ->
      download_chat a trace w = Some (Exception (HTTPError code), env st')).
Proof.
  intros Hgo Hrun.
  pose proof (loop_http_error _ _ _ _ Hrun) as [Hcode Hin].
  split; [split; assumption|]. split; [|split].
  - intros body rest st. simpl. unfold loop_body. rewrite Hcode. reflexivity.
  - intros ->. unfold download_chat, run_loop. rewrite Hgo, Hrun. reflexivity.
  - intros Hne. unfold download_chat, run_loop. rewrite Hgo, Hrun.
    destruct (Z.eqb_spec code 403); [contradiction | reflexivity].
Qed.

(** C9: with [max_messages] 0 or [None] the test of the limit is false for
    every count, and no run of the loop, on any responses and from any
    state, ends at the [return] of the message limit. *)
Theorem no_limit_when_zero_or_none :
  max_messages a = None \/ max_messages a = Some 0 ->
  (forall tot, max_reached a tot = false)
  /\ (forall trace st o st',
        loop a trace st = Some (o, st') -> o <> Returned StopMax).
Proof.
  intros Hmax.
  assert (Hoff : forall tot, max_reached a tot = false).
  { intros tot. unfold max_reached. destruct Hmax as [-> | ->]; reflexivity. }
  split; [exact Hoff|].
  induction trace as [|res trace IH]; intros st o st' Hrun; [discriminate|].
  simpl in Hrun.
  destruct (loop_body a res st) as [st1|o1 st1] eqn:Hbody; [eapply IH, Hrun|].
  injection Hrun as <- <-. intros ->.
  unfold loop_body in Hbody.
  destruct res as [code body|]; [|discriminate].
  destruct (raise_for_status code); [discriminate|].
  destruct body as [data|]; [|discriminate].
  destruct (for_records a (value data) _) as [[why|] st2] eqn:Hrec.
  - injection Hbody as -> ->. apply for_records_stop in Hrec as [|[_ Htrue]];
      [discriminate|]. rewrite Hoff in Htrue. discriminate.
  - destruct (flush_if_large a st2) as [[e|] st3]; [discriminate|].
    apply after_checkpoint_done in Hbody as [|[|]]; discriminate.
Qed.

End Loop_facts.

(** ** The turns of the loop, part by part *)

Section Loop_turns.
Context `{PythonLib}.
Variable a : args.
Local Open Scope Z_scope.

Lemma gets_app (evs evs' : list event) : gets (evs ++ evs') = gets evs + gets evs'.
Proof.
  induction evs as [|e evs IH]; [reflexivity|].
  destruct e; simpl; rewrite IH; lia.
Qed.

Lemma gets_emit (e : event) (w : world) :
  gets (events (emit e w)) =
    gets (events w) + match e with EvGet _ _ => 1 | _ => 0 end.
Proof. simpl. rewrite gets_app. destruct e; simpl; lia. Qed.

(** A property of pairs of states that every turn of the loop establishes
    and that composes holds between the start and the end of the loop. *)
Lemma loop_steps (R : state -> state -> Prop) :
  (forall res st, R st (state_of (loop_body a res st))) ->
  (forall st1 st2 st3, R st1 st2 -> R st2 st3 -> R st1 st3) ->
  forall trace st o st', loop a trace st = Some (o, st') -> R st st'.
Proof.
  intros Hstep Htrans. induction trace as [|res trace IH]; intros st o st' Hrun;
    [discriminate|].
  simpl in Hrun. specialize (Hstep res st).
  destruct (loop_body a res st) as [st1|o1 st1]; simpl in Hstep.
  - eapply Htrans; [exact Hstep | eapply IH, Hrun].
  - injection Hrun as <- <-. exact Hstep.
Qed.

(** A turn that goes round again read a page with a next link, all of it,
    flushed the buffer if it was large, and wrote the checkpoint. *)
Lemma loop_body_next (res : response) (st st' : state) :
  loop_body a res st = Next st' ->
  exists code data st1 st2,
    res = Response code (Some data)
    /\ raise_for_status code = false
    /\ for_records a (value data) (with_env (emit (EvGet (url st) (params st))) st)
       = (None, st1)
    /\ flush_if_large a st1 = (None, st2)
    /\ after_checkpoint a (nextLink data) (_update_temp_file a (nextLink data) st2)
       = Next st'.
Proof.
  unfold loop_body.
  destruct res as [code body|]; [|discriminate].
  destruct (raise_for_status code) eqn:Hcode; [discriminate|].
  destruct body as [data|]; [|discriminate].
  destruct (for_records a (value data) _) as [[why|] st1] eqn:Hrec; [discriminate|].
  destruct (flush_if_large a st1) as [[e|] st2] eqn:Hflush; [discriminate|].
  intros Hafter. exists code, data, st1, st2. repeat split; assumption.
Qed.

(** A turn that ends the loop: before the page was read, inside the page,
    at the flush, or after the checkpoint. *)
Lemma loop_body_ends (res : response) (st : state) (o : outcome) (st' : state) :
  loop_body a res st = Done o st' ->
  let st0 := with_env (emit (EvGet (url st) (params st))) st in
  (st' = st0
   /\ (o = Raised OtherError
       \/ exists code body, res = Response code body /\ o = Raised (HTTPError code)))
  \/ (exists code data why,
        res = Response code (Some data)
        /\ for_records a (value data) st0 = (Some why, st')
        /\ o = Returned why)
  \/ (exists code data st1 e,
        res = Response code (Some data)
        /\ for_records a (value data) st0 = (None, st1)
        /\ flush_if_large a st1 = (Some e, st')
        /\ o = Raised e)
  \/ (exists code data st1 st2,
        res = Response code (Some data)
        /\ for_records a (value data) st0 = (None, st1)
        /\ flush_if_large a st1 = (None, st2)
        /\ after_checkpoint a (nextLink data)
             (_update_temp_file a (nextLink data) st2) = Done o st').
Proof.
  intros Hbody st0. unfold loop_body in Hbody. fold st0 in Hbody.
  destruct res as [code body|];
    [|injection Hbody as <- <-; left; split; [reflexivity | left; reflexivity]].
  destruct (raise_for_status code) eqn:Hcode.
  { injection Hbody as <- <-. left. split; [reflexivity|]. right. eauto. }
  destruct body as [data|];
    [|injection Hbody as <- <-; left; split; [reflexivity | left; reflexivity]].
  destruct (for_records a (value data) st0) as [[why|] st1] eqn:Hrec.
  { injection Hbody as <- <-. right. left. exists code, data, why. repeat split.
    exact Hrec. }
  destruct (flush_if_large a st1) as [[e|] st2] eqn:Hflush.
  { injection Hbody as <- <-. right. right. left. exists code, data, st1, e.
    repeat split; assumption. }
  right. right. right. exists code, data, st1, st2. repeat split; assumption.
Qed.

(** What [after_checkpoint] leaves alone. *)
Lemma after_checkpoint_keeps (next : option str) (st : state) :
  folder (env (state_of (after_checkpoint a next st))) = folder (env st)
  /\ gets (events (env (state_of (after_checkpoint a next st))))
     = gets (events (env st))
  /\ saved_batches (events (env (state_of (after_checkpoint a next st))))
     = saved_batches (events (env st))
  /\ (ask_continue a <= 0 ->
      stdin (env (state_of (after_checkpoint a next st))) = stdin (env st)).
Proof.
  unfold after_checkpoint.
  destruct next as [u|]; [destruct (nonempty u)|];
    [destruct (Z.ltb_spec 0 (ask_continue a)); simpl andb;
       [destruct (since_confirm st =? ask_continue a)|]| |];
    simpl; rewrite ?gets_app, ?saved_batches_app; simpl;
    rewrite ?app_nil_r; try (repeat split; lia).
  unfold input. simpl. destruct (stdin (env st)) as [|line rest]; simpl.
  - rewrite gets_app, saved_batches_app. simpl. rewrite app_nil_r.
    repeat split; lia.
  - destruct (answers 110%N line); simpl;
      rewrite ?gets_app, ?saved_batches_app; simpl; rewrite ?app_nil_r;
      repeat split; lia.
Qed.

Lemma for_records_gets (rs : list raw_record) (st : state) (r : option stop)
    (st' : state) :
  for_records a rs st = (r, st') ->
  gets (events (env st')) = gets (events (env st))
  /\ saved_batches (events (env st')) = saved_batches (events (env st)).
Proof.
  revert st. induction rs as [|rec rs IH]; intros st Hrun.
  - injection Hrun as _ <-. split; reflexivity.
  - rewrite for_records_cons in Hrun.
    destruct (try_record a rec) as [| |m|].
    + apply IH, Hrun.
    + injection Hrun as _ <-. simpl. rewrite gets_app, saved_batches_app. simpl.
      rewrite app_nil_r. split; [lia | reflexivity].
    + destruct (max_reached a (tot_msg (accept m st))).
      * injection Hrun as _ <-. simpl. rewrite gets_app, saved_batches_app. simpl.
        rewrite app_nil_r. split; [lia | reflexivity].
      * apply IH in Hrun. exact Hrun.
    + apply IH in Hrun as [-> ->]. simpl. rewrite gets_app, saved_batches_app. simpl.
      rewrite app_nil_r. split; [lia | reflexivity].
Qed.

(** The flush makes no request, and what it leaves in the buffer when it
    does not raise is within [SAVE_EVERY]. *)
Lemma flush_if_large_keeps (st : state) (r : option exn) (st' : state) :
  flush_if_large a st = (r, st') ->
  gets (events (env st')) = gets (events (env st))
  /\ (r = None -> Z.of_nat (length (messages st')) <= SAVE_EVERY)
  /\ Z.of_nat (length (messages st')) <= Z.of_nat (length (messages st))
  /\ forall g, g <> _to_filename (chat_name (the_chat a)) ->
       folder (env st') !! g = folder (env st) !! g.
Proof.
  intros Hflush. apply flush_if_large_cases in Hflush.
  destruct Hflush as [(Hsmall & -> & ->)|[Hlarge Hcases]].
  - repeat split; try lia. 
  - destruct r as [e|]; destruct Hcases as (Hsave & Hms & Hev); rewrite Hev, Hms.
    + rewrite gets_app. simpl. repeat split; try lia; try discriminate.
      intros g Hg.
      pose proof (save_msg_other (messages st) _ (folder (env st)) g Hg) as Hother.
      rewrite Hsave in Hother. exact Hother.
    + rewrite gets_app. simpl. unfold SAVE_EVERY. repeat split; try lia.
      intros g Hg.
      pose proof (save_msg_other (messages st) _ (folder (env st)) g Hg) as Hother.
      rewrite Hsave in Hother. exact Hother.
Qed.

(** The loop ends in the turn of one of the responses. *)
Lemma loop_last_turn (trace : list response) (st : state) (o : outcome)
    (st' : state) :
  loop a trace st = Some (o, st') ->
  exists res st1, In res trace /\ loop_body a res st1 = Done o st'.
Proof.
  revert st. induction trace as [|res trace IH]; intros st Hrun; [discriminate|].
  simpl in Hrun. destruct (loop_body a res st) as [st1|o1 st1] eqn:Hbody.
  - apply IH in Hrun as [res' [st2 [Hin Hdone]]].
    exists res', st2. split; [right; exact Hin | exact Hdone].
  - injection Hrun as <- <-. exists res, st. split; [left; reflexivity | exact Hbody].
Qed.

(** How [after_checkpoint] ends the loop: at a page without next link, or
    at the user's refusal on a page with one, or at the end of standard
    input; in each case the counters and the temp file are those of the
    checkpoint just written. *)
Lemma after_checkpoint_done_cases (next : option str) (st : state)
    (o : outcome) (st' : state) :
  after_checkpoint a next st = Done o st' ->
  num_requests st' = num_requests st
  /\ temp_file (env st') = temp_file (env st)
  /\ (o = Returned StopComplete /\ no_link next = true
      \/ (o = Returned StopDeclined \/ o = Raised EOFError)
         /\ no_link next = false /\ 0 < ask_continue a).
Proof.
  unfold after_checkpoint, no_link.
  destruct next as [u|]; simpl default;
    [destruct (nonempty u)|]; simpl negb;
    [|intros [= <- <-]; repeat split; left; split; reflexivity ..].
  destruct (Z.ltb_spec 0 (ask_continue a)); simpl andb; [|discriminate].
  destruct (since_confirm st =? ask_continue a); [|discriminate].
  unfold input. simpl. destruct (stdin (env st)) as [|line rest].
  - intros [= <- <-]. repeat split. right. repeat split; [tauto | assumption].
  - destruct (answers 110%N line); [|discriminate].
    intros [= <- <-]. repeat split. right. repeat split; [tauto | assumption].
Qed.

(** [after_checkpoint] goes round again only on a next link. *)
Lemma after_checkpoint_next (next : option str) (st st' : state) :
  after_checkpoint a next st = Next st' -> no_link next = false.
Proof.
  unfold after_checkpoint, no_link.
  destruct next as [u|]; [|discriminate]. simpl.
  destruct (nonempty u); [reflexivity | discriminate].
Qed.

(** *** The archive through the loop *)

Lemma archive_after_app (title old : str) (bs1 bs2 : list (list message)) :
  archive_after title old (bs1 ++ bs2)
    = archive_after title (archive_after title old bs1) bs2.
Proof. unfold archive_after. apply foldl_app. Qed.

(** The flush of a large buffer, for the archive: a call that completes
    puts its text on top, one that raises [AttributeError] changes
    nothing. *)
Lemma flush_if_large_flushes (st : state) (r : option exn) (st' : state) :
  flush_if_large a st = (r, st') ->
  exists bs,
    saved_batches (events (env st')) = saved_batches (events (env st)) ++ bs
    /\ Forall (fun b => SAVE_EVERY < Z.of_nat (length b)) bs
    /\ (r <> Some UnicodeEncodeError ->
        archive (chat_name (the_chat a)) (folder (env st'))
          = archive_after (chat_name (the_chat a))
              (archive (chat_name (the_chat a)) (folder (env st))) bs).
Proof.
  intros Hflush. apply flush_if_large_cases in Hflush.
  destruct Hflush as [(Hsmall & -> & ->)|[Hlarge Hcases]].
  - exists []. rewrite app_nil_r. repeat split. constructor.
  - destruct r as [e|]; destruct Hcases as (Hsave & Hms & Hev); rewrite Hev.
    + exists []. rewrite saved_batches_app, app_nil_r. simpl. rewrite app_nil_r.
      split; [reflexivity|]. split; [constructor|].
      intros He. apply save_msg_raised in Hsave.
      destruct Hsave as [(_ & -> & _)|[-> _]]; [reflexivity | congruence].
    + exists [messages st]. rewrite saved_batches_app. simpl.
      split; [reflexivity|]. split; [constructor; [exact Hlarge | constructor]|].
      intros _. apply archive_saved, Hsave.
Qed.

Lemma loop_body_flushes (res : response) (st : state) :
  exists bs,
    saved_batches (events (env (state_of (loop_body a res st))))
      = saved_batches (events (env st)) ++ bs
    /\ Forall (fun b => SAVE_EVERY < Z.of_nat (length b)) bs
    /\ ((forall st', loop_body a res st <> Done (Raised UnicodeEncodeError) st') ->
        archive (chat_name (the_chat a)) (folder (env (state_of (loop_body a res st))))
          = archive_after (chat_name (the_chat a))
              (archive (chat_name (the_chat a)) (folder (env st))) bs).
Proof.
  set (st0 := with_env (emit (EvGet (url st) (params st))) st).
  assert (Hst0 : saved_batches (events (env st0)) = saved_batches (events (env st))
                 /\ folder (env st0) = folder (env st)).
  { subst st0. simpl. rewrite saved_batches_app. simpl. rewrite app_nil_r.
    split; reflexivity. }
  destruct Hst0 as [Hb0 Hf0].
  assert (Hnone : forall st1,
            saved_batches (events (env st1)) = saved_batches (events (env st)) ->
            folder (env st1) = folder (env st) ->
            exists bs,
              saved_batches (events (env st1)) = saved_batches (events (env st)) ++ bs
              /\ Forall (fun b => SAVE_EVERY < Z.of_nat (length b)) bs
              /\ archive (chat_name (the_chat a)) (folder (env st1))
                 = archive_after (chat_name (the_chat a))
                     (archive (chat_name (the_chat a)) (folder (env st))) bs).
  { intros st1 Hb Hf. exists []. rewrite app_nil_r, Hf.
    split; [exact Hb|]. split; [constructor | reflexivity]. }
  assert (Hweak : forall st1,
            saved_batches (events (env st1)) = saved_batches (events (env st)) ->
            folder (env st1) = folder (env st) ->
            exists bs,
              saved_batches (events (env st1)) = saved_batches (events (env st)) ++ bs
              /\ Forall (fun b => SAVE_EVERY < Z.of_nat (length b)) bs
              /\ ((forall st', loop_body a res st <> Done (Raised UnicodeEncodeError) st') ->
                  archive (chat_name (the_chat a)) (folder (env st1))
                  = archive_after (chat_name (the_chat a))
                      (archive (chat_name (the_chat a)) (folder (env st))) bs)).
  { intros st1 Hb Hf. destruct (Hnone st1 Hb Hf) as (bs & H1 & H2 & H3).
    exists bs. repeat split; try assumption. intros _. exact H3. }
  unfold loop_body in *. fold st0 in Hweak. fold st0.
  destruct res as [code body|]; [|apply Hweak; assumption].
  destruct (raise_for_status code); [apply Hweak; assumption|].
  destruct body as [data|]; [|apply Hweak; assumption].
  destruct (for_records a (value data) st0) as [[why|] st1] eqn:Hrec;
    pose proof (for_records_gets _ _ _ _ Hrec) as [_ Hb1];
    apply for_records_effect in Hrec as [Hun _];
    destruct Hun as (_ & _ & _ & _ & _ & Hf1 & _ & _).
  { simpl state_of. apply Hweak; congruence. }
  destruct (flush_if_large a st1) as [[e|] st2] eqn:Hflush;
    apply flush_if_large_flushes in Hflush as (bs & Hb2 & Hlarge & Harch).
  - exists bs. simpl state_of. rewrite Hb2, Hb1, Hb0.
    split; [reflexivity|]. split; [exact Hlarge|].
    intros Hnot. rewrite Harch, Hf1, Hf0; [reflexivity|].
    intros [= ->]. eapply Hnot. reflexivity.
  - destruct (after_checkpoint_keeps (nextLink data)
                (_update_temp_file a (nextLink data) st2)) as (Hf3 & _ & Hb3 & _).
    exists bs. rewrite Hb3, Hf3. simpl. rewrite saved_batches_app. simpl.
    rewrite app_nil_r, Hb2, Hb1, Hb0.
    split; [reflexivity|]. split; [exact Hlarge|].
    intros _. rewrite Harch, Hf1, Hf0; [reflexivity | discriminate].
Qed.

(** Between the start and the end of the loop the archive went through the
    flushes that completed, one after the other, unless the loop ended with
    [UnicodeEncodeError]. *)
Lemma loop_flushes (trace : list response) (st : state) (o : outcome)
    (st' : state) :
  loop a trace st = Some (o, st') ->
  exists bs,
    saved_batches (events (env st')) = saved_batches (events (env st)) ++ bs
    /\ Forall (fun b => SAVE_EVERY < Z.of_nat (length b)) bs
    /\ (o <> Raised UnicodeEncodeError ->
        archive (chat_name (the_chat a)) (folder (env st'))
          = archive_after (chat_name (the_chat a))
              (archive (chat_name (the_chat a)) (folder (env st))) bs).
Proof.
  revert st. induction trace as [|res trace IH]; intros st Hrun; [discriminate|].
  rewrite loop_cons in Hrun.
  destruct (loop_body_flushes res st) as (bs1 & Hb1 & Hl1 & Ha1).
  destruct (loop_body a res st) as [st1|o1 st1] eqn:Hbody; simpl state_of in *.
  - apply IH in Hrun as (bs2 & Hb2 & Hl2 & Ha2).
    exists (bs1 ++ bs2). rewrite Hb2, Hb1, app_assoc.
    split; [reflexivity|]. split; [apply Forall_app; split; assumption|].
    intros Ho. rewrite (Ha2 Ho), Ha1 by discriminate.
    symmetry. apply archive_after_app.
  - injection Hrun as <- <-. exists bs1.
    split; [exact Hb1|]. split; [exact Hl1|].
    intros Ho. apply Ha1. intros st2 [= -> _]. contradiction.
Qed.

(** The same for [download_chat] from the call of [loop] on: the last flush
    comes after those of the loop. *)
Lemma run_loop_flushes (trace : list response) (st : state) (c : completion)
    (w : world) :
  run_loop a trace st = Some (c, w) ->
  exists bs,
    saved_batches (events w) = saved_batches (events (env st)) ++ bs
    /\ (c <> Exception UnicodeEncodeError ->
        archive (chat_name (the_chat a)) (folder w)
          = archive_after (chat_name (the_chat a))
              (archive (chat_name (the_chat a)) (folder (env st))) bs).
Proof.
  intros Hrun.
  destruct (loop a trace st) as [[o st']|] eqn:Hloop;
    [|unfold run_loop in Hrun; rewrite Hloop in Hrun; discriminate].
  pose proof (loop_flushes _ _ _ _ Hloop) as (bs & Hb & _ & Ha).
  destruct o as [why|e].
  - destruct (run_loop_returned a _ _ _ _ Hloop)
      as (c' & w' & Hw & _ & _ & _ & Hcases).
    rewrite Hrun in Hw. injection Hw as <- <-.
    specialize (Ha ltac:(discriminate)).
    destruct Hcases as [(_ & _ & Hf & _ & Hb')
                       |[(_ & _ & Hsave & _ & Hb')|(_ & e & -> & Hsave & _ & Hb')]].
    + exists bs. rewrite Hb', Hf. split; [exact Hb | intros _; exact Ha].
    + exists (bs ++ [messages st']). rewrite Hb', Hb, app_assoc.
      split; [reflexivity|]. intros _.
      rewrite archive_after_app, <- Ha. apply archive_saved, Hsave.
    + exists bs. rewrite Hb'. split; [exact Hb|].
      intros He. apply save_msg_raised in Hsave.
      destruct Hsave as [(_ & -> & _)|[-> _]]; [exact Ha | congruence].
  - unfold run_loop in Hrun. rewrite Hloop in Hrun.
    assert (Hb' : saved_batches (events w) = saved_batches (events (env st'))
                  /\ folder w = folder (env st')
                  /\ (c = Exception UnicodeEncodeError -> e = UnicodeEncodeError)).
    { destruct e as [code| | | |]; [destruct (code =? 403)| | | |];
        injection Hrun as <- <-; simpl; rewrite ?saved_batches_app; simpl;
        rewrite ?app_nil_r; repeat split; congruence. }
    destruct Hb' as (Hb' & Hf' & He).
    exists bs. rewrite Hb', Hf'. split; [exact Hb|].
    intros Hc. apply Ha. intros [= ->]. apply Hc.
    injection Hrun as <- _. reflexivity.
Qed.

End Loop_turns.

Section Cutoffs.
Context `{PythonLib}.
Variable a : args.
Local Open Scope Z_scope.

Lemma date_gt_lt (d cutoff : date) : date_gt cutoff d = true <-> date_lt d cutoff.
Proof.
  unfold date_gt, date_lt.
  rewrite !orb_true_iff, !andb_true_iff, !orb_true_iff, !andb_true_iff.
  rewrite !Z.ltb_lt, !Z.eqb_eq. intuition lia.
Qed.

Lemma date_gt_irrefl (d : date) : date_gt d d = false.
Proof.
  destruct (date_gt d d) eqn:Hgt; [|reflexivity].
  apply date_gt_lt in Hgt. unfold date_lt in Hgt. lia.
Qed.

Lemma for_records_app (pre rs : list raw_record) (st : state) :
  for_records a (pre ++ rs) st =
    match for_records a pre st with
    | (Some why, st1) => (Some why, st1)
    | (None, st1) => for_records a rs st1
    end.
Proof.
  revert st. induction pre as [|r pre IH]; intros st; [reflexivity|].
  rewrite <- app_comm_cons, !for_records_cons.
  destruct (try_record a r) as [| |m|]; try apply IH; [reflexivity|].
  destruct (max_reached a (tot_msg (accept m st))); [reflexivity | apply IH].
Qed.


End Cutoffs.

Section Limit.
Local Open Scope Z_scope.
Context `{PythonLib}.
Variable a : args.
Variable n : Z.
Hypothesis limit : max_messages a = Some n.
Hypothesis positive : 0 < n.

Lemma max_reached_limit (tot : Z) : max_reached a tot = (n <=? tot).
Proof using limit positive.
  unfold max_reached. rewrite limit.
  destruct (Z.eqb_spec n 0); [lia | reflexivity].
Qed.

Lemma omap_accepted_cons (r : raw_record) (rs : list raw_record) :
  omap (accepted a) (r :: rs) =
    match try_record a r with
    | Accepted m => m :: omap (accepted a) rs
    | _ => omap (accepted a) rs
    end.
Proof.
  change (omap (accepted a) (r :: rs))
    with (match accepted a r with
          | Some m => m :: omap (accepted a) rs
          | None => omap (accepted a) rs
          end).
  unfold accepted. destruct (try_record a r); reflexivity.
Qed.

(** The [for] statement against the limit: it stops at the message that
    brings the count to the limit, if the page has that many and no older
    message comes before; it stops at a message older than the oldest date;
    and otherwise it accepts all the page offers, fewer than are missing. *)
Lemma for_records_limit (rs : list raw_record) (st : state) :
  tot_msg st < n ->
  let missing := Z.to_nat (n - tot_msg st) in
  let offered := omap (accepted a) rs in
  exists r st',
    for_records a rs st = (r, st')
    /\ ((r = Some StopMax
         /\ (missing <= length offered)%nat
         /\ messages st' = messages st ++ take missing offered
         /\ tot_msg st' = n)
        \/ (r = Some StopOldest
            /\ Exists (fun rec => try_record a rec = TooOld) rs)
        \/ (r = None
            /\ (length offered < missing)%nat
            /\ messages st' = messages st ++ offered
            /\ tot_msg st' = tot_msg st + Z.of_nat (length offered))).
Proof using limit positive.
  revert st. induction rs as [|r rs IH]; intros st Hlt missing offered.
  - exists None, st. split; [reflexivity|]. right. right.
    subst offered. simpl. rewrite app_nil_r. repeat split; lia.
  - rewrite for_records_cons. subst offered. rewrite omap_accepted_cons.
    destruct (try_record a r) as [| |m|] eqn:Htry.
    + destruct (IH st Hlt) as (r' & st' & Hrun & Hcases).
      exists r', st'. split; [exact Hrun|].
      destruct Hcases as [?|[[? ?]|?]]; [tauto | | tauto].
      right. left. split; [assumption | apply Exists_cons_tl; assumption].
    + eexists _, _. split; [reflexivity|]. right. left.
      split; [reflexivity | apply Exists_cons_hd, Htry].
    + rewrite max_reached_limit. simpl tot_msg.
      destruct (Z.leb_spec n (tot_msg st + 1)) as [Hle|Hgt].
      * eexists _, _. split; [reflexivity|]. left.
        assert (missing = 1%nat) as -> by lia. simpl.
        repeat split; lia.
      * destruct (IH (accept m st)) as (r' & st' & Hrun & Hcases); [simpl; lia|].
        simpl tot_msg in Hcases. simpl messages in Hcases.
        assert (Hmiss : Z.to_nat (n - (tot_msg st + 1)) = (missing - 1)%nat) by lia.
        rewrite Hmiss in Hcases.
        assert (Hs : missing = S (missing - 1)) by lia.
        exists r', st'. split; [exact Hrun|].
        destruct Hcases as [(-> & Hlen & Hms & Htot)
                           |[(-> & Hex)|(-> & Hlen & Hms & Htot)]].
        { left. rewrite Hs. simpl take. simpl length.
          rewrite Hms, <- app_assoc. repeat split; [lia | exact Htot]. }
        { right. left. split; [reflexivity | apply Exists_cons_tl, Hex]. }
        { right. right. simpl length.
          rewrite Hms, Htot, <- app_assoc. repeat split; lia. }
    + destruct (IH (with_env (print (PErrorOn r)) st) Hlt) as (r' & st' & Hrun & Hcases).
      exists r', st'. split; [exact Hrun|].
      destruct Hcases as [?|[[? ?]|?]]; [tauto | | tauto].
      right. left. split; [assumption | apply Exists_cons_tl; assumption].
Qed.

Lemma advance_effect (u : str) (st : state) :
  tot_msg (advance u st) = tot_msg st /\ collected (advance u st) = collected st.
Proof.
  split; [reflexivity|]. unfold collected. simpl. rewrite handed_print. reflexivity.
Qed.

(** The loop against the limit: when the stream offers as many messages as
    are missing, the loop ends, and it ends at the [return] of the limit,
    having collected exactly the missing ones in the order of the stream,
    unless something else ends it first: an older message in the stream,
    the confirmation gate, or a flush that raises, which takes a limit
    above [SAVE_EVERY]. *)
Lemma loop_limit (trace : list response) (st : state) :
  tot_msg st < n ->
  Z.of_nat (length (messages st)) <= tot_msg st ->
  (Z.to_nat (n - tot_msg st) <= length (omap (accepted a) (stream trace)))%nat ->
  exists o st',
    loop a trace st = Some (o, st')
    /\ ((o = Returned StopMax
         /\ tot_msg st' = n
         /\ collected st' =
              collected st
              ++ take (Z.to_nat (n - tot_msg st)) (omap (accepted a) (stream trace)))
        \/ (o = Returned StopOldest
            /\ Exists (fun r => try_record a r = TooOld) (stream trace))
        \/ ((o = Returned StopDeclined \/ o = Raised EOFError)
            /\ 0 < ask_continue a)
        \/ ((o = Raised AttributeError \/ o = Raised UnicodeEncodeError)
            /\ SAVE_EVERY < n)).
Proof using limit positive.
  revert st. induction trace as [|res trace IH]; intros st Hlt Hbuf Hle.
  { simpl in Hle. lia. }
  destruct res as [code [data|]|]; simpl stream in *; try (simpl in Hle; lia).
  destruct (raise_for_status code) eqn:Hcode; [simpl in Hle; lia|].
  rewrite omap_app in *. rewrite length_app in Hle.
  rewrite loop_cons, (loop_body_page _ _ _ _ Hcode).
  pose proof (collected_get st) as Hget.
  set (st0 := with_env (emit (EvGet (url st) (params st))) st) in *.
  destruct (for_records_limit (value data) st0 Hlt) as (r & st1 & Hrun & Hcases).
  change (tot_msg st0) with (tot_msg st) in Hcases.
  rewrite Hrun.
  pose proof (for_records_effect a _ _ _ _ Hrun) as [Hsame _].
  destruct Hsame as (_ & _ & _ & _ & _ & _ & _ & Hhanded).
  assert (Hcol : forall new, messages st1 = messages st0 ++ new ->
            collected st1 = collected st ++ new).
  { intros new Hms. unfold collected at 1.
    rewrite Hhanded, Hms, app_assoc. fold (collected st0).
    rewrite Hget. reflexivity. }
  change (messages st0) with (messages st) in Hcases.
  destruct Hcases as [(-> & Hlen & Hms & Htot)
                     |[(-> & Hex)|(-> & Hlen & Hms & Htot)]].
  - eexists _, _. split; [reflexivity|]. left.
    split; [reflexivity|]. split; [exact Htot|].
    rewrite (Hcol _ Hms), take_app_le by exact Hlen. reflexivity.
  - eexists _, _. split; [reflexivity|]. right. left.
    split; [reflexivity|]. apply Exists_app. left. exact Hex.
  - destruct (flush_if_large a st1) as [[e|] st2] eqn:Hflush.
    + eexists _, _. split; [reflexivity|]. right. right. right.
      pose proof (flush_if_large_raises _ _ _ _ Hflush) as He.
      apply flush_if_large_cases in Hflush as [(_ & Habs & _)|[Hlarge _]];
        [discriminate|].
      split; [destruct He as [-> | ->]; tauto|].
      rewrite Hms, length_app in Hlarge. lia.
    + pose proof (flush_if_large_effect _ _ _ _ Hflush)
        as (_ & _ & Ht2 & _ & _ & _ & _ & Hc2).
      pose proof (flush_if_large_keeps _ _ _ _ Hflush) as (_ & _ & Hlen2 & _).
      destruct (update_temp_file_effect a (nextLink data) st2) as (Ht3 & Hm3 & Hc3).
      destruct (after_checkpoint_effect a (nextLink data)
                  (_update_temp_file a (nextLink data) st2))
        as (_ & Ht4 & Hm4 & Hc4).
      destruct (after_checkpoint a (nextLink data)
                  (_update_temp_file a (nextLink data) st2))
        as [st4|o4 st4] eqn:Hafter; simpl state_of in *.
      * apply after_checkpoint_next in Hafter. unfold no_link in Hafter.
        apply negb_false_iff in Hafter. rewrite Hafter in Hle.
        destruct (IH st4) as (o & st' & Hloop & Hend).
        { rewrite Ht4, Ht3, Ht2, Htot. lia. }
        { rewrite Hm4, Hm3, Ht4, Ht3, Ht2, Htot.
          rewrite Hms, length_app in Hlen2. lia. }
        { rewrite Ht4, Ht3, Ht2, Htot. lia. }
        exists o, st'. split; [exact Hloop|].
        rewrite Hafter.
        destruct Hend as [(-> & Hn & Hc)|[(-> & Hex)|[Hgate|Hraise]]].
        { left. split; [reflexivity|]. split; [exact Hn|].
          rewrite Hc, Hc4, Hc3, Hc2, (Hcol _ Hms), Ht4, Ht3, Ht2, Htot, <- app_assoc.
          f_equal. rewrite take_app_ge by lia. do 2 f_equal. lia. }
        { right. left. split; [reflexivity|]. apply Exists_app. right. exact Hex. }
        { right. right. left. exact Hgate. }
        { right. right. right. exact Hraise. }
      * exists o4, st4. split; [reflexivity|].
        apply after_checkpoint_done_cases in Hafter
          as (_ & _ & [[-> Hlink]|[Ho [_ Hask]]]).
        { exfalso. unfold no_link in Hlink. apply negb_true_iff in Hlink.
          rewrite Hlink in Hle. simpl in Hle. lia. }
        { right. right. left. split; assumption. }
Qed.

(** Whatever the loop does, [download_chat] ends when the loop does. *)
Lemma run_loop_total (trace : list response) (st : state) (o : outcome)
    (st' : state) :
  loop a trace st = Some (o, st') ->
  exists c w, run_loop a trace st = Some (c, w).
Proof.
  intros Hloop. unfold run_loop. rewrite Hloop.
  destruct o as [why|e].
  - destruct (nonempty (messages st')); [|eauto].
    destruct (call_save_msg _ _ _) as [[e|] w]; eauto.
  - destruct e as [code| | | |]; [destruct (code =? 403)| | | |]; eauto.
Qed.


End Limit.

(** ** The claims on sample runs *)

Section Runs.
Import Samples.
Local Open Scope Z_scope.

(** C1, the claim as stated fails: on a first run with a limit of one
    message, the loop returns inside the first page, which has a next link,
    and no checkpoint is written: there is still no temp file when the loop
    returns nor when [download_chat] ends.  The same holds when the oldest
    date stops the loop inside the page. *)
Lemma cutoff_inside_page_writes_no_checkpoint :
  (exists st' w',
     loop (bulk (Some 1) None) [Response 200 (Some page_one)]
       (first_call (bulk (Some 1) None)) = Some (Returned StopMax, st')
     /\ messages st' = [alice_first]
     /\ temp_file (env st') = None
     /\ download_chat (bulk (Some 1) None) [Response 200 (Some page_one)] fresh
        = Some (Normal, w')
     /\ temp_file w' = None
     /\ checkpoint (bulk (Some 1) None) w' = None)
  /\ (exists st',
     loop (bulk None (Some may_second)) [Response 200 (Some page_one)]
       (first_call (bulk None (Some may_second))) = Some (Returned StopOldest, st')
     /\ messages st' = [alice_first]
     /\ temp_file (env st') = None).
Proof.
  split.
  - eexists. eexists. split; [vm_compute; reflexivity|].
    split; [reflexivity|]. split; [reflexivity|].
    split; [vm_compute; reflexivity|]. split; reflexivity.
  - eexists. split; [vm_compute; reflexivity|]. split; reflexivity.
Qed.

Lemma checkpoint_after_complete_page_witness :
  checkpoint (bulk None None)
    (env (state_of (loop_body (bulk None None) (Response 200 (Some page_one))
                      (first_call (bulk None None)))))
    = Some {| next_url := Some next_page; num := 1 |}
  /\ temp_file
       (env (state_of (loop_body (bulk (Some 1) None) (Response 200 (Some page_one))
                         (first_call (bulk (Some 1) None)))))
     = None.
Proof.
  split.
  - edestruct (proj1 (checkpoint_after_complete_page (bulk None None) 200 page_one
                        (first_call (bulk None None)) eq_refl))
      as [st3 [Hbody [Hcp [_ Hkeep]]]];
      [vm_compute; reflexivity | vm_compute; reflexivity |].
    rewrite Hbody. unfold checkpoint in *. rewrite Hkeep. exact Hcp.
  - edestruct (proj1 (proj2 (checkpoint_after_complete_page (bulk (Some 1) None) 200
                               page_one (first_call (bulk (Some 1) None)) eq_refl)))
      as [Hbody [_ Htemp]]; [vm_compute; reflexivity|].
    rewrite Hbody. simpl state_of. rewrite Htemp. reflexivity.
Defined.






Lemma forbidden_skips_the_chat_witness :
  download_chat (bulk None None) [Response 403 None] fresh
    = Some (Normal,
            print (PCannotDownload title_T)
              (env (with_env (emit (EvGet (first_url (bulk None None)) true))
                      (first_call (bulk None None)))))
  /\ download_chat (bulk None None) [Response 500 None] fresh
     = Some (Exception (HTTPError 500),
             env (with_env (emit (EvGet (first_url (bulk None None)) true))
                    (first_call (bulk None None)))).
Proof.
  split.
  - apply (proj1 (proj2 (proj2 (forbidden_skips_the_chat (bulk None None)
                                  [Response 403 None] fresh
                                  (first_url (bulk None None)) true fresh 403 _
                                  eq_refl eq_refl))) eq_refl).
  - apply (proj2 (proj2 (proj2 (forbidden_skips_the_chat (bulk None None)
                                  [Response 500 None] fresh
                                  (first_url (bulk None None)) true fresh 500 _
                                  eq_refl eq_refl)))).
    discriminate.
Defined.

Lemma no_limit_when_zero_or_none_witness :
  max_reached (bulk (Some 0) None) 7 = false
  /\ fst <$> loop (bulk (Some 0) None) two_pages (first_call (bulk (Some 0) None))
     <> Some (Returned StopMax).
Proof.
  pose proof (no_limit_when_zero_or_none (bulk (Some 0) None) (or_intror eq_refl))
    as [Hoff Hnever].
  split; [apply Hoff|].
  destruct (loop (bulk (Some 0) None) two_pages (first_call (bulk (Some 0) None)))
    as [[o st']|] eqn:Hrun; [|discriminate].
  intros [= ->]. apply (Hnever _ _ _ _ Hrun). reflexivity.
Defined.

End Runs.

(** ** Finding a chat by name *)

Lemma starts_with_spec (p s : str) :
  starts_with p s = true <-> exists post, s = p ++ post.
Proof.
  revert s. induction p as [|c p IH]; intros s; simpl.
  - split; [intros _; exists s; reflexivity | reflexivity].
  - destruct s as [|d s]; [split; [discriminate | intros [post [=]]]|].
    rewrite andb_true_iff, N.eqb_eq, IH. split.
    + intros [-> [post ->]]. exists post. reflexivity.
    + intros [post [= -> ->]]. split; [reflexivity | exists post; reflexivity].
Qed.

(** [contains] is the test [needle in hay] of Python: [needle] is a run of
    consecutive characters of [hay]. *)
Lemma contains_spec (needle hay : str) :
  contains needle hay = true <-> exists pre post, hay = pre ++ needle ++ post.
Proof.
  induction hay as [|d hay IH]; simpl; rewrite orb_true_iff, starts_with_spec.
  - split.
    + intros [[post Hpost]|]; [|discriminate]. exists [], post. exact Hpost.
    + intros [pre [post Heq]]. left. destruct pre; [exists post; exact Heq|].
      discriminate.
  - rewrite IH. split.
    + intros [[post Hpost]|[pre [post ->]]].
      * exists [], post. exact Hpost.
      * exists (d :: pre), post. reflexivity.
    + intros [pre [post Heq]]. destruct pre as [|e pre].
      * left. exists post. exact Heq.
      * right. injection Heq as _ ->. exists pre, post. reflexivity.
Qed.

Section Finding.
Context `{PythonLib}.

(** X1: [find_chat] returns the first chat of the list whose lower-cased
    name contains the stripped, lower-cased query as a run of consecutive
    characters: a chat is returned exactly when it matches and no chat
    before it in the list does. *)
Theorem find_chat_first_match (chats : list chat) (name : str) (c : chat) :
  (find_chat chats name = Some c <->
     exists before after,
       chats = before ++ c :: after
       /\ name_matches name c = true
       /\ Forall (fun c' => name_matches name c' = false) before)
  /\ (name_matches name c = true <->
      exists pre post, lower (chat_name c) = pre ++ lower (strip name) ++ post).
Proof.
  split; [|apply contains_spec].
  induction chats as [|c' chats IH]; simpl.
  - split; [discriminate|]. intros [before [after [Heq _]]].
    destruct before; discriminate.
  - destruct (name_matches name c') eqn:Hm.
    + split.
      * intros [= ->]. exists [], chats. repeat split; [exact Hm | constructor].
      * intros [before [after [Heq [_ Hnone]]]].
        destruct before as [|b before]; simpl in Heq; [congruence|].
        injection Heq as <- _. inversion Hnone; congruence.
    + rewrite IH. split.
      * intros [before [after [-> [Hc Hnone]]]].
        exists (c' :: before), after. repeat split; [exact Hc|].
        constructor; assumption.
      * intros [before [after [Heq [Hc Hnone]]]].
        destruct before as [|b before]; simpl in Heq;
          [injection Heq as -> _; congruence|].
        injection Heq as <- ->. exists before, after.
        repeat split; [exact Hc|]. inversion Hnone; assumption.
Qed.

(** X2: [find_chat] finds nothing exactly when no chat of the list matches;
    on the empty list it finds nothing. *)
Theorem find_chat_none (chats : list chat) (name : str) :
  find_chat chats name = None
  <-> Forall (fun c => name_matches name c = false) chats.
Proof.
  induction chats as [|c chats IH]; simpl.
  - split; [constructor | reflexivity].
  - destruct (name_matches name c) eqn:Hm.
    + split; [discriminate|]. intros Hall. inversion Hall; congruence.
    + rewrite IH. split.
      * intros Hall. constructor; assumption.
      * intros Hall. inversion Hall; assumption.
Qed.

(** X3: a query of whitespace only (or empty) matches every name, so
    [find_chat] returns the first chat of the list, whatever it is called. *)
Theorem find_chat_blank_query (c : chat) (rest : list chat) (name : str) :
  lower [] = [] ->
  forallb isspace name = true ->
  find_chat (c :: rest) name = Some c.
Proof.
  intros Hlower Hblank.
  assert (Hstrip : strip name = []).
  { unfold strip, rstrip.
    assert (Hl : forall s, forallb isspace s = true -> lstrip s = []).
    { induction s as [|d s IHs]; [reflexivity|]. simpl.
      intros Hs. apply andb_prop in Hs as [-> Hs]. apply IHs, Hs. }
    rewrite (Hl (rev name)) by (rewrite forallb_rev; exact Hblank).
    reflexivity. }
  simpl. unfold name_matches. rewrite Hstrip, Hlower.
  destruct (lower (chat_name c)); reflexivity.
Qed.

End Finding.

(** ** More on the archive writer *)

Section Writer_more.
Context `{PythonLib}.

Lemma flushed_nonempty (title old : str) (batch : list message) :
  nonempty (flushed title old batch) = true.
Proof. unfold flushed. destruct (join _ _); reflexivity. Qed.

(** A completed flush onto a file that is not empty: the block of the
    batch, then the previous text as read. *)
Lemma flushed_block (title old : str) (batch : list message) :
  nonempty old = true ->
  flushed title old batch = block batch ++ universal_newlines old.
Proof.
  intros Hne. unfold flushed, block. rewrite Hne, <- app_assoc. reflexivity.
Qed.

Lemma archive_after_snoc (title old : str) (bs : list (list message))
    (b : list message) :
  archive_after title old (bs ++ [b]) = flushed title (archive_after title old bs) b.
Proof. rewrite archive_after_app. reflexivity. Qed.

Lemma archive_after_nonempty (title old : str) (bs : list (list message)) :
  nonempty old = true -> nonempty (archive_after title old bs) = true.
Proof.
  intros Hne. induction bs as [|b bs IH] using rev_ind; [exact Hne|].
  rewrite archive_after_snoc. apply flushed_nonempty.
Qed.

Lemma block_ends (batch : list message) : ends_with nl (block batch).
Proof.
  unfold block. apply ends_with_app. reflexivity.
Qed.

(** Read back, the archive after some flushes onto a file that was not
    empty is the blocks of the batches, the last one first, and the text
    the file had, all with their line ends as line feeds. *)
Lemma archive_after_read (title old : str) (bs : list (list message)) :
  nonempty old = true ->
  universal_newlines (archive_after title old bs)
    = universal_newlines (concat (map block (rev bs)) ++ old).
Proof.
  intros Hne. induction bs as [|b bs IH] using rev_ind; [reflexivity|].
  rewrite archive_after_snoc, flushed_block by (apply archive_after_nonempty, Hne).
  rewrite rev_app_distr. simpl rev. simpl map. simpl concat.
  rewrite <- app_assoc.
  rewrite !(universal_newlines_app (block b))
    by apply ends_with_not_cr, block_ends.
  rewrite universal_newlines_idem, IH. reflexivity.
Qed.

(** The text of the archive after one flush more. *)
Lemma archive_after_last (title old : str) (bs : list (list message))
    (b : list message) :
  nonempty old = true ->
  archive_after title old (bs ++ [b])
    = block b ++ universal_newlines (concat (map block (rev bs)) ++ old).
Proof.
  intros Hne.
  rewrite archive_after_snoc, flushed_block by (apply archive_after_nonempty, Hne).
  rewrite archive_after_read by exact Hne. reflexivity.
Qed.

(** Calls of [save_msg] that all complete take the archive through the
    flushes of the batches. *)
Lemma save_all_archive (batches : list (list message)) (title : str)
    (folder folder' : gmap str str) :
  save_all batches title folder = Saved folder' ->
  archive title folder' = archive_after title (archive title folder) batches.
Proof.
  revert folder. induction batches as [|b bs IH]; intros folder Hall.
  - injection Hall as <-. reflexivity.
  - simpl in Hall.
    destruct (save_msg b title folder) as [f1|e f1] eqn:Hsave; [|discriminate].
    rewrite (IH _ Hall), (archive_saved _ _ _ _ Hsave). reflexivity.
Qed.

Lemma grown_refl (old : str) : grown old old.
Proof. left. reflexivity. Qed.

Lemma grown_trans (t1 t2 t3 : str) : grown t1 t2 -> grown t2 t3 -> grown t1 t3.
Proof.
  intros [->|(above1 & Hend1 & ->)] [->|(above2 & Hend2 & ->)].
  - left. reflexivity.
  - right. exists above2. split; [exact Hend2 | reflexivity].
  - right. exists above1. split; [exact Hend1 | reflexivity].
  - right. exists (above2 ++ universal_newlines above1). split.
    + apply ends_with_app, universal_newlines_ends, Hend1.
    + rewrite universal_newlines_app by apply ends_with_not_cr, Hend1.
      rewrite universal_newlines_idem, <- app_assoc. reflexivity.
Qed.

Lemma grown_flushed (title old : str) (batch : list message) :
  grown old (flushed title old batch).
Proof.
  right. unfold flushed.
  exists (join [nl; nl]
            ((if nonempty old then [] else [heading title]) ++ entries_of batch)
          ++ [nl; nl]).
  split; [apply ends_with_app; reflexivity|].
  rewrite <- app_assoc. reflexivity.
Qed.

(** Flushes that complete only put text on top of the archive: what was
    there stays below, whole, as reading gives it. *)
Lemma archive_after_grown (title old : str) (bs : list (list message)) :
  grown old (archive_after title old bs).
Proof.
  induction bs as [|b bs IH] using rev_ind; [apply grown_refl|].
  rewrite archive_after_snoc. eapply grown_trans; [exact IH | apply grown_flushed].
Qed.

(** X4: when the batches b1, b2, ..., bn are flushed in turn, each call
    completing, onto an absent or empty archive, the file holds the block of
    bn as it was written (the entries of the batch, last message first, and
    a blank line) and below it, with their line ends as line feeds, the
    blocks of bn-1, ..., b2 and the title heading with the entries of b1:
    every entry once, none lost, the title written once and only by the
    first flush.  Onto a non-empty archive the blocks are put in front of
    the previous text in the same way.  Text without a carriage return
    reads as it was written. *)
Theorem save_msg_sequence (title : str) (first : list message)
    (earlier : list (list message)) (last : list message)
    (folder folder' : gmap str str) :
  let blocks := concat (map block (rev earlier)) in
  let top := join [nl; nl] (heading title :: entries_of first) ++ [nl; nl] in
  (archive title folder = [] ->
     (save_all [first] title folder = Saved folder' ->
      archive title folder' = top)
     /\ (save_all (first :: earlier ++ [last]) title folder = Saved folder' ->
         archive title folder'
         = block last ++ universal_newlines (blocks ++ top)
         /\ (~ In cr (blocks ++ top) ->
             archive title folder' = block last ++ blocks ++ top)))
  /\ (archive title folder <> [] ->
     save_all (earlier ++ [last]) title folder = Saved folder' ->
     archive title folder'
     = block last ++ universal_newlines (blocks ++ archive title folder)
     /\ (~ In cr (blocks ++ archive title folder) ->
         archive title folder' = block last ++ blocks ++ archive title folder)).
Proof.
  intros blocks top.
  assert (Hfirst : forall old, old = [] -> flushed title old first = top).
  { intros old ->. unfold flushed, top. simpl nonempty. cbv iota.
    simpl universal_newlines. rewrite app_nil_r. reflexivity. }
  split; intros Hold.
  - split.
    + intros Hall. apply save_all_archive in Hall. rewrite Hall.
      apply Hfirst, Hold.
    + intros Hall. apply save_all_archive in Hall.
      change (first :: earlier ++ [last]) with ([first] ++ (earlier ++ [last])) in Hall.
      rewrite archive_after_app in Hall.
      change (archive_after title (archive title folder) [first])
        with (flushed title (archive title folder) first) in Hall.
      rewrite (Hfirst _ Hold) in Hall.
      rewrite archive_after_last in Hall
        by (unfold top; destruct (join _ _); reflexivity).
      split; [exact Hall|].
      intros Hcr. unfold blocks in *. rewrite Hall, (universal_newlines_id _ Hcr).
      reflexivity.
  - intros Hall. apply save_all_archive in Hall.
    rewrite archive_after_last in Hall
      by (destruct (archive title folder); [congruence | reflexivity]).
    split; [exact Hall|].
    intros Hcr. unfold blocks in *. rewrite Hall, (universal_newlines_id _ Hcr).
      reflexivity.
Qed.

(** X5: a batch in which every message is skipped (or an empty batch) still
    rewrites the file, and the call completes when the text of the file and,
    for an absent or empty file, the title can be encoded: an absent or
    empty archive becomes the title heading and a blank line, a non-empty
    one gets two line feeds put in front of its text as read; no other file
    changes. *)
Theorem save_msg_nothing_to_write (messages : list message) (title : str)
    (folder : gmap str str) :
  forallb skipped messages = true ->
  encodable (archive title folder) = true ->
  (archive title folder = [] -> encodable title = true) ->
  exists folder',
    save_msg messages title folder = Saved folder'
    /\ archive title folder' =
         (if nonempty (archive title folder) then [] else heading title)
         ++ [nl; nl] ++ universal_newlines (archive title folder)
    /\ forall g, g <> _to_filename title -> folder' !! g = folder !! g.
Proof.
  intros Hall Hold Htitle.
  assert (Hwritable : forallb writable messages = true).
  { clear -Hall. induction messages as [|m ms IH]; [reflexivity|].
    simpl in *. apply andb_prop in Hall as [Hm Hms].
    unfold writable at 1. rewrite (skipped_text_body _ Hm), Hm.
    simpl. apply IH, Hms. }
  eexists. split; [apply save_msg_completes; assumption|].
  split.
  - rewrite archive_insert. unfold flushed, entries_of.
    replace (List.filter (fun m => negb (skipped m)) messages) with (@nil message).
    + destruct (nonempty (archive title folder)); reflexivity.
    + clear -Hall. induction messages as [|m messages IH]; [reflexivity|].
      simpl in *. apply andb_prop in Hall as [-> Hall]. simpl. apply IH, Hall.
  - intros g Hg. apply lookup_insert_ne. congruence.
Qed.

(** X6: two display names with the same letters, digits and spaces, in the
    same order, have the same archive file: a flush under the second name
    that completes goes into the file of the first, in front of what is
    there as read, and writes no title of its own. *)
Theorem same_letters_share_the_archive (t1 t2 : str)
    (b1 b2 : list message) (folder f1 f2 : gmap str str) :
  List.filter (fun c => isalpha c || isdigit c || (c =? space)%N) t1
  = List.filter (fun c => isalpha c || isdigit c || (c =? space)%N) t2 ->
  _to_filename t1 = _to_filename t2
  /\ (save_msg b1 t1 folder = Saved f1 ->
      save_msg b2 t2 f1 = Saved f2 ->
      archive t1 f2 =
        join [nl; nl] (entries_of b2) ++ [nl; nl]
        ++ universal_newlines (archive t1 f1)).
Proof.
  intros Hsame.
  assert (Hfile : _to_filename t1 = _to_filename t2).
  { unfold _to_filename. rewrite Hsame. reflexivity. }
  split; [exact Hfile|].
  intros Hone Htwo.
  assert (Harch : forall f, archive t1 f = archive t2 f).
  { intros f. unfold archive. rewrite Hfile. reflexivity. }
  rewrite (Harch f2), (archive_saved _ _ _ _ Htwo), <- Harch.
  rewrite (archive_saved _ _ _ _ Hone).
  unfold flushed at 1. rewrite flushed_nonempty. reflexivity.
Qed.

End Writer_more.

(** ** More on the download loop *)

Section Loop_more.
Context `{PythonLib}.
Variable a : args.
Local Open Scope Z_scope.

(** *** What a download leaves alone *)

Lemma other_progress_kept_refl (id : str) (w : world) : other_progress_kept id w w.
Proof. split; reflexivity. Qed.

Lemma other_progress_kept_trans (id : str) (w1 w2 w3 : world) :
  other_progress_kept id w1 w2 -> other_progress_kept id w2 w3 ->
  other_progress_kept id w1 w3.
Proof.
  intros [Hl1 Hp1] [Hl2 Hp2]. split; [congruence|].
  intros id' Hid. rewrite Hp2, Hp1 by exact Hid. reflexivity.
Qed.

Lemma other_progress_kept_same (id : str) (w w' : world) :
  temp_file w' = temp_file w -> other_progress_kept id w w'.
Proof. intros Heq. unfold other_progress_kept, read_temp_file. rewrite Heq. split; reflexivity. Qed.

Lemma update_temp_file_keeps (next : option str) (st : state) :
  other_progress_kept (chat_id (the_chat a)) (env st)
    (env (_update_temp_file a next st))
  /\ folder (env (_update_temp_file a next st)) = folder (env st)
  /\ stdin (env (_update_temp_file a next st)) = stdin (env st)
  /\ gets (events (env (_update_temp_file a next st))) = gets (events (env st))
  /\ messages (_update_temp_file a next st) = messages st
  /\ num_requests (_update_temp_file a next st) = num_requests st
  /\ since_confirm (_update_temp_file a next st) = since_confirm st.
Proof.
  repeat split; simpl.
  - intros id' Hid. apply lookup_insert_ne. congruence.
  - rewrite gets_app. simpl. lia.
Qed.

(** One turn of the loop writes to no file of the folder but the archive of
    the chat; in the temp file it changes the progress of this chat only. *)
Lemma loop_body_frame (res : response) (st : state) :
  (forall g, g <> _to_filename (chat_name (the_chat a)) ->
     folder (env (state_of (loop_body a res st))) !! g = folder (env st) !! g)
  /\ other_progress_kept (chat_id (the_chat a)) (env st)
       (env (state_of (loop_body a res st))).
Proof.
  unfold loop_body.
  set (st0 := with_env (emit (EvGet (url st) (params st))) st).
  assert (Hsame : (forall g, g <> _to_filename (chat_name (the_chat a)) ->
                     folder (env st0) !! g = folder (env st) !! g)
                  /\ other_progress_kept (chat_id (the_chat a)) (env st) (env st0)).
  { split; [reflexivity | apply other_progress_kept_same; reflexivity]. }
  destruct res as [code body|]; [|exact Hsame].
  destruct (raise_for_status code); [exact Hsame|].
  destruct body as [data|]; [|exact Hsame].
  destruct (for_records a (value data) st0) as [[why|] st1] eqn:Hrun;
    apply for_records_effect in Hrun as [Hun _];
    destruct Hun as (_ & _ & _ & _ & Htemp & Hfolder & _ & _).
  - simpl state_of. rewrite Hfolder. split; [reflexivity|].
    apply other_progress_kept_same. exact Htemp.
  - destruct (flush_if_large a st1) as [[e|] st2] eqn:Hflush;
      pose proof (flush_if_large_effect _ _ _ _ Hflush)
        as (_ & _ & _ & _ & _ & Htemp1 & _);
      pose proof (flush_if_large_keeps _ _ _ _ Hflush) as (_ & _ & _ & Hfolder1).
    + simpl state_of. split.
      * intros g Hg. rewrite (Hfolder1 g Hg), Hfolder. reflexivity.
      * apply other_progress_kept_same. rewrite Htemp1. exact Htemp.
    + destruct (after_checkpoint_effect a (nextLink data)
                  (_update_temp_file a (nextLink data) st2)) as (Htemp3 & _).
      destruct (after_checkpoint_keeps a (nextLink data)
                  (_update_temp_file a (nextLink data) st2)) as (Hfolder3 & _).
      destruct (update_temp_file_keeps (nextLink data) st2)
        as (Hkept2 & Hfolder2 & _).
      split.
      * intros g Hg. rewrite Hfolder3, Hfolder2, (Hfolder1 g Hg), Hfolder.
        reflexivity.
      * eapply other_progress_kept_trans; [|apply other_progress_kept_same, Htemp3].
        eapply other_progress_kept_trans; [|exact Hkept2].
        apply other_progress_kept_same. rewrite Htemp1. exact Htemp.
Qed.

Lemma loop_frame (trace : list response) (st : state) (o : outcome)
    (st' : state) :
  loop a trace st = Some (o, st') ->
  (forall g, g <> _to_filename (chat_name (the_chat a)) ->
     folder (env st') !! g = folder (env st) !! g)
  /\ other_progress_kept (chat_id (the_chat a)) (env st) (env st').
Proof.
  apply (loop_steps a (fun s s' =>
    (forall g, g <> _to_filename (chat_name (the_chat a)) ->
       folder (env s') !! g = folder (env s) !! g)
    /\ other_progress_kept (chat_id (the_chat a)) (env s) (env s'))).
  - apply loop_body_frame.
  - intros st1 st2 st3 [Hf1 Ht1] [Hf2 Ht2]. split.
    + intros g Hg. rewrite (Hf2 g Hg). apply Hf1, Hg.
    + eapply other_progress_kept_trans; eassumption.
Qed.

(** The first part of [download_chat] changes neither the temp file nor the
    folder. *)
Lemma resume_keeps (w : world) :
  temp_file (world_of (resume a w)) = temp_file w
  /\ folder (world_of (resume a w)) = folder w.
Proof.
  unfold resume.
  destruct (chat_progress (read_temp_file w) !! chat_id (the_chat a))
    as [existing|]; [|split; reflexivity].
  destruct (nonempty (default [] (next_url existing))).
  - unfold input. simpl. destruct (stdin w) as [|line rest]; [split; reflexivity|].
    destruct (answers 121%N line); split; reflexivity.
  - destruct (skip_downloaded a); [split; reflexivity|].
    unfold input. simpl. destruct (stdin w) as [|line rest]; [split; reflexivity|].
    destruct (answers 110%N line); split; reflexivity.
Qed.

Lemma run_loop_frame (trace : list response) (st : state) (c : completion)
    (w' : world) :
  run_loop a trace st = Some (c, w') ->
  (forall g, g <> _to_filename (chat_name (the_chat a)) ->
     folder w' !! g = folder (env st) !! g)
  /\ other_progress_kept (chat_id (the_chat a)) (env st) w'.
Proof.
  intros Hrun.
  destruct (loop a trace st) as [[o st']|] eqn:Hloop;
    [|unfold run_loop in Hrun; rewrite Hloop in Hrun; discriminate].
  pose proof (loop_frame _ _ _ _ Hloop) as [Hfolder Htemp].
  assert (Hsame : forall w1, folder w1 = folder (env st') ->
            temp_file w1 = temp_file (env st') ->
            (forall g, g <> _to_filename (chat_name (the_chat a)) ->
               folder w1 !! g = folder (env st) !! g)
            /\ other_progress_kept (chat_id (the_chat a)) (env st) w1).
  { intros w1 Hf Ht. rewrite Hf. split; [exact Hfolder|].
    eapply other_progress_kept_trans; [exact Htemp|].
    apply other_progress_kept_same, Ht. }
  destruct o as [why|e].
  - destruct (run_loop_returned a _ _ _ _ Hloop)
      as (c' & w'' & Hw & Htemp' & _ & _ & Hcases).
    rewrite Hrun in Hw. injection Hw as <- <-.
    split.
    + intros g Hg. rewrite <- (Hfolder g Hg).
      destruct Hcases as [(_ & _ & Hf & _)
                         |[(_ & _ & Hsave & _)|(_ & e & _ & Hsave & _)]].
      * rewrite Hf. reflexivity.
      * pose proof (save_msg_other (messages st') _ (folder (env st')) g Hg) as Ho.
        rewrite Hsave in Ho. exact Ho.
      * pose proof (save_msg_other (messages st') _ (folder (env st')) g Hg) as Ho.
        rewrite Hsave in Ho. exact Ho.
    + eapply other_progress_kept_trans; [exact Htemp|].
      apply other_progress_kept_same. exact Htemp'.
  - unfold run_loop in Hrun. rewrite Hloop in Hrun.
    destruct e as [code| | | |]; [destruct (code =? 403)| | | |];
      injection Hrun as <- <-; apply Hsame; reflexivity.
Qed.

(** The archive through [download_chat]: the flushes that completed, one
    after the other, unless it ends with [UnicodeEncodeError]. *)
Lemma download_chat_flushes (trace : list response) (w : world)
    (c : completion) (w' : world) :
  download_chat a trace w = Some (c, w') ->
  exists batches,
    handed w' = handed w ++ concat batches
    /\ (c <> Exception UnicodeEncodeError ->
        archive (chat_name (the_chat a)) (folder w')
          = archive_after (chat_name (the_chat a))
              (archive (chat_name (the_chat a)) (folder w)) batches).
Proof.
  unfold download_chat. destruct (resume_keeps w) as [_ Hfolder].
  assert (Hhanded : handed (world_of (resume a w)) = handed w).
  { unfold resume.
    destruct (chat_progress (read_temp_file w) !! chat_id (the_chat a))
      as [existing|]; [|reflexivity].
    destruct (nonempty (default [] (next_url existing))).
    - unfold input. simpl. destruct (stdin w) as [|line rest]; simpl.
      + rewrite !handed_print. reflexivity.
      + destruct (answers 121%N line); simpl;
          unfold handed; simpl; rewrite !saved_batches_app; simpl;
          rewrite !app_nil_r; reflexivity.
    - destruct (skip_downloaded a); [reflexivity|].
      unfold input. simpl. destruct (stdin w) as [|line rest]; simpl.
      + rewrite handed_print. reflexivity.
      + destruct (answers 110%N line); simpl;
          unfold handed; simpl; rewrite !saved_batches_app; simpl;
          rewrite !app_nil_r; reflexivity. }
  destruct (resume a w) as [w0|e w0|u p w0]; simpl in Hfolder, Hhanded.
  - intros [= <- <-]. exists []. rewrite Hfolder, Hhanded, app_nil_r.
    split; reflexivity.
  - intros [= <- <-]. exists []. rewrite Hfolder, Hhanded, app_nil_r.
    split; reflexivity.
  - intros Hrun. apply run_loop_flushes in Hrun as (bs & Hb & Harch).
    exists bs. split.
    + unfold handed. rewrite Hb. simpl events.
      rewrite !saved_batches_app, !concat_app. simpl. rewrite app_nil_r.
      fold (handed w0). rewrite Hhanded. reflexivity.
    + intros Hc. rewrite (Harch Hc). simpl. rewrite Hfolder. reflexivity.
Qed.

(** X7: however [download_chat] ends (normally, skipping the chat, or with
    an exception), no file of the chats folder other than the archive of
    this chat is changed.  Unless it ends with [UnicodeEncodeError], the
    archive has gone through the flushes that completed and no more: it is
    as it was, or the text it had is still there in full, as reading gives
    it, at the end of the text it has now; a text without carriage return
    is there as it was. *)
Theorem download_chat_only_prepends (trace : list response) (w : world)
    (c : completion) (w' : world) :
  download_chat a trace w = Some (c, w') ->
  let title := chat_name (the_chat a) in
  (forall g, g <> _to_filename title -> folder w' !! g = folder w !! g)
  /\ (c <> Exception UnicodeEncodeError ->
      (exists batches,
         handed w' = handed w ++ concat batches
         /\ archive title (folder w')
            = archive_after title (archive title (folder w)) batches)
      /\ (archive title (folder w') = archive title (folder w)
          \/ exists above,
               archive title (folder w')
               = above ++ universal_newlines (archive title (folder w)))
      /\ (~ In cr (archive title (folder w)) ->
          exists above,
            archive title (folder w') = above ++ archive title (folder w))).
Proof.
  intros Hrun title. split.
  - unfold download_chat in Hrun. destruct (resume_keeps w) as [_ Hfolder].
    destruct (resume a w) as [w0|e w0|u p w0]; simpl in Hfolder.
    + injection Hrun as <- <-. rewrite Hfolder. reflexivity.
    + injection Hrun as <- <-. rewrite Hfolder. reflexivity.
    + apply run_loop_frame in Hrun as [Hrun _].
      simpl in Hrun. rewrite Hfolder in Hrun. exact Hrun.
  - intros Hc. apply download_chat_flushes in Hrun as (bs & Hh & Harch).
    specialize (Harch Hc). fold title in Harch.
    split; [exists bs; split; assumption|].
    pose proof (archive_after_grown title (archive title (folder w)) bs) as Hgrown.
    rewrite <- Harch in Hgrown.
    split.
    + destruct Hgrown as [->|(above & _ & ->)]; [left; reflexivity|].
      right. exists above. reflexivity.
    + intros Hcr. destruct Hgrown as [->|(above & _ & ->)].
      * exists []. reflexivity.
      * exists above. rewrite (universal_newlines_id _ Hcr). reflexivity.
Qed.

(** X8: however [download_chat] ends, the temp file keeps its chat list and
    the progress it recorded for every other chat: only the entry of this
    chat is written. *)
Theorem download_chat_keeps_other_progress (trace : list response) (w : world)
    (c : completion) (w' : world) :
  download_chat a trace w = Some (c, w') ->
  chat_list (read_temp_file w') = chat_list (read_temp_file w)
  /\ forall id', id' <> chat_id (the_chat a) ->
       chat_progress (read_temp_file w') !! id'
       = chat_progress (read_temp_file w) !! id'.
Proof.
  unfold download_chat. destruct (resume_keeps w) as [Htemp _].
  destruct (resume a w) as [w0|e w0|u p w0]; simpl in Htemp.
  - intros [= <- <-]. apply other_progress_kept_same, Htemp.
  - intros [= <- <-]. apply other_progress_kept_same, Htemp.
  - intros Hrun. apply run_loop_frame in Hrun as [_ Hrun].
    eapply other_progress_kept_trans; [|exact Hrun].
    apply other_progress_kept_same. exact Htemp.
Qed.

(** *** The last turn *)

(** A turn that ends the loop after the checkpoint: the checkpoint it wrote
    is the one in the temp file, with the link of the page and the count of
    requests. *)
Lemma loop_body_done_checkpoint (res : response) (st : state) (o : outcome)
    (st' : state) :
  loop_body a res st = Done o st' ->
  o = Returned StopComplete \/ o = Returned StopDeclined \/ o = Raised EOFError ->
  exists code data,
    res = Response code (Some data)
    /\ num_requests st' = num_requests st
    /\ checkpoint a (env st')
       = Some {| next_url := nextLink data; num := num_requests st' |}
    /\ (o = Returned StopComplete -> no_link (nextLink data) = true)
    /\ (o <> Returned StopComplete ->
        no_link (nextLink data) = false /\ 0 < ask_continue a).
Proof.
  intros Hbody Ho. apply loop_body_ends in Hbody.
  destruct Hbody as [(_ & [->|(code & body & _ & ->)])
                    |[(code & data & why & _ & Hrun & ->)
                     |[(code & data & st1 & e & _ & _ & Hflush & ->)
                      |(code & data & st1 & st2 & -> & Hrun & Hflush & Hafter)]]].
  - intuition discriminate.
  - intuition discriminate.
  - apply for_records_stop in Hrun.
    destruct Hrun as [->|[-> _]]; intuition discriminate.
  - apply flush_if_large_raises in Hflush as [-> | ->]; intuition discriminate.
  - apply after_checkpoint_done_cases in Hafter as (Hnum & Htemp & Hcases).
    destruct (update_temp_file_checkpoint a (nextLink data) st2) as [Hcp _].
    destruct (update_temp_file_keeps (nextLink data) st2)
      as (_ & _ & _ & _ & _ & Hnum2 & _).
    apply flush_if_large_effect in Hflush as (Hnum1 & _).
    apply for_records_effect in Hrun as [(Hnum0 & _) _]. simpl in Hnum0.
    exists code, data. split; [reflexivity|].
    split; [rewrite Hnum, Hnum2, Hnum1, Hnum0; reflexivity|].
    split.
    + unfold checkpoint in *. rewrite Htemp, Hcp, Hnum, Hnum2. reflexivity.
    + destruct Hcases as [[-> Hlink]|[Hwhy [Hlink Hask]]].
      * split; [intros _; exact Hlink | congruence].
      * split; [|intros _; split; assumption].
        intros ->. destruct Hwhy; discriminate.
Qed.

(** X9: with the confirmation gate off ([ask_continue] not positive, as in
    a bulk run) the loop never reads standard input: the lines waiting there
    are untouched when it ends, it never ends for a refusal of the user, and
    never with the end-of-input exception. *)
Theorem gate_off_never_asks (trace : list response) (st : state) (o : outcome)
    (st' : state) :
  ask_continue a <= 0 ->
  loop a trace st = Some (o, st') ->
  stdin (env st') = stdin (env st)
  /\ o <> Returned StopDeclined
  /\ o <> Raised EOFError.
Proof.
  intros Hoff Hrun. split.
  - revert trace st o st' Hrun.
    apply (loop_steps a (fun s s' => stdin (env s') = stdin (env s))); [|congruence].
    intros res st. unfold loop_body.
    destruct res as [code body|]; [|reflexivity].
    destruct (raise_for_status code); [reflexivity|].
    destruct body as [data|]; [|reflexivity].
    destruct (for_records a (value data) _) as [[why|] st1] eqn:Hrec;
      apply for_records_effect in Hrec as [Hun _];
      destruct Hun as (_ & _ & _ & _ & _ & _ & Hstdin & _).
    + exact Hstdin.
    + destruct (flush_if_large a st1) as [[e|] st2] eqn:Hflush;
        apply flush_if_large_effect in Hflush as (_ & _ & _ & _ & _ & _ & Hin & _).
      * simpl state_of. rewrite Hin. exact Hstdin.
      * destruct (after_checkpoint_keeps a (nextLink data)
                    (_update_temp_file a (nextLink data) st2))
          as (_ & _ & _ & Hkeep).
        rewrite (Hkeep Hoff).
        destruct (update_temp_file_keeps (nextLink data) st2)
          as (_ & _ & -> & _).
        rewrite Hin. exact Hstdin.
  - apply loop_last_turn in Hrun as [res [st1 [_ Hdone]]].
    assert (Hno : o = Returned StopDeclined \/ o = Raised EOFError -> False).
    { intros Ho.
      destruct (loop_body_done_checkpoint res st1 o st' Hdone) as
        (code & data & _ & _ & _ & _ & Hask); [tauto|].
      destruct Hask as [_ Hask]; [destruct Ho; congruence | lia]. }
    split; intros ->; apply Hno; tauto.
Qed.

(** What [after_checkpoint] adds to the effects comes after what was
    there. *)
Lemma after_checkpoint_events (next : option str) (st : state) :
  exists rest,
    events (env (state_of (after_checkpoint a next st))) = events (env st) ++ rest.
Proof.
  unfold after_checkpoint.
  destruct next as [u|]; [destruct (nonempty u)|];
    [destruct ((0 <? ask_continue a) && (since_confirm st =? ask_continue a))| |];
    simpl; try (eexists; reflexivity).
  unfold input. simpl. destruct (stdin (env st)) as [|line rest]; simpl.
  - eexists. reflexivity.
  - destruct (answers 110%N line); simpl; rewrite <- ?app_assoc;
      eexists; reflexivity.
Qed.

(** X10: after every turn that goes round again the buffer holds at most
    [SAVE_EVERY] (250) messages.  The turn read a page to its end; a buffer
    then within [SAVE_EVERY] is kept as it is and the folder is not
    touched; a larger one was handed whole to [save_msg], in a call that
    completed and put these messages in the archive, and was cleared, all
    before the checkpoint of the page was written.  No message collected is
    dropped. *)
Theorem buffer_bounded_between_pages (res : response) (st st' : state) :
  loop_body a res st = Next st' ->
  let title := chat_name (the_chat a) in
  Z.of_nat (length (messages st')) <= SAVE_EVERY
  /\ exists code data st1 rest,
       res = Response code (Some data)
       /\ for_records a (value data)
            (with_env (emit (EvGet (url st) (params st))) st) = (None, st1)
       /\ collected st' = collected st1
       /\ ((Z.of_nat (length (messages st1)) <= SAVE_EVERY
            /\ messages st' = messages st1
            /\ handed (env st') = handed (env st1)
            /\ folder (env st') = folder (env st1)
            /\ events (env st')
               = events (env st1)
                 ++ EvCheckpoint (chat_id (the_chat a)) (nextLink data)
                      (num_requests st) :: rest)
           \/ (SAVE_EVERY < Z.of_nat (length (messages st1))
               /\ messages st' = []
               /\ handed (env st') = handed (env st1) ++ messages st1
               /\ save_msg (messages st1) title (folder (env st1))
                  = Saved (folder (env st'))
               /\ archive title (folder (env st'))
                  = flushed title (archive title (folder (env st1))) (messages st1)
               /\ events (env st')
                  = events (env st1)
                    ++ EvSave (messages st1) title
                       :: EvCheckpoint (chat_id (the_chat a)) (nextLink data)
                            (num_requests st) :: rest)).
Proof.
  intros Hnext title.
  apply loop_body_next in Hnext
    as (code & data & st1 & st2 & -> & _ & Hrec & Hflush & Hafter).
  destruct (after_checkpoint_effect a (nextLink data)
              (_update_temp_file a (nextLink data) st2)) as (_ & _ & Hms & Hcol).
  destruct (after_checkpoint_keeps a (nextLink data)
              (_update_temp_file a (nextLink data) st2)) as (Hfolder & _ & Hb & _).
  destruct (after_checkpoint_events (nextLink data)
              (_update_temp_file a (nextLink data) st2)) as [rest Hev].
  rewrite Hafter in Hms, Hcol, Hfolder, Hb, Hev. simpl state_of in *.
  destruct (update_temp_file_effect a (nextLink data) st2) as (_ & Hms2 & Hcol2).
  pose proof (flush_if_large_effect _ _ _ _ Hflush)
    as (Hnum1 & _ & _ & _ & _ & _ & _ & Hcol1).
  pose proof (flush_if_large_keeps _ _ _ _ Hflush) as (_ & Hsmall & _).
  pose proof (for_records_effect _ _ _ _ _ Hrec) as [(Hnum0 & _) _].
  simpl in Hnum0.
  split; [rewrite Hms, Hms2; apply Hsmall; reflexivity|].
  exists code, data, st1, rest. split; [reflexivity|]. split; [exact Hrec|].
  split; [rewrite Hcol, Hcol2, Hcol1; reflexivity|].
  assert (Hh : handed (env st') = handed (env st2)).
  { unfold handed. rewrite Hb. simpl. rewrite saved_batches_app. simpl.
    rewrite app_nil_r. reflexivity. }
  simpl in Hev, Hfolder.
  apply flush_if_large_cases in Hflush.
  destruct Hflush as [(Hle & _ & ->)|(Hlarge & Hsave & Hclear & Hev1)].
  - left. split; [exact Hle|]. split; [rewrite Hms, Hms2; reflexivity|].
    split; [exact Hh|]. split; [exact Hfolder|].
    rewrite Hev, <- app_assoc, Hnum0. reflexivity.
  - right. split; [exact Hlarge|]. split; [rewrite Hms, Hms2; exact Hclear|].
    split.
    { rewrite Hh. unfold handed. rewrite Hev1, saved_batches_app, concat_app.
      simpl. rewrite app_nil_r. reflexivity. }
    rewrite Hfolder. split; [exact Hsave|].
    split; [apply archive_saved, Hsave|].
    rewrite Hev, Hev1, <- !app_assoc, Hnum1, Hnum0. reflexivity.
Qed.

(** *** Counting the requests *)

Lemma after_checkpoint_num (next : option str) (st : state) :
  num_requests (state_of (after_checkpoint a next st)) =
    num_requests st
    + match after_checkpoint a next st with Next _ => 1 | Done _ _ => 0 end.
Proof.
  unfold after_checkpoint.
  destruct next as [u|]; [destruct (nonempty u)|]; simpl; try lia.
  destruct ((0 <? ask_continue a) && (since_confirm st =? ask_continue a));
    simpl; [|lia].
  unfold input. simpl. destruct (stdin (env st)) as [|line rest]; simpl; [lia|].
  destruct (answers 110%N line); simpl; lia.
Qed.

(** Every turn makes one request; [num_requests] moves on when the loop
    goes round again. *)
Lemma loop_body_requests (res : response) (st : state) :
  gets (events (env (state_of (loop_body a res st)))) = gets (events (env st)) + 1
  /\ num_requests (state_of (loop_body a res st)) =
       num_requests st
       + match loop_body a res st with Next _ => 1 | Done _ _ => 0 end.
Proof.
  unfold loop_body.
  set (st0 := with_env (emit (EvGet (url st) (params st))) st).
  assert (Hget : gets (events (env st0)) = gets (events (env st)) + 1).
  { subst st0. simpl. rewrite gets_app. simpl. lia. }
  destruct res as [code body|]; [|simpl; split; [exact Hget | lia]].
  destruct (raise_for_status code); [simpl; split; [exact Hget | lia]|].
  destruct body as [data|]; [|simpl; split; [exact Hget | lia]].
  destruct (for_records a (value data) st0) as [[why|] st1] eqn:Hrun;
    pose proof (for_records_gets _ _ _ _ _ Hrun) as [Hg _];
    apply for_records_effect in Hrun as [(Hnum & _) _]; simpl in Hnum.
  - simpl. split; [congruence | lia].
  - destruct (flush_if_large a st1) as [[e|] st2] eqn:Hflush;
      pose proof (flush_if_large_keeps _ _ _ _ Hflush) as (Hg1 & _);
      apply flush_if_large_effect in Hflush as (Hnum1 & _).
    + simpl. split; lia.
    + destruct (after_checkpoint_keeps a (nextLink data)
                  (_update_temp_file a (nextLink data) st2))
        as (_ & Hg3 & _).
      destruct (update_temp_file_keeps (nextLink data) st2)
        as (_ & _ & _ & Hg2 & _ & Hnum2 & _).
      split; [lia|].
      rewrite after_checkpoint_num, Hnum2, Hnum1, Hnum. reflexivity.
Qed.

Lemma loop_requests (trace : list response) (st : state) (o : outcome)
    (st' : state) :
  loop a trace st = Some (o, st') ->
  gets (events (env st')) - gets (events (env st))
    = num_requests st' - num_requests st + 1
  /\ 1 <= gets (events (env st')) - gets (events (env st)) <= Z.of_nat (length trace).
Proof.
  revert st. induction trace as [|res trace IH]; intros st Hrun; [discriminate|].
  simpl in Hrun. destruct (loop_body_requests res st) as [Hg Hn].
  destruct (loop_body a res st) as [st1|o1 st1]; simpl in Hg, Hn.
  - apply IH in Hrun as [Heq Hle]. simpl length. lia.
  - injection Hrun as <- <-. simpl length. lia.
Qed.

(** X11: [num_requests] is the number of requests made: when the loop
    called by [download_chat] ends, in any way, its counter equals the
    number of requests of this run, which is at least one and at most the
    number of responses; and when the loop ends after the checkpoint of a
    page (the pages are over, or the user refuses), that is the number the
    temp file records for the chat. *)
Theorem requests_are_counted (trace : list response) (u : str) (p : bool)
    (w : world) (o : outcome) (st' : state) :
  loop a trace (initial a u p w) = Some (o, st') ->
  num_requests st' = gets (events (env st')) - gets (events w)
  /\ 1 <= num_requests st' <= Z.of_nat (length trace)
  /\ (o = Returned StopComplete \/ o = Returned StopDeclined ->
      num <$> checkpoint a (env st') = Some (num_requests st')).
Proof.
  intros Hrun. pose proof (loop_requests _ _ _ _ Hrun) as [Heq Hle].
  simpl in Heq, Hle. rewrite gets_app in Heq, Hle. simpl in Heq, Hle.
  split; [lia|]. split; [lia|].
  intros Ho. apply loop_last_turn in Hrun as [res [st1 [_ Hdone]]].
  destruct (loop_body_done_checkpoint res st1 o st' Hdone) as
    (code & data & _ & _ & Hcp & _); [tauto|].
  rewrite Hcp. reflexivity.
Qed.

(** *** The next run *)

Lemma checkpoint_read (w : world) (pr : progress) :
  checkpoint a w = Some pr ->
  chat_progress (read_temp_file w) !! chat_id (the_chat a) = Some pr.
Proof.
  unfold checkpoint, read_temp_file. destruct (temp_file w); [tauto | discriminate].
Qed.

(** After a [return] of the loop [download_chat] ends, normally or with the
    exception of the last [save_msg], and writes no more to the temp file;
    it ends normally when the buffer can be written. *)
Lemma run_loop_returned_temp (trace : list response) (st : state) (why : stop)
    (st' : state) :
  loop a trace st = Some (Returned why, st') ->
  exists c w',
    run_loop a trace st = Some (c, w')
    /\ temp_file w' = temp_file (env st')
    /\ (c = Normal \/ c = Exception AttributeError
        \/ c = Exception UnicodeEncodeError)
    /\ (forallb writable (messages st') = true ->
        encodable (archive (chat_name (the_chat a)) (folder (env st'))) = true ->
        (archive (chat_name (the_chat a)) (folder (env st')) = [] ->
         encodable (chat_name (the_chat a)) = true) ->
        c = Normal).
Proof.
  intros Hrun.
  destruct (run_loop_returned a _ _ _ _ Hrun) as (c & w' & Hw & Htemp & _ & _ & Hcases).
  exists c, w'. split; [exact Hw|]. split; [exact Htemp|].
  destruct Hcases as [(_ & -> & _)|[(_ & -> & _)|(_ & e & -> & Hsave & _)]];
    [tauto | tauto |].
  split.
  - apply save_msg_raised in Hsave. destruct Hsave as [[-> _]|[-> _]]; tauto.
  - intros Hall Hold Htitle.
    rewrite (save_msg_completes _ _ _ Hall Hold Htitle) in Hsave. discriminate.
Qed.

(** X12: once a download has ended because the pages were over, the temp
    file records a progress without next link for the chat, and a later
    [download_chat] that skips downloaded chats (as [--download-all] does)
    returns at once: no request, no prompt, nothing printed or written,
    whatever the server would answer.  The first download ends normally
    when its last flush completes, and otherwise with the exception of that
    flush. *)
Theorem completed_chat_is_skipped (trace : list response) (w : world)
    (u : str) (p : bool) (w0 : world) (st' : state) :
  resume a w = Go u p w0 ->
  loop a trace (initial a u p w0) = Some (Returned StopComplete, st') ->
  skip_downloaded a = true ->
  exists c w',
    download_chat a trace w = Some (c, w')
    /\ (c = Normal \/ c = Exception AttributeError
        \/ c = Exception UnicodeEncodeError)
    /\ (forallb writable (messages st') = true ->
        encodable (archive (chat_name (the_chat a)) (folder (env st'))) = true ->
        (archive (chat_name (the_chat a)) (folder (env st')) = [] ->
         encodable (chat_name (the_chat a)) = true) ->
        c = Normal)
    /\ forall later, download_chat a later w' = Some (Normal, w').
Proof.
  intros Hgo Hrun Hskip.
  destruct (run_loop_returned_temp _ _ _ _ Hrun) as (c & w' & Hw' & Htemp & Hc & Hwhen).
  exists c, w'. split; [unfold download_chat; rewrite Hgo; exact Hw'|].
  split; [exact Hc|]. split; [exact Hwhen|].
  apply loop_last_turn in Hrun as [res [st1 [_ Hdone]]].
  destruct (loop_body_done_checkpoint res st1 _ st' Hdone) as
    (code & data & _ & _ & Hcp & Hlink & _); [tauto|].
  specialize (Hlink eq_refl).
  assert (Hcp' : checkpoint a w'
                 = Some {| next_url := nextLink data; num := num_requests st' |}).
  { unfold checkpoint in *. rewrite Htemp. exact Hcp. }
  apply checkpoint_read in Hcp'.
  intros later. unfold download_chat, resume. rewrite Hcp'. simpl next_url.
  unfold no_link in Hlink. apply negb_true_iff in Hlink. rewrite Hlink, Hskip.
  reflexivity.
Qed.

(** X13: once a download has ended at the user's refusal, the temp file
    records the link of the next page, and the next [download_chat] offers
    to continue: on an answer starting with [y] it requests that link,
    without the page-size parameter; on any other answer it starts again
    from the first page.  The first download ends normally when its last
    flush completes, and otherwise with the exception of that flush. *)
Theorem refused_chat_is_resumed (trace : list response) (w : world)
    (u : str) (p : bool) (w0 : world) (st' : state) :
  resume a w = Go u p w0 ->
  loop a trace (initial a u p w0) = Some (Returned StopDeclined, st') ->
  exists c w' next,
    download_chat a trace w = Some (c, w')
    /\ (c = Normal \/ c = Exception AttributeError
        \/ c = Exception UnicodeEncodeError)
    /\ (forallb writable (messages st') = true ->
        encodable (archive (chat_name (the_chat a)) (folder (env st'))) = true ->
        (archive (chat_name (the_chat a)) (folder (env st')) = [] ->
         encodable (chat_name (the_chat a)) = true) ->
        c = Normal)
    /\ nonempty next = true
    /\ checkpoint a w' = Some {| next_url := Some next; num := num_requests st' |}
    /\ forall w2 line rest,
         temp_file w2 = temp_file w' ->
         stdin w2 = line :: rest ->
         exists w3,
           stdin w3 = rest
           /\ resume a w2 =
                if answers 121%N line then Go next false w3
                else Go (first_url a) true w3.
Proof.
  intros Hgo Hrun.
  destruct (run_loop_returned_temp _ _ _ _ Hrun) as (c & w' & Hw' & Htemp & Hc & Hwhen).
  apply loop_last_turn in Hrun as [res [st1 [_ Hdone]]].
  destruct (loop_body_done_checkpoint res st1 _ st' Hdone) as
    (code & data & _ & _ & Hcp & _ & Hlink); [tauto|].
  destruct Hlink as [Hlink _]; [discriminate|].
  unfold no_link in Hlink. apply negb_false_iff in Hlink.
  destruct (nextLink data) as [next|] eqn:Hnext; [|discriminate].
  simpl in Hlink.
  assert (Hcp' : checkpoint a w'
                 = Some {| next_url := Some next; num := num_requests st' |}).
  { unfold checkpoint in *. rewrite Htemp. exact Hcp. }
  exists c, w', next. split; [unfold download_chat; rewrite Hgo; exact Hw'|].
  split; [exact Hc|]. split; [exact Hwhen|].
  split; [exact Hlink|]. split; [exact Hcp'|].
  intros w2 line rest Htemp2 Hstdin.
  assert (Hcp2 : checkpoint a w2
                 = Some {| next_url := Some next; num := num_requests st' |}).
  { unfold checkpoint in *. rewrite Htemp2. exact Hcp'. }
  apply checkpoint_read in Hcp2.
  unfold resume. rewrite Hcp2. simpl next_url. simpl default. rewrite Hlink.
  unfold input. simpl stdin. rewrite Hstdin.
  eexists. split; [|destruct (answers 121%N line); reflexivity]. reflexivity.
Qed.

(** *** What the loop accepts *)

(** X14: a record whose type is not [message] has no effect at all: it is
    not counted, not logged and not tested against the oldest date, so a
    page, and a run of the loop, go the same way with or without it. *)
Theorem other_types_are_ignored (pre post : list raw_record) (r : raw_record)
    (ty : pyval) :
  messageType r = Some ty ->
  ty <> PStr (lit "message") ->
  (forall st, for_records a (pre ++ r :: post) st = for_records a (pre ++ post) st)
  /\ forall code next rest st,
       loop a (Response code (Some {| value := pre ++ r :: post; nextLink := next |})
               :: rest) st
       = loop a (Response code (Some {| value := pre ++ post; nextLink := next |})
                 :: rest) st.
Proof.
  intros Hty Hne.
  assert (Hfor : forall st,
            for_records a (pre ++ r :: post) st = for_records a (pre ++ post) st).
  { intros st. rewrite !for_records_app.
    destruct (for_records a pre st) as [[why|] st1]; [reflexivity|].
    rewrite for_records_cons. unfold try_record. rewrite Hty.
    rewrite bool_decide_eq_false_2 by exact Hne. reflexivity. }
  split; [exact Hfor|].
  intros code next rest st. simpl loop. unfold loop_body. simpl value.
  rewrite Hfor. reflexivity.
Qed.

Lemma to_message_fields (r : raw_record) (m : message) :
  to_message r = Some m ->
  from_user_displayName r = Some (msg_from m)
  /\ body_content r = Some (msg_body m)
  /\ attachments r = Some (msg_attachments m)
  /\ createdDateTime r = Some (msg_time m).
Proof.
  unfold to_message.
  destruct (from_user_displayName r), (body_content r), (attachments r),
    (createdDateTime r); try discriminate.
  intros [= <-]. repeat split.
Qed.

(** What it takes for the [try] block to accept a record. *)
Lemma try_record_accepted (r : raw_record) (m : message) :
  try_record a r = Accepted m ->
  messageType r = Some (PStr (lit "message"))
  /\ to_message r = Some m
  /\ forall cutoff, oldest_date a = Some cutoff -> not_before cutoff m.
Proof.
  unfold try_record, build.
  destruct (messageType r) as [ty|]; [|discriminate].
  destruct (bool_decide_reflect (ty = PStr (lit "message"))) as [->|]; [|discriminate].
  destruct (oldest_date a) as [oldest|].
  - destruct (createdDateTime r) as [[|iso| |]|] eqn:Hiso; try discriminate.
    destruct (load_date iso) as [d|] eqn:Hd; [|discriminate].
    destruct (date_gt oldest d) eqn:Hgt; [discriminate|].
    destruct (to_message r) as [m'|] eqn:Hm; [|discriminate].
    intros [= ->]. split; [reflexivity|]. split; [reflexivity|].
    intros cutoff [= <-]. exists iso, d.
    apply to_message_fields in Hm as (_ & _ & _ & Htime).
    rewrite Hiso in Htime. injection Htime as <-. repeat split; assumption.
  - destruct (to_message r) as [m'|]; [|discriminate].
    intros [= ->]. repeat split. discriminate.
Qed.

Lemma for_records_new (rs : list raw_record) (st : state) (r : option stop)
    (st' : state) :
  for_records a rs st = (r, st') ->
  exists new,
    messages st' = messages st ++ new
    /\ Forall (fun m => exists rec, In rec rs /\ try_record a rec = Accepted m) new.
Proof.
  revert st. induction rs as [|rec rs IH]; intros st Hrun.
  - injection Hrun as _ <-. exists []. rewrite app_nil_r. split; [reflexivity | constructor].
  - rewrite for_records_cons in Hrun.
    assert (Hweak : forall new,
              Forall (fun m => exists rec', In rec' rs /\ try_record a rec' = Accepted m) new ->
              Forall (fun m => exists rec', In rec' (rec :: rs)
                                            /\ try_record a rec' = Accepted m) new).
    { intros new Hnew. eapply Forall_impl; [exact Hnew|]. intros m [rec' [Hin Hacc]].
      exists rec'. split; [right; exact Hin | exact Hacc]. }
    destruct (try_record a rec) as [| |m|] eqn:Htry.
    + apply IH in Hrun as [new [Hms Hall]]. exists new. split; [exact Hms | apply Hweak, Hall].
    + injection Hrun as _ <-. exists []. simpl. rewrite app_nil_r.
      split; [reflexivity | constructor].
    + assert (Hm : exists rec', In rec' (rec :: rs) /\ try_record a rec' = Accepted m).
      { exists rec. split; [left; reflexivity | exact Htry]. }
      destruct (max_reached a (tot_msg (accept m st))).
      * injection Hrun as _ <-. exists [m]. simpl.
        split; [reflexivity | constructor; [exact Hm | constructor]].
      * apply IH in Hrun as [new [Hms Hall]]. exists (m :: new).
        simpl in Hms. rewrite Hms, <- app_assoc.
        split; [reflexivity | constructor; [exact Hm | apply Hweak, Hall]].
    + apply IH in Hrun as [new [Hms Hall]]. exists new. split; [exact Hms | apply Hweak, Hall].
Qed.

Lemma records_of_cons (res : response) (trace : list response) :
  records_of (res :: trace) = records_of [res] ++ records_of trace.
Proof.
  destruct res as [code [data|]|]; simpl; rewrite ?app_nil_r; reflexivity.
Qed.

Lemma loop_new (trace : list response) (st : state) (o : outcome) (st' : state) :
  loop a trace st = Some (o, st') ->
  exists new,
    collected st' = collected st ++ new
    /\ Forall (fun m =>
         exists rec,
           In rec (records_of (received trace (events (env st)) (events (env st'))))
           /\ try_record a rec = Accepted m) new.
Proof.
  revert st. induction trace as [|res trace IH]; intros st Hrun; [discriminate|].
  pose proof (loop_requests _ _ _ _ Hrun) as [_ Hcount].
  rewrite loop_cons in Hrun.
  assert (Hstep : exists new,
            collected (state_of (loop_body a res st)) = collected st ++ new
            /\ Forall (fun m => exists rec, In rec (records_of [res])
                                            /\ try_record a rec = Accepted m) new).
  { assert (Hnone : forall st1, collected st1 = collected st ->
              exists new, collected st1 = collected st ++ new
                /\ Forall (fun m => exists rec, In rec (records_of [res])
                                                /\ try_record a rec = Accepted m) new).
    { intros st1 Hc. exists []. rewrite app_nil_r. split; [exact Hc | constructor]. }
    unfold loop_body. pose proof (collected_get st) as Hget.
    set (st0 := with_env (emit (EvGet (url st) (params st))) st) in *.
    destruct res as [code body|]; [|apply Hnone, Hget].
    destruct (raise_for_status code) eqn:Hcode; [apply Hnone, Hget|].
    destruct body as [data|]; [|apply Hnone, Hget].
    destruct (for_records a (value data) st0) as [[why|] st1] eqn:Hrec;
      pose proof (for_records_new _ _ _ _ Hrec) as [new [Hms Hall]];
      apply for_records_effect in Hrec as [Hun _];
      destruct Hun as (_ & _ & _ & _ & _ & _ & _ & Hhanded);
      exists new; simpl records_of; rewrite Hcode, app_nil_r;
      (split; [|exact Hall]).
    - simpl state_of. unfold collected. rewrite Hhanded, Hms, app_assoc.
      fold (collected st0). rewrite Hget. reflexivity.
    - assert (Hst1 : collected st1 = collected st ++ new).
      { unfold collected. rewrite Hhanded, Hms, app_assoc. fold (collected st0).
        rewrite Hget. reflexivity. }
      destruct (flush_if_large a st1) as [[e|] st2] eqn:Hflush;
        apply flush_if_large_effect in Hflush as (_ & _ & _ & _ & _ & _ & _ & Hc2).
      + simpl state_of. rewrite Hc2. exact Hst1.
      + destruct (after_checkpoint_effect a (nextLink data)
                    (_update_temp_file a (nextLink data) st2))
          as (_ & _ & _ & ->).
        destruct (update_temp_file_effect a (nextLink data) st2) as (_ & _ & ->).
        rewrite Hc2. exact Hst1. }
  destruct Hstep as [new [Hc Hall]].
  destruct (loop_body_requests res st) as [Hg _].
  unfold received.
  destruct (loop_body a res st) as [st1|o1 st1]; simpl in Hc, Hg.
  - pose proof (loop_requests _ _ _ _ Hrun) as [_ Hcount1].
    apply IH in Hrun as [new' [Hc' Hall']]. unfold received in Hall'.
    assert (Hk : Z.to_nat (gets (events (env st')) - gets (events (env st)))
                 = S (Z.to_nat (gets (events (env st')) - gets (events (env st1)))))
      by lia.
    rewrite Hk. change (take (S ?k) (res :: trace)) with (res :: take k trace).
    rewrite records_of_cons.
    exists (new ++ new').
    rewrite Hc', Hc, <- app_assoc. split; [reflexivity|].
    apply Forall_app. split.
    + eapply Forall_impl; [exact Hall|]. intros m [rec [Hin Hacc]].
      exists rec. split; [apply in_or_app; left; exact Hin | exact Hacc].
    + eapply Forall_impl; [exact Hall'|]. intros m [rec [Hin Hacc]].
      exists rec. split; [apply in_or_app; right; exact Hin | exact Hacc].
  - injection Hrun as <- <-.
    assert (Hk : Z.to_nat (gets (events (env st1)) - gets (events (env st))) = 1%nat)
      by lia.
    rewrite Hk. change (take 1 (res :: trace)) with (res :: take 0 trace).
    rewrite take_0. exists new. split; [exact Hc | exact Hall].
Qed.

(** X15: every message the loop collects (in the buffer, or handed to
    [save_msg]) is a record of type [message] of one of the pages received
    in this run, that is, of the body of a response to one of its requests
    that came without an error status, with its sender, body, attachments
    and time copied unchanged: nothing is made up, and no record of another
    type or missing a field gets in. *)
Theorem collected_messages_are_records (trace : list response) (st : state)
    (o : outcome) (st' : state) :
  loop a trace st = Some (o, st') ->
  exists new,
    collected st' = collected st ++ new
    /\ Forall (fun m =>
         exists r,
           In r (records_of (received trace (events (env st)) (events (env st'))))
           /\ messageType r = Some (PStr (lit "message"))
           /\ from_user_displayName r = Some (msg_from m)
           /\ body_content r = Some (msg_body m)
           /\ attachments r = Some (msg_attachments m)
           /\ createdDateTime r = Some (msg_time m)) new.
Proof.
  intros Hrun. apply loop_new in Hrun as [new [Hc Hall]].
  exists new. split; [exact Hc|].
  eapply Forall_impl; [exact Hall|]. intros m [r [Hin Hacc]].
  apply try_record_accepted in Hacc as (Hty & Hm & _).
  apply to_message_fields in Hm. exists r. tauto.
Qed.

(** X16: with an oldest date configured, every message the loop collects is
    dated on or after that day: no run, however it ends, puts an older
    message in the buffer or hands one to [save_msg]. *)
Theorem nothing_older_is_collected (cutoff : date) (trace : list response)
    (st : state) (o : outcome) (st' : state) :
  oldest_date a = Some cutoff ->
  loop a trace st = Some (o, st') ->
  exists new,
    collected st' = collected st ++ new /\ Forall (not_before cutoff) new.
Proof.
  intros Hold Hrun. apply loop_new in Hrun as [new [Hc Hall]].
  exists new. split; [exact Hc|].
  eapply Forall_impl; [exact Hall|]. intros m [r [_ Hacc]].
  apply try_record_accepted in Hacc as (_ & _ & Hdate). apply Hdate, Hold.
Qed.

(** *** The limit, whatever else happens *)

Local Ltac no_change :=
  split; [lia|]; split;
    [intros; first [discriminate | lia]
    | intros Hx; first [lia | contradiction Hx; reflexivity]].

Lemma for_records_bound (n : Z) (rs : list raw_record) (st : state)
    (r : option stop) (st' : state) :
  max_messages a = Some n ->
  n <> 0 ->
  for_records a rs st = (r, st') ->
  tot_msg st <= tot_msg st' <= Z.max n (tot_msg st + 1)
  /\ (r = Some StopMax -> n <= tot_msg st' /\ tot_msg st < tot_msg st')
  /\ (r <> Some StopMax -> tot_msg st' = tot_msg st \/ tot_msg st' < n).
Proof.
  intros Hmax Hn. revert st. induction rs as [|rec rs IH]; intros st Hrun.
  - injection Hrun as <- <-. no_change.
  - rewrite for_records_cons in Hrun.
    destruct (try_record a rec) as [| |m|].
    + apply IH, Hrun.
    + injection Hrun as <- <-. simpl. no_change.
    + unfold max_reached in Hrun. rewrite Hmax in Hrun. simpl tot_msg in Hrun.
      destruct (Z.eqb_spec n 0); [contradiction|]. simpl negb in Hrun.
      simpl andb in Hrun.
      destruct (Z.leb_spec n (tot_msg st + 1)).
      * injection Hrun as <- <-. simpl. no_change.
      * apply IH in Hrun as (Hle & Hstop & Hgo). simpl in Hle, Hstop, Hgo.
        split; [lia|]. split.
        { intros Hr. specialize (Hstop Hr). lia. }
        intros Hr. specialize (Hgo Hr). lia.
    + apply IH in Hrun. exact Hrun.
Qed.

Lemma loop_bound (n : Z) (trace : list response) (st : state) (o : outcome)
    (st' : state) :
  max_messages a = Some n ->
  n <> 0 ->
  loop a trace st = Some (o, st') ->
  tot_msg st <= tot_msg st' <= Z.max n (tot_msg st + 1)
  /\ (o = Returned StopMax -> n <= tot_msg st' /\ tot_msg st < tot_msg st')
  /\ (o <> Returned StopMax -> tot_msg st' = tot_msg st \/ tot_msg st' < n).
Proof.
  intros Hmax Hn. revert st.
  induction trace as [|res trace IH]; intros st Hrun; [discriminate|].
  rewrite loop_cons in Hrun.
  destruct (loop_body a res st) as [st1|o1 st1] eqn:Hbody.
  - assert (Hturn : tot_msg st <= tot_msg st1
                    /\ (tot_msg st1 = tot_msg st \/ tot_msg st1 < n)).
    { apply loop_body_next in Hbody
        as (code & data & st2 & st3 & _ & _ & Hrec & Hflush & Hafter).
      pose proof (for_records_bound n _ _ _ _ Hmax Hn Hrec) as (Hle & _ & Hgo).
      simpl in Hle, Hgo.
      destruct (after_checkpoint_effect a (nextLink data)
                  (_update_temp_file a (nextLink data) st3))
        as (_ & Ht3 & _).
      rewrite Hafter in Ht3. simpl in Ht3.
      apply flush_if_large_effect in Hflush as (_ & _ & Ht1 & _).
      rewrite Ht3, Ht1. split; [lia|]. apply Hgo. discriminate. }
    apply IH in Hrun as (Hle & Hstop & Hgo).
    split; [lia|]. split.
    { intros Ho. specialize (Hstop Ho). lia. }
    intros Ho. specialize (Hgo Ho). lia.
  - injection Hrun as <- <-. apply loop_body_ends in Hbody.
    destruct Hbody as [(-> & Ho)
                      |[(code & data & why & _ & Hrec & ->)
                       |[(code & data & st2 & e & _ & Hrec & Hflush & ->)
                        |(code & data & st2 & st3 & _ & Hrec & Hflush & Hafter)]]].
    + simpl. split; [lia|]. split.
      * intros ->. destruct Ho as [Ho|(? & ? & _ & Ho)]; discriminate.
      * intros _. left. reflexivity.
    + pose proof (for_records_bound n _ _ _ _ Hmax Hn Hrec) as (Hle & Hstop & Hgo).
      simpl in Hle, Hgo, Hstop.
      split; [lia|]. split.
      { intros [= ->]. specialize (Hstop eq_refl). lia. }
      intros Ho. apply Hgo. congruence.
    + pose proof (for_records_bound n _ _ _ _ Hmax Hn Hrec) as (Hle & _ & Hgo).
      simpl in Hle, Hgo.
      apply flush_if_large_effect in Hflush as (_ & _ & Ht1 & _).
      rewrite Ht1. split; [lia|]. split; [discriminate|].
      intros _. apply Hgo. discriminate.
    + pose proof (for_records_bound n _ _ _ _ Hmax Hn Hrec) as (Hle & _ & Hgo).
      simpl in Hle, Hgo.
      destruct (after_checkpoint_effect a (nextLink data)
                  (_update_temp_file a (nextLink data) st3))
        as (_ & Ht3 & _).
      rewrite Hafter in Ht3. simpl in Ht3.
      apply flush_if_large_effect in Hflush as (_ & _ & Ht1 & _).
      rewrite Ht3, Ht1.
      apply after_checkpoint_done in Hafter.
      split; [lia|]. split.
      { intros ->. destruct Hafter as [|[|]]; discriminate. }
      intros _. apply Hgo. discriminate.
Qed.

(** X17: with a limit other than zero, the loop called by [download_chat]
    never accepts more messages than the limit, however it ends (a stop by
    date, a refusal, an error, the end of the pages): with a positive limit
    N it ends with at most N accepted, and with exactly N exactly when it
    ends at the [return] of the limit; a negative limit ends it at the first
    message accepted. *)
Theorem limit_is_never_exceeded (n : Z) (trace : list response) (u : str)
    (p : bool) (w : world) (o : outcome) (st' : state) :
  max_messages a = Some n ->
  n <> 0 ->
  loop a trace (initial a u p w) = Some (o, st') ->
  0 <= tot_msg st' <= Z.max n 1
  /\ (0 < n -> (o = Returned StopMax <-> tot_msg st' = n))
  /\ (n < 0 -> (o = Returned StopMax <-> tot_msg st' = 1)).
Proof.
  intros Hmax Hn Hrun.
  apply (loop_bound n) in Hrun as (Hle & Hstop & Hgo); [|assumption ..].
  simpl in Hle, Hgo, Hstop. split; [lia|]. split; intros Hsign; split.
  - intros Ho. specialize (Hstop Ho). lia.
  - intros Htot. destruct o as [[| | |]|e]; try reflexivity;
      (destruct Hgo as [Hgo|Hgo]; [discriminate | lia | lia]).
  - intros Ho. specialize (Hstop Ho). lia.
  - intros Htot. destruct o as [[| | |]|e]; try reflexivity;
      (destruct Hgo as [Hgo|Hgo]; [discriminate | lia | lia]).
Qed.

(** *** The confirmation gate *)

Lemma in_step_asks (n : Z) (st : state) :
  0 < n -> in_step n st ->
  (since_confirm st =? n) = (num_requests st mod n =? 0).
Proof.
  intros Hn [Hrange Hmod].
  destruct (Z.eqb_spec (since_confirm st) n) as [Heq|Hne].
  - rewrite Heq in Hmod. symmetry. apply Z.eqb_eq.
    rewrite <- (Z.mod_add _ (-1) n) in Hmod by lia.
    replace (num_requests st - n + -1 * n) with (num_requests st + (-2) * n) in Hmod by lia.
    rewrite Z.mod_add in Hmod by lia. exact Hmod.
  - symmetry. apply Z.eqb_neq. intros Hzero.
    assert (Hs : since_confirm st mod n = 0).
    { replace (since_confirm st)
        with (num_requests st - (num_requests st - since_confirm st)) by lia.
      rewrite Zminus_mod, Hzero, Hmod. reflexivity. }
    rewrite Z.mod_small in Hs by lia. lia.
Qed.

Lemma after_checkpoint_in_step (next : option str) (st st' : state) :
  0 < ask_continue a ->
  after_checkpoint a next st = Next st' ->
  in_step (ask_continue a) st ->
  in_step (ask_continue a) st'.
Proof.
  intros Hn Hnext [Hrange Hmod]. unfold after_checkpoint in Hnext.
  destruct next as [v|]; [|discriminate].
  destruct (nonempty v); [|discriminate].
  destruct (Z.ltb_spec 0 (ask_continue a)); [|lia]. simpl andb in Hnext.
  destruct (Z.eqb_spec (since_confirm st) (ask_continue a)) as [Heq|Hne].
  - unfold input in Hnext. simpl in Hnext.
    destruct (stdin (env st)) as [|line rest]; [discriminate|].
    destruct (answers 110%N line); [discriminate|].
    injection Hnext as <-. unfold in_step. simpl.
    split; [lia|]. rewrite Heq in Hmod.
    replace (num_requests st + 1 - (0 + 1))
      with (num_requests st - ask_continue a + 1 * ask_continue a) by lia.
    rewrite Z.mod_add by lia. exact Hmod.
  - injection Hnext as <-. unfold in_step. simpl.
    split; [lia|].
    replace (num_requests st + 1 - (since_confirm st + 1))
      with (num_requests st - since_confirm st) by lia.
    exact Hmod.
Qed.

(** X18: with a gate every n requests (n positive), the loop called by
    [download_chat] asks the user exactly after the requests whose number
    is a multiple of n.  [since_confirm] starts in step with
    [num_requests] and every turn that goes round again keeps it so; in
    step, a page with a next link is followed by the question exactly when
    the number of requests is a multiple of n, and otherwise the loop goes
    on without reading the console. *)
Theorem gate_every_n_requests (u : str) (st : state) :
  0 < ask_continue a ->
  in_step (ask_continue a) st ->
  nonempty u = true ->
  (forall u0 p w, in_step (ask_continue a) (initial a u0 p w))
  /\ (forall res st', loop_body a res st = Next st' -> in_step (ask_continue a) st')
  /\ (num_requests st mod ask_continue a <> 0 ->
      after_checkpoint a (Some u) st = Next (advance u st))
  /\ (num_requests st mod ask_continue a = 0 ->
      forall line rest, stdin (env st) = line :: rest ->
        exists st2,
          stdin (env st2) = rest
          /\ after_checkpoint a (Some u) st =
               if answers 110%N line then Done (Returned StopDeclined) st2
               else Next (advance u (reset_since_confirm st2))).
Proof.
  intros Hn Hstep Hu.
  pose proof (in_step_asks _ _ Hn Hstep) as Hasks.
  split; [|split; [|split]].
  - intros u0 p w. unfold in_step. simpl. split; [lia|]. reflexivity.
  - intros res st' Hbody.
    apply loop_body_next in Hbody
      as (code & data & st1 & st2 & _ & _ & Hrec & Hflush & Hafter).
    apply for_records_effect in Hrec as [(Hnum & Hsince & _) _].
    simpl in Hnum, Hsince.
    apply flush_if_large_effect in Hflush as (Hnum1 & Hsince1 & _).
    apply (after_checkpoint_in_step _ _ _ Hn) in Hafter; [exact Hafter|].
    destruct Hstep as [Hrange Hmod]. unfold in_step. simpl.
    rewrite Hnum1, Hsince1, Hnum, Hsince. split; assumption.
  - intros Hmod. unfold after_checkpoint. rewrite Hu, Hasks.
    destruct (Z.eqb_spec (num_requests st mod ask_continue a) 0); [contradiction|].
    rewrite andb_false_r. reflexivity.
  - intros Hmod line rest Hstdin. unfold after_checkpoint. rewrite Hu, Hasks, Hmod.
    destruct (Z.ltb_spec 0 (ask_continue a)); [|lia]. simpl andb. cbv iota.
    unfold input. simpl stdin. rewrite Hstdin.
    eexists. split; [|destruct (answers 110%N line); reflexivity]. reflexivity.
Qed.

(** *** When a download is cut short *)

(** X19: the buffer is lost when a request fails after a page was
    checkpointed.  If a page is consumed whole (fewer than [SAVE_EVERY]
    messages buffered, gate off) and the next request is answered with an
    error status, [download_chat] ends (normally for 403, with the exception
    otherwise) without calling [save_msg]: the folder is as before the page
    and nothing more was handed over, yet the temp file already records the
    link after that page, so its messages are in no file and a resumed run
    does not fetch them again. *)
Theorem buffer_lost_on_error (code code' : Z) (data : page) (body : option page)
    (u : str) (rest : list response) (st st1 : state) :
  raise_for_status code = false ->
  raise_for_status code' = true ->
  for_records a (value data) (with_env (emit (EvGet (url st) (params st))) st)
    = (None, st1) ->
  Z.of_nat (length (messages st1)) <= SAVE_EVERY ->
  nextLink data = Some u ->
  nonempty u = true ->
  ask_continue a <= 0 ->
  exists w',
    run_loop a (Response code (Some data) :: Response code' body :: rest) st
      = Some (if code' =? 403 then Normal else Exception (HTTPError code'), w')
    /\ folder w' = folder (env st)
    /\ handed w' = handed (env st)
    /\ checkpoint a w' = Some {| next_url := Some u; num := num_requests st |}.
Proof.
  intros Hcode Hcode' Hrec Hsmall Hnext Hu Hoff.
  pose proof (for_records_effect a _ _ _ _ Hrec) as [Hun _].
  destruct Hun as (Hnum & _ & _ & _ & _ & Hfolder & _ & Hhanded).
  simpl in Hnum, Hfolder, Hhanded.
  assert (Hloop : loop a (Response code (Some data) :: Response code' body :: rest) st
            = Some (Raised (HTTPError code'),
                    with_env (emit (EvGet u false))
                      (advance u (_update_temp_file a (Some u) st1)))).
  { assert (Hfirst : loop_body a (Response code (Some data)) st
                       = Next (advance u (_update_temp_file a (Some u) st1))).
    { assert (Hid : flush_if_large a st1 = (None, st1)).
      { unfold flush_if_large.
        destruct (Z.ltb_spec SAVE_EVERY (Z.of_nat (length (messages st1))));
          [lia | reflexivity]. }
      unfold loop_body. rewrite Hcode, Hrec, Hid, Hnext.
      unfold after_checkpoint. rewrite Hu.
      replace (0 <? ask_continue a) with false by (symmetry; apply Z.ltb_ge, Hoff).
      reflexivity. }
    cbn [loop]. rewrite Hfirst. unfold loop_body. rewrite Hcode'. reflexivity. }
  unfold run_loop. rewrite Hloop.
  assert (Hh : handed (env (with_env (emit (EvGet u false))
                              (advance u (_update_temp_file a (Some u) st1))))
               = handed (env st)).
  { unfold handed in *. simpl in *.
    rewrite !saved_batches_app in *. simpl in *.
    rewrite ?app_nil_r in *. exact Hhanded. }
  destruct (code' =? 403); eexists; (split; [reflexivity|]).
  - split; [exact Hfolder|]. split; [rewrite handed_print; exact Hh|].
    unfold checkpoint. simpl. rewrite lookup_insert_eq, Hnum. reflexivity.
  - split; [exact Hfolder|]. split; [exact Hh|].
    unfold checkpoint. simpl. rewrite lookup_insert_eq, Hnum. reflexivity.
Qed.

(** X20: a chat whose progress in the temp file holds a next link is never
    downloaded without asking: [download_chat] prints what it found and
    reads an answer before any request, also when it is told to skip
    downloaded chats and with the gate off (as [--download-all] calls it);
    with nothing left on standard input it ends with the end-of-input
    exception, having made no request and changed no file. *)
Theorem partial_progress_always_asks (w : world) (pr : progress)
    (trace : list response) :
  checkpoint a w = Some pr ->
  nonempty (default [] (next_url pr)) = true ->
  (stdin w = [] ->
     exists w', download_chat a trace w = Some (Exception EOFError, w')
                /\ gets (events w') = gets (events w)
                /\ folder w' = folder w /\ temp_file w' = temp_file w)
  /\ (forall line rest, stdin w = line :: rest ->
        exists w3, stdin w3 = rest
          /\ resume a w =
               if answers 121%N line
               then Go (default [] (next_url pr)) false w3
               else Go (first_url a) true w3).
Proof.
  intros Hcp Hlink. apply checkpoint_read in Hcp. split.
  - intros Hstdin. unfold download_chat, resume. rewrite Hcp, Hlink.
    unfold input. simpl stdin. rewrite Hstdin.
    eexists. split; [reflexivity|]. simpl. rewrite !gets_app. simpl.
    repeat split. lia.
  - intros line rest Hstdin. unfold resume. rewrite Hcp, Hlink.
    unfold input. simpl stdin. rewrite Hstdin.
    eexists. split; [|destruct (answers 121%N line); reflexivity]. reflexivity.
Qed.

End Loop_more.

(** ** A download that runs to the end of the pages *)

Section Complete.
Local Open Scope Z_scope.
Context `{PythonLib}.
Variable a : args.
Hypothesis no_limit : max_messages a = None \/ max_messages a = Some 0.
Hypothesis no_oldest : oldest_date a = None.
Hypothesis unattended : ask_continue a <= 0.

Lemma never_too_old (r : raw_record) : try_record a r <> TooOld.
Proof using no_oldest.
  unfold try_record, build. rewrite no_oldest.
  destruct (messageType r); [|discriminate].
  destruct (bool_decide _); [|discriminate].
  destruct (to_message r); discriminate.
Qed.

Lemma for_records_all (rs : list raw_record) (st : state) :
  exists st1,
    for_records a rs st = (None, st1)
    /\ messages st1 = messages st ++ omap (accepted a) rs.
Proof using no_limit no_oldest.
  assert (Hoff : forall tot, max_reached a tot = false).
  { intros tot. unfold max_reached. destruct no_limit as [-> | ->]; reflexivity. }
  revert st. induction rs as [|r rs IH]; intros st.
  - exists st. split; [reflexivity | symmetry; apply app_nil_r].
  - rewrite for_records_cons.
    assert (Hcons : omap (accepted a) (r :: rs) =
              match accepted a r with
              | Some m => m :: omap (accepted a) rs
              | None => omap (accepted a) rs
              end) by reflexivity.
    rewrite Hcons. clear Hcons.
    pose proof (never_too_old r) as Hold.
    destruct (try_record a r) as [| |m|] eqn:Htry; [| contradiction | |].
    + replace (accepted a r) with (@None message)
        by (unfold accepted; rewrite Htry; reflexivity).
      apply IH.
    + replace (accepted a r) with (Some m)
        by (unfold accepted; rewrite Htry; reflexivity).
      rewrite Hoff. destruct (IH (accept m st)) as [st1 [Hrun Hms]].
      exists st1. split; [exact Hrun|]. rewrite Hms. simpl.
      rewrite <- app_assoc. reflexivity.
    + replace (accepted a r) with (@None message)
        by (unfold accepted; rewrite Htry; reflexivity).
      destruct (IH (with_env (print (PErrorOn r)) st)) as [st1 [Hrun Hms]].
      exists st1. split; [exact Hrun | exact Hms].
Qed.

Lemma after_checkpoint_no_link (next : option str) (st : state) :
  no_link next = true ->
  after_checkpoint a next st
    = Done (Returned StopComplete) (with_env (print PComplete) st).
Proof.
  unfold no_link, after_checkpoint. destruct next as [u|]; [|reflexivity].
  simpl. destruct (nonempty u); [discriminate | reflexivity].
Qed.

(** What can be written stays so through a flush, which then completes. *)
Lemma flush_if_large_writable (st : state) (r : option exn) (st' : state) :
  flush_if_large a st = (r, st') ->
  let title := chat_name (the_chat a) in
  forallb writable (messages st) = true ->
  encodable (archive title (folder (env st))) = true ->
  (archive title (folder (env st)) = [] -> encodable title = true) ->
  r = None
  /\ forallb writable (messages st') = true
  /\ encodable (archive title (folder (env st'))) = true
  /\ (archive title (folder (env st')) = [] -> encodable title = true).
Proof.
  intros Hflush title Hall Hold Htitle.
  apply flush_if_large_cases in Hflush.
  destruct Hflush as [(_ & -> & ->)|[_ Hcases]]; [repeat split; assumption|].
  fold title in Hcases.
  pose proof (save_msg_completes (messages st) title (folder (env st))
                Hall Hold Htitle) as Hsaved.
  destruct r as [e|]; destruct Hcases as (Hsave & Hms & _).
  - rewrite Hsaved in Hsave. discriminate.
  - pose proof (save_msg_saved _ _ _ _ Hsave) as (_ & _ & Henc).
    rewrite (archive_saved _ _ _ _ Hsave), Hms.
    split; [reflexivity|]. split; [reflexivity|]. split; [exact Henc|].
    intros Hnil. pose proof (flushed_nonempty title (archive title (folder (env st)))
                               (messages st)) as Hne.
    rewrite Hnil in Hne. discriminate.
Qed.

Lemma forallb_app_l {A} (f : A -> bool) (l1 l2 : list A) :
  forallb f (l1 ++ l2) = true -> forallb f l1 = true /\ forallb f l2 = true.
Proof. rewrite forallb_app. apply andb_prop. Qed.

(** Served to the end, the loop ends because the pages are over, having
    collected every message it can accept of every page in the order of the
    stream, unless a flush on the way raises.  A buffer that stays within
    [SAVE_EVERY] is never flushed on the way; and no flush raises when all
    the messages can be written and the text of the archive and the title
    can be encoded. *)
Lemma loop_served (trace : list response) (st : state) :
  served trace = true ->
  let title := chat_name (the_chat a) in
  let all := omap (accepted a) (stream trace) in
  exists o st',
    loop a trace st = Some (o, st')
    /\ (o = Returned StopComplete \/ o = Raised AttributeError
        \/ o = Raised UnicodeEncodeError)
    /\ (o = Returned StopComplete -> collected st' = collected st ++ all)
    /\ (Z.of_nat (length (messages st) + length all) <= SAVE_EVERY ->
        o = Returned StopComplete
        /\ messages st' = messages st ++ all
        /\ folder (env st') = folder (env st))
    /\ (forallb writable (messages st ++ all) = true ->
        encodable (archive title (folder (env st))) = true ->
        (archive title (folder (env st)) = [] -> encodable title = true) ->
        o = Returned StopComplete
        /\ forallb writable (messages st') = true
        /\ encodable (archive title (folder (env st'))) = true
        /\ (archive title (folder (env st')) = [] -> encodable title = true)).
Proof using no_limit no_oldest unattended.
  intros Hserved title. revert st Hserved.
  induction trace as [|res trace IH]; intros st Hserved; [discriminate|].
  destruct res as [code [data|]|]; simpl in Hserved; try discriminate.
  apply andb_prop in Hserved as [Hcode Hrest]. apply negb_true_iff in Hcode.
  rewrite loop_cons, (loop_body_page _ _ _ _ Hcode). cbn [stream]. rewrite Hcode.
  pose proof (collected_get st) as Hget.
  set (st0 := with_env (emit (EvGet (url st) (params st))) st) in *.
  destruct (for_records_all (value data) st0) as [st1 [Hrec Hms]].
  rewrite Hrec.
  pose proof (for_records_effect a _ _ _ _ Hrec) as [Hun _].
  destruct Hun as (_ & _ & _ & _ & _ & Hfolder & _ & Hhanded).
  assert (Hcol1 : collected st1 = collected st ++ omap (accepted a) (value data)).
  { unfold collected at 1. rewrite Hhanded, Hms, app_assoc. fold (collected st0).
    rewrite Hget. reflexivity. }
  change (messages st0) with (messages st) in Hms.
  change (folder (env st0)) with (folder (env st)) in Hfolder.
  rewrite omap_app, length_app.
  set (page_all := omap (accepted a) (value data)) in *.
  set (rest_all :=
         omap (accepted a)
           (if nonempty (default [] (nextLink data)) then stream trace else [])).
  destruct (flush_if_large a st1) as [[e|] st2] eqn:Hflush.
  { (* the flush raises *)
    eexists _, _. split; [reflexivity|].
    split; [apply flush_if_large_raises in Hflush as [-> | ->]; tauto|].
    split; [discriminate|]. split.
    - intros Hle. exfalso.
      apply flush_if_large_cases in Hflush as [(_ & Habs & _)|[Hlarge _]];
        [discriminate|].
      rewrite Hms, length_app in Hlarge. lia.
    - intros Hall Hold Htitle. exfalso.
      rewrite app_assoc in Hall. apply forallb_app_l in Hall as [Hall _].
      rewrite <- Hms in Hall. rewrite <- Hfolder in Hold, Htitle.
      destruct (flush_if_large_writable _ _ _ Hflush Hall Hold Htitle) as [Habs _].
      discriminate. }
  pose proof (flush_if_large_effect _ _ _ _ Hflush)
    as (_ & _ & _ & _ & _ & _ & _ & Hcol2).
  pose proof (flush_if_large_writable _ _ _ Hflush) as Hwritable2.
  assert (Hsmall2 : Z.of_nat (length (messages st1)) <= SAVE_EVERY ->
                    messages st2 = messages st1 /\ folder (env st2) = folder (env st1)).
  { intros Hle. apply flush_if_large_cases in Hflush as [(_ & _ & ->)|[Hlarge _]];
      [split; reflexivity | lia]. }
  pose proof (flush_if_large_keeps _ _ _ _ Hflush) as (_ & _ & Hlen2 & _).
  destruct (update_temp_file_effect a (nextLink data) st2) as (_ & Hms3 & Hcol3).
  set (st3 := _update_temp_file a (nextLink data) st2) in *.
  assert (Hf3 : folder (env st3) = folder (env st2)) by reflexivity.
  destruct (nonempty (default [] (nextLink data))) eqn:Hlink.
  - destruct (nextLink data) as [u|] eqn:Hnext; [|discriminate]. simpl in Hlink.
    unfold after_checkpoint. rewrite Hlink.
    replace (0 <? ask_continue a) with false by (symmetry; apply Z.ltb_ge, unattended).
    simpl andb. cbv iota.
    destruct (IH (advance u st3) Hrest) as (o & st' & Hloop & Ho & Hcol & Hsmall & Hgood).
    destruct (advance_effect u st3) as [_ Hadv].
    change (messages (advance u st3)) with (messages st3) in Hsmall, Hgood.
    change (folder (env (advance u st3))) with (folder (env st3)) in Hsmall, Hgood.
    exists o, st'. split; [exact Hloop|]. split; [exact Ho|]. split; [|split].
    + intros Hdone. rewrite (Hcol Hdone), Hadv, Hcol3, Hcol2, Hcol1, <- app_assoc.
      reflexivity.
    + intros Hle.
      destruct Hsmall2 as [Hms2 Hf2]; [rewrite Hms, length_app; lia|].
      destruct Hsmall as (Hdone & Hms' & Hf').
      { rewrite Hms3, Hms2, Hms, length_app. unfold rest_all in Hle. lia. }
      split; [exact Hdone|].
      rewrite Hms', Hf', Hms3, Hf3, Hms2, Hf2, Hms, Hfolder, <- app_assoc.
      split; reflexivity.
    + intros Hall Hold Htitle.
      rewrite app_assoc, <- Hms in Hall. apply forallb_app_l in Hall as [Hall1 Hall2].
      rewrite <- Hfolder in Hold, Htitle.
      destruct (Hwritable2 Hall1 Hold Htitle) as (_ & Hall2' & Hold2 & Htitle2).
      apply Hgood.
      * rewrite Hms3, forallb_app, Hall2'. exact Hall2.
      * rewrite Hf3. exact Hold2.
      * rewrite Hf3. exact Htitle2.
  - fold (after_checkpoint a (nextLink data) st3).
    rewrite after_checkpoint_no_link by (unfold no_link; rewrite Hlink; reflexivity).
    eexists _, _. split; [reflexivity|]. split; [tauto|].
    change (messages (with_env (print PComplete) st3)) with (messages st3).
    change (folder (env (with_env (print PComplete) st3))) with (folder (env st3)).
    unfold rest_all. simpl omap. simpl length. rewrite !app_nil_r.
    split; [|split].
    + intros _. unfold collected at 1.
      change (messages (with_env (print PComplete) st3)) with (messages st3).
      change (env (with_env (print PComplete) st3)) with (print PComplete (env st3)).
      rewrite handed_print. fold (collected st3).
      rewrite Hcol3, Hcol2, Hcol1. reflexivity.
    + intros Hle.
      destruct Hsmall2 as [Hms2 Hf2]; [rewrite Hms, length_app; lia|].
      split; [reflexivity|].
      rewrite Hms3, Hf3, Hms2, Hf2, Hms, Hfolder. split; reflexivity.
    + intros Hall Hold Htitle. rewrite <- Hms in Hall.
      rewrite <- Hfolder in Hold, Htitle.
      destruct (Hwritable2 Hall Hold Htitle) as (_ & Hall2' & Hold2 & Htitle2).
      split; [reflexivity|]. rewrite Hms3, Hf3. repeat split; assumption.
Qed.

(** X21: a first download of a chat, with no limit, no oldest date and the
    gate off, against a server that answers every request with a page up to
    a page without next link, ends normally or with the exception of a
    [save_msg] that raised.  When it ends normally, every message the loop
    can accept of every page has been handed to [save_msg], each once and
    in the order of the stream, the archive has gone through the flushes of
    these messages in batches, and the temp file records a progress without
    next link for the chat.  It ends normally when all these messages can
    be written and the text of the archive and the title can be encoded. *)
Theorem complete_download_hands_over_everything (trace : list response)
    (w : world) :
  chat_progress (read_temp_file w) !! chat_id (the_chat a) = None ->
  served trace = true ->
  let title := chat_name (the_chat a) in
  let all := omap (accepted a) (stream trace) in
  exists c w',
    download_chat a trace w = Some (c, w')
    /\ (c = Normal \/ c = Exception AttributeError
        \/ c = Exception UnicodeEncodeError)
    /\ (c = Normal ->
        handed w' = handed w ++ all
        /\ (exists batches,
              concat batches = all
              /\ archive title (folder w')
                 = archive_after title (archive title (folder w)) batches)
        /\ exists pr, checkpoint a w' = Some pr /\ no_link (next_url pr) = true)
    /\ (forallb writable all = true ->
        encodable (archive title (folder w)) = true ->
        (archive title (folder w) = [] -> encodable title = true) ->
        c = Normal).
Proof using no_limit no_oldest unattended.
  intros Hnew Hserved title all.
  assert (Hgo : download_chat a trace w
                = run_loop a trace (initial a (first_url a) true w)).
  { unfold download_chat, resume. rewrite Hnew. reflexivity. }
  destruct (loop_served trace (initial a (first_url a) true w) Hserved)
    as (o & st' & Hloop & Ho & Hcol & _ & Hgood).
  fold title all in Hcol, Hgood.
  assert (Hinit : collected (initial a (first_url a) true w) = handed w).
  { unfold collected. simpl. rewrite handed_print. apply app_nil_r. }
  rewrite Hinit in Hcol. simpl messages in Hgood. simpl folder in Hgood.
  destruct (run_loop_total a _ _ _ _ Hloop) as (c & w' & Hrun).
  exists c, w'. rewrite Hgo. split; [exact Hrun|].
  destruct Ho as [->|Hraised].
  - destruct (run_loop_returned_temp a _ _ _ _ Hloop)
      as (c' & w'' & Hrun' & Htemp & Hc & Hwhen).
    rewrite Hrun in Hrun'. injection Hrun' as <- <-.
    split; [exact Hc|]. split.
    + intros ->.
      destruct (run_loop_returned a _ _ _ _ Hloop)
        as (c' & w'' & Hrun' & _ & _ & _ & Hcases).
      rewrite Hrun in Hrun'. injection Hrun' as Hc' <-.
      assert (Hall : handed w' = handed w ++ all).
      { rewrite <- (Hcol eq_refl).
        destruct Hcases as [(_ & _ & _ & Hh & _)
                           |[(_ & _ & _ & Hh & _)|(_ & e & Habs & _)]];
          [exact Hh | exact Hh | congruence]. }
      split; [exact Hall|]. split.
      * destruct (run_loop_flushes a _ _ _ _ Hrun) as (bs & Hb & Harch).
        exists bs. split; [|apply Harch; discriminate].
        assert (Hh : handed w' = handed w ++ concat bs).
        { unfold handed. rewrite Hb. simpl events.
          rewrite !saved_batches_app, !concat_app. simpl. rewrite app_nil_r.
          reflexivity. }
        rewrite Hall in Hh. apply app_inv_head in Hh. symmetry. exact Hh.
      * apply loop_last_turn in Hloop as [res [st1 [_ Hdone]]].
        destruct (loop_body_done_checkpoint a res st1 _ st' Hdone) as
          (code & data & _ & _ & Hcp & Hlink & _); [tauto|].
        eexists. split.
        -- unfold checkpoint in *. rewrite Htemp. exact Hcp.
        -- apply Hlink. reflexivity.
    + intros Hall Hold Htitle.
      destruct (Hgood Hall Hold Htitle) as (_ & Hall' & Hold' & Htitle').
      apply Hwhen; assumption.
  - assert (Hc : c = Exception AttributeError \/ c = Exception UnicodeEncodeError).
    { unfold run_loop in Hrun. rewrite Hloop in Hrun.
      destruct Hraised as [-> | ->]; injection Hrun as <- _; tauto. }
    split; [tauto|]. split.
    + intros ->. destruct Hc; discriminate.
    + intros Hall Hold Htitle.
      destruct (Hgood Hall Hold Htitle) as (Habs & _).
      destruct Hraised as [-> | ->]; discriminate.
Qed.

(** X22: the archive of a chat downloaded whole in one run.  When such a
    download (as in X21) accepts at least one message and at most
    [SAVE_EVERY], [save_msg] is called once, at the end.  When that call
    completes, as it does when the messages can be written and the text of
    the archive and the title can be encoded, the download ends normally
    and the text of the archive is the title heading (when the file was
    absent or empty), then one entry for each accepted message that is not
    skipped, in the reverse of the order in which the server served them,
    then a blank line and the text the file had before, as read.  When the
    call raises, the download ends with that exception. *)
Theorem small_chat_archive (trace : list response) (w : world) :
  chat_progress (read_temp_file w) !! chat_id (the_chat a) = None ->
  served trace = true ->
  let title := chat_name (the_chat a) in
  let all := omap (accepted a) (stream trace) in
  all <> [] ->
  Z.of_nat (length all) <= SAVE_EVERY ->
  exists c w',
    download_chat a trace w = Some (c, w')
    /\ (c = Normal \/ c = Exception AttributeError
        \/ c = Exception UnicodeEncodeError)
    /\ (c = Normal ->
        archive title (folder w') =
          join [nl; nl]
            ((if nonempty (archive title (folder w)) then [] else [heading title])
             ++ rev (map entry (List.filter (fun m => negb (skipped m)) all)))
          ++ [nl; nl] ++ universal_newlines (archive title (folder w)))
    /\ (forallb writable all = true ->
        encodable (archive title (folder w)) = true ->
        (archive title (folder w) = [] -> encodable title = true) ->
        c = Normal).
Proof using no_limit no_oldest unattended.
  intros Hnew Hserved title all Hsome Hsmall.
  assert (Hgo : download_chat a trace w
                = run_loop a trace (initial a (first_url a) true w)).
  { unfold download_chat, resume. rewrite Hnew. reflexivity. }
  destruct (loop_served trace (initial a (first_url a) true w) Hserved)
    as (o & st' & Hloop & _ & _ & Hkeep & _).
  fold all in Hkeep.
  destruct Hkeep as (-> & Hms & Hfolder); [simpl; lia|].
  simpl in Hms, Hfolder.
  destruct (run_loop_returned a _ _ _ _ Hloop)
    as (c & w' & Hrun & _ & _ & _ & Hcases).
  exists c, w'. rewrite Hgo. split; [exact Hrun|].
  rewrite Hms, Hfolder in Hcases. fold title in Hcases.
  destruct Hcases as [(Habs & _)
                     |[(_ & -> & Hsave & _)|(_ & e & -> & Hsave & _)]].
  - contradiction.
  - split; [tauto|]. split; [|reflexivity].
    intros _. apply (archive_saved _ _ _ _ Hsave).
  - pose proof (save_msg_raised _ _ _ _ _ Hsave) as He.
    split; [destruct He as [[-> _]|[-> _]]; tauto|].
    split; [intros Habs; discriminate|].
    intros Hall Hold Htitle.
    rewrite (save_msg_completes _ _ _ Hall Hold Htitle) in Hsave. discriminate.
Qed.

End Complete.

(** ** The [--download-all] run *)

Section Bulk.
Local Open Scope Z_scope.
Context `{PythonLib}.
Variable max_msg : option Z.
Variable oldest : option date.

Lemma download_chat_frame (a : args) (trace : list response) (w : world)
    (c : completion) (w' : world) :
  download_chat a trace w = Some (c, w') ->
  (forall g, g <> _to_filename (chat_name (the_chat a)) ->
     folder w' !! g = folder w !! g)
  /\ other_progress_kept (chat_id (the_chat a)) w w'.
Proof.
  unfold download_chat. destruct (resume_keeps a w) as [Htemp Hfolder].
  destruct (resume a w) as [w0|e w0|u p w0]; simpl in Htemp, Hfolder.
  - intros [= <- <-]. rewrite Hfolder.
    split; [reflexivity | apply other_progress_kept_same, Htemp].
  - intros [= <- <-]. rewrite Hfolder.
    split; [reflexivity | apply other_progress_kept_same, Htemp].
  - intros Hrun. apply run_loop_frame in Hrun as [Hf Ht]. simpl in Hf.
    rewrite Hfolder in Hf. split; [exact Hf|].
    eapply other_progress_kept_trans; [|exact Ht].
    apply other_progress_kept_same. exact Htemp.
Qed.

(** After the download of one chat that does not end with
    [UnicodeEncodeError], a file, whichever it is, is as it was or has its
    text, as read, at the end of what it holds now. *)
Lemma download_chat_keeps_every_archive (a : args) (trace : list response)
    (w : world) (c : completion) (w' : world) (title : str) :
  download_chat a trace w = Some (c, w') ->
  c <> Exception UnicodeEncodeError ->
  grown (archive title (folder w)) (archive title (folder w')).
Proof.
  intros Hrun Hc.
  pose proof (download_chat_frame _ _ _ _ _ Hrun) as [Hother _].
  apply download_chat_flushes in Hrun as (bs & _ & Harch).
  specialize (Harch Hc).
  destruct (decide (_to_filename title = _to_filename (chat_name (the_chat a))))
    as [Heq|Hne].
  - assert (Hsame : forall f, archive title f = archive (chat_name (the_chat a)) f).
    { intros f. unfold archive. rewrite Heq. reflexivity. }
    rewrite !Hsame, Harch. apply archive_after_grown.
  - unfold archive. rewrite Hother by exact Hne. apply grown_refl.
Qed.

(** X23: a [--download-all] run that does not end with
    [UnicodeEncodeError] takes no text away: every archive file is as it
    was, or keeps the text it had, as reading gives it, at the end of what
    it holds after the run, below text that ends a line; a text without
    carriage return is kept as it was.  However the run ends, a file that
    is the archive of none of the chats of the run is unchanged, and the
    temp file keeps its chat list and the progress of every chat that is
    not in the run. *)
Theorem download_all_only_adds (chats : list (chat * list response))
    (w : world) (c : completion) (w' : world) :
  download_all max_msg oldest chats w = Some (c, w') ->
  (c <> Exception UnicodeEncodeError ->
   forall title,
     (archive title (folder w') = archive title (folder w)
      \/ exists above,
           ends_with nl above
           /\ archive title (folder w')
              = above ++ universal_newlines (archive title (folder w)))
     /\ (~ In cr (archive title (folder w)) ->
         exists above,
           archive title (folder w') = above ++ archive title (folder w)))
  /\ (forall g,
        Forall (fun ct => g <> _to_filename (chat_name (fst ct))) chats ->
        folder w' !! g = folder w !! g)
  /\ chat_list (read_temp_file w') = chat_list (read_temp_file w)
  /\ (forall id,
        Forall (fun ct => id <> chat_id (fst ct)) chats ->
        chat_progress (read_temp_file w') !! id
        = chat_progress (read_temp_file w) !! id).
Proof.
  intros Hrun.
  assert (Hall : (c <> Exception UnicodeEncodeError ->
                  forall title,
                    grown (archive title (folder w)) (archive title (folder w')))
                 /\ (forall g,
                       Forall (fun ct => g <> _to_filename (chat_name (fst ct))) chats ->
                       folder w' !! g = folder w !! g)
                 /\ chat_list (read_temp_file w') = chat_list (read_temp_file w)
                 /\ (forall id,
                       Forall (fun ct => id <> chat_id (fst ct)) chats ->
                       chat_progress (read_temp_file w') !! id
                       = chat_progress (read_temp_file w) !! id)).
  { revert w Hrun. induction chats as [|[ch trace] chats IH]; intros w Hrun.
    - injection Hrun as <- <-. repeat split. intros _ title. apply grown_refl.
    - simpl in Hrun.
      destruct (download_chat (all_args max_msg oldest ch) trace w)
        as [[[|e] w1]|] eqn:Hchat; [| |discriminate].
      + pose proof (download_chat_frame _ _ _ _ _ Hchat) as [Hother [Hlist Hprog]].
        simpl in Hother, Hlist, Hprog.
        apply IH in Hrun as (Harch & Hfiles & Hlist' & Hprog').
        split; [|split; [|split]].
        * intros Hc title.
          eapply grown_trans; [|apply (Harch Hc title)].
          simpl folder.
          apply (download_chat_keeps_every_archive _ _ _ _ _ title Hchat).
          discriminate.
        * intros g Hg. inversion Hg as [|? ? Hhead Htail]; subst.
          rewrite (Hfiles g Htail). simpl. apply Hother. exact Hhead.
        * rewrite Hlist'. exact Hlist.
        * intros id Hid. inversion Hid as [|? ? Hhead Htail]; subst.
          rewrite (Hprog' id Htail). apply Hprog. exact Hhead.
      + injection Hrun as <- <-.
        pose proof (download_chat_frame _ _ _ _ _ Hchat) as [Hother [Hlist Hprog]].
        simpl in Hother, Hlist, Hprog.
        split; [|split; [|split]].
        * intros Hc title.
          apply (download_chat_keeps_every_archive _ _ _ _ _ title Hchat Hc).
        * intros g Hg. inversion Hg; subst. apply Hother. assumption.
        * exact Hlist.
        * intros id Hid. inversion Hid; subst. apply Hprog. assumption. }
  destruct Hall as (Harch & Hrest). split; [|exact Hrest].
  intros Hc title. specialize (Harch Hc title). split.
  - destruct Harch as [->|(above & Hend & ->)]; [left; reflexivity|].
    right. exists above. split; [exact Hend | reflexivity].
  - intros Hcr. destruct Harch as [->|(above & _ & ->)].
    + exists []. reflexivity.
    + exists above. rewrite (universal_newlines_id _ Hcr). reflexivity.
Qed.

(** X24: a [--download-all] run over chats that are all downloaded already
    (the temp file records for each a progress without next link) makes no
    request and reads no input, whatever the server would answer: it ends
    normally with the folder, the temp file and standard input as they
    were. *)
Theorem download_all_nothing_left (chats : list (chat * list response))
    (w : world) :
  Forall (fun ct => exists pr,
            chat_progress (read_temp_file w) !! chat_id (fst ct) = Some pr
            /\ no_link (next_url pr) = true) chats ->
  exists w',
    download_all max_msg oldest chats w = Some (Normal, w')
    /\ gets (events w') = gets (events w)
    /\ folder w' = folder w
    /\ temp_file w' = temp_file w
    /\ stdin w' = stdin w.
Proof.
  revert w. induction chats as [|[ch trace] chats IH]; intros w Hdone.
  - eexists. split; [reflexivity|]. simpl. rewrite gets_app. simpl.
    repeat split. lia.
  - inversion Hdone as [|? ? [pr [Hpr Hlink]] Hrest]; subst. simpl in Hpr.
    simpl download_all. unfold download_chat, resume. simpl the_chat.
    rewrite Hpr. unfold no_link in Hlink. apply negb_true_iff in Hlink.
    rewrite Hlink. simpl skip_downloaded. cbv iota.
    destruct (IH (print (PPrompt (lit "----")) w)) as [w' [Hrun Hsame]].
    { eapply Forall_impl; [exact Hrest|]. intros ct Hct. exact Hct. }
    exists w'. split; [exact Hrun|].
    destruct Hsame as (Hg & Hf & Ht & Hs). simpl in Hg, Hf, Ht, Hs.
    rewrite gets_app in Hg. simpl in Hg. repeat split; try assumption. lia.
Qed.

(** X25: a chat the server refuses in a [--download-all] run.  When the
    first request for a chat that has no progress recorded is answered with
    an error status, the run goes on to the next chat if the status is 403
    (after printing that the chat is skipped, with no file written for it),
    and for any other status it ends there with the exception: the chats
    after it are not downloaded. *)
Theorem download_all_on_refused_chat (ch : chat) (code : Z) (body : option page)
    (more : list response) (rest : list (chat * list response)) (w : world) :
  chat_progress (read_temp_file w) !! chat_id ch = None ->
  raise_for_status code = true ->
  let a := all_args max_msg oldest ch in
  let asked :=
    emit (EvGet (first_url a) true) (print (PDownloading (chat_name ch)) w) in
  folder asked = folder w
  /\ temp_file asked = temp_file w
  /\ download_all max_msg oldest ((ch, Response code body :: more) :: rest) w =
       if code =? 403
       then download_all max_msg oldest rest
              (print (PPrompt (lit "----"))
                 (print (PCannotDownload (chat_name ch)) asked))
       else Some (Exception (HTTPError code), asked).
Proof.
  intros Hnew Hcode a asked. split; [reflexivity|]. split; [reflexivity|].
  cbn [download_all]. unfold download_chat, resume. fold a.
  change (the_chat a) with ch. rewrite Hnew.
  unfold run_loop. cbn [loop]. unfold loop_body. rewrite Hcode.
  destruct (code =? 403); reflexivity.
Qed.

End Bulk.

(** ** The further properties on sample runs *)

Section More_runs.
Import Samples.
Local Open Scope Z_scope.

Lemma find_chat_blank_query_witness :
  find_chat [chat_U; chat_T] (lit "  ") = Some chat_U.
Proof. apply (find_chat_blank_query chat_U [chat_T] (lit "  ")); reflexivity. Defined.

Lemma save_msg_sequence_witness :
  archive title_T three_flushes
  = (entry carol_old ++ [nl; nl]) ++ (entry bob_second ++ [nl; nl])
    ++ heading title_T ++ [nl; nl] ++ entry alice_first ++ [nl; nl].
Proof.
  assert (Hempty : archive title_T ∅ = []) by (vm_compute; reflexivity).
  assert (Hall : save_all ([alice_first] :: [[bob_second]] ++ [[carol_old]])
                   title_T ∅ = Saved three_flushes) by (vm_compute; reflexivity).
  destruct (save_msg_sequence title_T [alice_first] [[bob_second]] [carol_old]
              (∅ : gmap (list N) (list N)) three_flushes) as [Hfresh _].
  destruct (Hfresh Hempty) as [_ Hseq].
  destruct (Hseq Hall) as [_ Hplain].
  rewrite Hplain by (clear; vm_compute; intuition discriminate).
  vm_compute. reflexivity.
Defined.

Lemma save_msg_nothing_to_write_witness :
  exists folder',
    save_msg [dave_blank] title_T two_flushes = Saved folder'
    /\ archive title_T folder'
       = [nl; nl] ++ universal_newlines (archive title_T two_flushes).
Proof.
  destruct (save_msg_nothing_to_write [dave_blank] title_T two_flushes)
    as (folder' & Hsave & Harch & _);
    [vm_compute; reflexivity | vm_compute; reflexivity
    | intros _; vm_compute; reflexivity |].
  exists folder'. split; [exact Hsave|].
  rewrite Harch. vm_compute. reflexivity.
Defined.

Lemma same_letters_share_the_archive_witness :
  _to_filename title_T = _to_filename (lit "Team QA?")
  /\ archive title_T shared_flush
     = join [nl; nl] (entries_of [bob_second]) ++ [nl; nl]
       ++ universal_newlines (archive title_T one_flush).
Proof.
  destruct (same_letters_share_the_archive title_T (lit "Team QA?")
              [alice_first] [bob_second] ∅ one_flush shared_flush)
    as [Hname Harch]; [vm_compute; reflexivity|].
  split; [exact Hname|].
  apply Harch; vm_compute; reflexivity.
Defined.

Lemma download_chat_only_prepends_witness :
  match download_chat (bulk None None) two_pages with_history with
  | Some (_, w') =>
      folder w' !! _to_filename (chat_name chat_U) = Some (lit "## Budget 2023")
      /\ exists above,
           archive title_T (folder w')
           = above ++ archive title_T (folder with_history)
  | None => False
  end.
Proof.
  destruct (download_chat (bulk None None) two_pages with_history)
    as [[c w']|] eqn:Hrun; [|vm_compute in Hrun; discriminate].
  assert (Hc : c <> Exception UnicodeEncodeError).
  { pose proof Hrun as Hr. vm_compute in Hr. injection Hr as <- _. discriminate. }
  destruct (download_chat_only_prepends _ _ _ _ _ Hrun) as [Hother Harch].
  split.
  - rewrite Hother; [vm_compute; reflexivity|]. clear. vm_compute. discriminate.
  - destruct (Harch Hc) as (_ & _ & Hplain). apply Hplain.
    clear. vm_compute. intuition discriminate.
Defined.

Lemma download_chat_keeps_other_progress_witness :
  match download_chat (bulk None None) two_pages with_history with
  | Some (_, w') =>
      chat_progress (read_temp_file w') !! chat_id chat_U
      = Some {| next_url := None; num := 4 |}
  | None => False
  end.
Proof.
  destruct (download_chat (bulk None None) two_pages with_history)
    as [[c w']|] eqn:Hrun; [|vm_compute in Hrun; discriminate].
  rewrite (proj2 (download_chat_keeps_other_progress _ _ _ _ _ Hrun));
    [reflexivity|].
  vm_compute. discriminate.
Defined.

Lemma gate_off_never_asks_witness :
  match loop (bulk None None) two_pages
          (initial (bulk None None) (first_url (bulk None None)) true refusing) with
  | Some (o, st') => stdin (env st') = [lit "n"] /\ o <> Returned StopDeclined
  | None => False
  end.
Proof.
  destruct (loop (bulk None None) two_pages
              (initial (bulk None None) (first_url (bulk None None)) true refusing))
    as [[o st']|] eqn:Hrun; [|vm_compute in Hrun; discriminate].
  destruct (gate_off_never_asks (bulk None None) _ _ _ _ ltac:(simpl; lia) Hrun)
    as (Hstdin & Hno & _).
  split; [exact Hstdin | exact Hno].
Defined.

Lemma buffer_bounded_between_pages_witness :
  match loop_body (bulk None None) (Response 200 (Some page_one))
          (first_call (bulk None None)) with
  | Next st' => Z.of_nat (length (messages st')) <= SAVE_EVERY
  | Done _ _ => False
  end.
Proof.
  destruct (loop_body (bulk None None) (Response 200 (Some page_one))
              (first_call (bulk None None))) as [st'|o st'] eqn:Hbody;
    [|vm_compute in Hbody; discriminate].
  exact (proj1 (buffer_bounded_between_pages (bulk None None) _ _ _ Hbody)).
Defined.

Lemma requests_are_counted_witness :
  match loop (bulk None None) two_pages (first_call (bulk None None)) with
  | Some (o, st') =>
      num_requests st' = gets (events (env st')) - gets (events fresh)
      /\ 1 <= num_requests st' <= 2
  | None => False
  end.
Proof.
  destruct (loop (bulk None None) two_pages (first_call (bulk None None)))
    as [[o st']|] eqn:Hrun; [|vm_compute in Hrun; discriminate].
  destruct (requests_are_counted (bulk None None) _ _ _ _ _ _ Hrun)
    as (Hnum & Hrange & _).
  split; [exact Hnum | exact Hrange].
Defined.

Lemma completed_chat_is_skipped_witness :
  exists w',
    download_chat (bulk None None) two_pages fresh = Some (Normal, w')
    /\ download_chat (bulk None None) [Response 500 None] w' = Some (Normal, w').
Proof.
  edestruct (completed_chat_is_skipped (bulk None None) two_pages fresh)
    as (c & w' & Hfirst & _ & Hwhen & Hnext);
    [reflexivity | vm_compute; reflexivity | reflexivity |].
  assert (Hc : c = Normal)
    by (apply Hwhen; [vm_compute; reflexivity | vm_compute; reflexivity
                     | intros _; vm_compute; reflexivity]).
  subst c. exists w'. split; [exact Hfirst | apply Hnext].
Defined.

Lemma refused_chat_is_resumed_witness :
  exists w' next,
    download_chat (asking None) [Response 200 (Some page_one)] refusing
      = Some (Normal, w')
    /\ next = next_page
    /\ checkpoint (asking None) w' = Some {| next_url := Some next; num := 1 |}.
Proof.
  edestruct (refused_chat_is_resumed (asking None) [Response 200 (Some page_one)]
               refusing)
    as (c & w' & next & Hfirst & _ & Hwhen & _ & Hcp & _);
    [reflexivity | vm_compute; reflexivity |].
  assert (Hc : c = Normal)
    by (apply Hwhen; [vm_compute; reflexivity | vm_compute; reflexivity
                     | intros _; vm_compute; reflexivity]).
  subst c. exists w', next. split; [exact Hfirst|].
  assert (Hnext : next = next_page).
  { revert Hcp. vm_compute in Hfirst. injection Hfirst as <-.
    vm_compute. intros [= <-]. reflexivity. }
  split; [exact Hnext|]. rewrite Hcp. subst next. reflexivity.
Defined.

Lemma other_types_are_ignored_witness :
  for_records (bulk None None)
    ([record_of alice_first] ++ member_added :: [record_of bob_second])
    (first_call (bulk None None))
  = for_records (bulk None None)
      ([record_of alice_first] ++ [record_of bob_second])
      (first_call (bulk None None)).
Proof.
  apply (proj1 (other_types_are_ignored (bulk None None) [record_of alice_first]
                  [record_of bob_second] member_added
                  (PStr (lit "systemEventMessage")) eq_refl ltac:(discriminate))).
Defined.

Lemma collected_messages_are_records_witness :
  match loop (bulk None None) two_pages (first_call (bulk None None)) with
  | Some (o, st') =>
      exists new, collected st' = new
        /\ Forall (fun m =>
             exists r,
               In r (records_of
                       (received two_pages
                          (events (env (first_call (bulk None None))))
                          (events (env st'))))
               /\ createdDateTime r = Some (msg_time m)) new
  | None => False
  end.
Proof.
  destruct (loop (bulk None None) two_pages (first_call (bulk None None)))
    as [[o st']|] eqn:Hrun; [|vm_compute in Hrun; discriminate].
  destruct (collected_messages_are_records (bulk None None) _ _ _ _ Hrun)
    as [new [Hc Hall]].
  exists new. split; [rewrite Hc; reflexivity|].
  eapply Forall_impl; [exact Hall|]. intros m [r Hr]. exists r. tauto.
Defined.

Lemma nothing_older_is_collected_witness :
  match loop (bulk None (Some may_first)) two_pages
          (first_call (bulk None (Some may_first))) with
  | Some (o, st') => Forall (not_before may_first) (collected st')
  | None => False
  end.
Proof.
  destruct (loop (bulk None (Some may_first)) two_pages
              (first_call (bulk None (Some may_first))))
    as [[o st']|] eqn:Hrun; [|vm_compute in Hrun; discriminate].
  destruct (nothing_older_is_collected (bulk None (Some may_first)) may_first
              _ _ _ _ eq_refl Hrun) as [new [Hc Hall]].
  rewrite Hc. exact Hall.
Defined.

Lemma limit_is_never_exceeded_witness :
  match loop (bulk (Some 2) (Some may_second)) two_pages
          (first_call (bulk (Some 2) (Some may_second))) with
  | Some (o, st') => 0 <= tot_msg st' <= 2
  | None => False
  end.
Proof.
  destruct (loop (bulk (Some 2) (Some may_second)) two_pages
              (first_call (bulk (Some 2) (Some may_second))))
    as [[o st']|] eqn:Hrun; [|vm_compute in Hrun; discriminate].
  exact (proj1 (limit_is_never_exceeded (bulk (Some 2) (Some may_second)) 2
                  _ _ _ _ _ _ eq_refl ltac:(discriminate) Hrun)).
Defined.

Lemma gate_every_n_requests_witness :
  exists st2,
    after_checkpoint (asking None) (Some next_page)
      (initial (asking None) (first_url (asking None)) true refusing)
    = Done (Returned StopDeclined) st2
    /\ stdin (env st2) = [].
Proof.
  destruct (gate_every_n_requests (asking None) next_page
              (initial (asking None) (first_url (asking None)) true refusing))
    as (_ & _ & _ & Hasks);
    [simpl; lia | unfold in_step; simpl; split; [lia | reflexivity] | reflexivity |].
  destruct (Hasks eq_refl (lit "n") [] eq_refl) as [st2 [Hstdin Heq]].
  exists st2. split; [exact Heq | exact Hstdin].
Defined.

Lemma buffer_lost_on_error_witness :
  exists w',
    run_loop (bulk None None)
      [Response 200 (Some page_one); Response 500 None]
      (first_call (bulk None None))
    = Some (Exception (HTTPError 500), w')
    /\ folder w' = ∅
    /\ checkpoint (bulk None None) w'
       = Some {| next_url := Some next_page; num := 1 |}.
Proof.
  edestruct (buffer_lost_on_error (bulk None None) 200 500 page_one None
               next_page [] (first_call (bulk None None)))
    as [w' (Hrun & Hfolder & _ & Hcp)];
    [reflexivity | reflexivity | vm_compute; reflexivity | vm_compute; discriminate
    | reflexivity | reflexivity | simpl; lia |].
  exists w'. split; [exact Hrun|]. split; [exact Hfolder | exact Hcp].
Defined.

Lemma partial_progress_always_asks_witness :
  exists w3,
    resume (bulk None None) interrupted = Go next_page false w3 /\ stdin w3 = [].
Proof.
  destruct (proj2 (partial_progress_always_asks (bulk None None) interrupted
                     {| next_url := Some next_page; num := 1 |} []
                     ltac:(vm_compute; reflexivity) eq_refl)
              (lit " Yes") [] eq_refl) as [w3 [Hstdin Hresume]].
  exists w3. split; [exact Hresume | exact Hstdin].
Defined.

Lemma complete_download_hands_over_everything_witness :
  exists w',
    download_chat (bulk None None) two_pages fresh = Some (Normal, w')
    /\ handed w' = [alice_first; bob_second; carol_old].
Proof.
  destruct (complete_download_hands_over_everything (bulk None None)
              (or_introl eq_refl) eq_refl ltac:(simpl; lia) two_pages fresh)
    as (c & w' & Hrun & _ & Hnormal & Hwhen); [reflexivity | reflexivity |].
  assert (Hc : c = Normal)
    by (apply Hwhen; [vm_compute; reflexivity | vm_compute; reflexivity
                     | intros _; vm_compute; reflexivity]).
  subst c. destruct (Hnormal eq_refl) as (Hall & _).
  exists w'. split; [exact Hrun | rewrite Hall; reflexivity].
Defined.

Lemma small_chat_archive_witness :
  exists w',
    download_chat (bulk None None) two_pages fresh = Some (Normal, w')
    /\ archive title_T (folder w')
       = heading title_T ++ [nl; nl] ++ entry carol_old ++ [nl; nl]
         ++ entry bob_second ++ [nl; nl] ++ entry alice_first ++ [nl; nl].
Proof.
  destruct (small_chat_archive (bulk None None)
              (or_introl eq_refl) eq_refl ltac:(simpl; lia) two_pages fresh)
    as (c & w' & Hrun & _ & Harch & Hwhen);
    [reflexivity | reflexivity | vm_compute; discriminate
    | vm_compute; discriminate |].
  assert (Hc : c = Normal)
    by (apply Hwhen; [vm_compute; reflexivity | vm_compute; reflexivity
                     | intros _; vm_compute; reflexivity]).
  subst c. exists w'. split; [exact Hrun|].
  etransitivity; [apply Harch; reflexivity|]. vm_compute. reflexivity.
Defined.

Lemma download_all_only_adds_witness :
  match download_all None None
          [(chat_T, two_pages); (chat_V, [Response 403 None])] with_history with
  | Some (_, w') =>
      chat_list (read_temp_file w') = [chat_T; chat_U]
      /\ chat_progress (read_temp_file w') !! chat_id chat_U
         = Some {| next_url := None; num := 4 |}
      /\ exists above,
           archive (chat_name chat_U) (folder w') = above ++ lit "## Budget 2023"
  | None => False
  end.
Proof.
  destruct (download_all None None
              [(chat_T, two_pages); (chat_V, [Response 403 None])] with_history)
    as [[c w']|] eqn:Hrun; [|vm_compute in Hrun; discriminate].
  assert (Hc : c <> Exception UnicodeEncodeError).
  { pose proof Hrun as Hr. vm_compute in Hr. injection Hr as <- _. discriminate. }
  destruct (download_all_only_adds None None _ _ _ _ Hrun)
    as (Harch & _ & Hlist & Hprog).
  split; [exact Hlist|]. split.
  - rewrite Hprog; [reflexivity|].
    repeat constructor; vm_compute; discriminate.
  - destruct (Harch Hc (chat_name chat_U)) as [_ Hplain].
    destruct Hplain as [above Habove];
      [clear; vm_compute; intuition discriminate|].
    exists above. rewrite Habove. f_equal; vm_compute; reflexivity.
Defined.

Lemma download_all_nothing_left_witness :
  exists w',
    download_all None None [(chat_U, two_pages)] with_history = Some (Normal, w')
    /\ gets (events w') = 0
    /\ folder w' = folder with_history.
Proof.
  destruct (download_all_nothing_left None None [(chat_U, two_pages)] with_history)
    as [w' (Hrun & Hgets & Hfolder & _)].
  - constructor; [|constructor].
    exists {| next_url := None; num := 4 |}. split; reflexivity.
  - exists w'. split; [exact Hrun|]. split; [exact Hgets | exact Hfolder].
Defined.

Lemma download_all_on_refused_chat_witness :
  download_all None None
    [(chat_V, [Response 403 None]); (chat_T, two_pages)] fresh
  = download_all None None [(chat_T, two_pages)]
      (print (PPrompt (lit "----"))
         (print (PCannotDownload (chat_name chat_V))
            (emit (EvGet (first_url (all_args None None chat_V)) true)
               (print (PDownloading (chat_name chat_V)) fresh)))).
Proof.
  apply (proj2 (proj2 (download_all_on_refused_chat None None chat_V 403 None []
                         [(chat_T, two_pages)] fresh eq_refl eq_refl))).
Defined.

End More_runs.
